(** * TorsionMonitor: a shallow embedding of
    [utils/torsion_submit/monitor_torsiondrives.py]

    The monitor keeps a list of job dictionaries ([self.td_jobs]), talks to a
    QCFractal client, reads and writes a few files and prints to the console.
    Here this is a state-and-exception monad over a [world] that holds the job
    list, the file system, the console and the requests sent to the client.
    Python's exceptions keep every mutation done before they were raised, so
    a computation returns its outcome together with the world it left. *)

From Stdlib Require Import ZArith List String Ascii Lia.
From stdpp Require Import base option list gmap strings pretty.

#[local] Set Warnings "-register-all".

Open Scope string_scope.
Open Scope Z_scope.

(** ** Python values

    What [json.load] returns, and what the job dictionaries hold.  A Python
    [dict] keeps its keys in insertion order: it is an association list whose
    keys are pairwise distinct.  Numbers are integers: the monitor reads no
    fractional number from a JSON document. *)

Inductive json : Type :=
| JNull
| JBool (b : bool)
| JInt (n : Z)
| JStr (s : string)
| JList (l : list json)
| JObj (o : list (string * json)).

Abbreviation dict := (list (string * json)) (only parsing).

(** A job record is a [dict]; [self.td_jobs] is a list of them. *)
Abbreviation job := (list (string * json)) (only parsing).

Inductive exn : Type :=
| KeyError (k : json)
| TypeError (msg : string)
| ValueError (msg : string)
| IndexError (msg : string)
| AssertionError (msg : string)
| IOError (msg : string)
| AttributeError (msg : string)
| ZeroDivisionError (msg : string)
| NameError (msg : string)
| RuntimeError (msg : string).

Inductive outcome (A : Type) : Type :=
| Ok (a : A)
| Raise (e : exn).
Arguments Ok {A} a.
Arguments Raise {A} e.

(** [d[k]] on a dict with string keys. *)
Fixpoint dict_get (k : string) (o : dict) : option json :=
  match o with
  | [] => None
  | (k', v) :: o' => if String.eqb k k' then Some v else dict_get k o'
  end.

(** [d[k] = v]: the value is replaced where the key stands, a new key goes last. *)
Fixpoint dict_set (k : string) (v : json) (o : dict) : dict :=
  match o with
  | [] => [(k, v)]
  | (k', v') :: o' =>
      if String.eqb k k' then (k', v) :: o' else (k', v') :: dict_set k v o'
  end.

(** [d.update(e)] *)
Definition dict_update (o : dict) (e : dict) : dict :=
  fold_left (fun acc kv => dict_set (fst kv) (snd kv) acc) e o.

(** [v[k]] for a string [k]: only a dict can be subscripted by a string. *)
Definition subscript (v : json) (k : string) : outcome json :=
  match v with
  | JObj o =>
      match dict_get k o with
      | Some x => Ok x
      | None => Raise (KeyError (JStr k))
      end
  | _ => Raise (TypeError "indices must be integers")
  end.

(** [job[k]] on a job record. *)
Definition job_get (j : job) (k : string) : outcome json :=
  match dict_get k j with
  | Some x => Ok x
  | None => Raise (KeyError (JStr k))
  end.

(** Truth value of a Python object ([if v:]). *)
Definition truthy (v : json) : bool :=
  match v with
  | JNull => false
  | JBool b => b
  | JInt n => negb (n =? 0)
  | JStr s => negb (String.eqb s "")
  | JList l => match l with [] => false | _ => true end
  | JObj o => match o with [] => false | _ => true end
  end.

(** Lists and dicts cannot be keys of a dict. *)
Definition hashable (v : json) : bool :=
  match v with
  | JList _ | JObj _ => false
  | _ => true
  end.

(** Equality of two dict keys: [True == 1] and [False == 0] in Python. *)
Definition key_eqb (a b : json) : bool :=
  match a, b with
  | JNull, JNull => true
  | JStr s, JStr t => String.eqb s t
  | JInt n, JInt m => n =? m
  | JBool x, JBool y => Bool.eqb x y
  | JBool x, JInt m | JInt m, JBool x => (if x then 1 else 0) =? m
  | _, _ => false
  end.

(** [v == s] for a string literal [s]. *)
Definition eq_str (v : json) (s : string) : bool :=
  match v with
  | JStr t => String.eqb t s
  | _ => false
  end.

(** [len(v)] *)
Definition py_len (v : json) : outcome Z :=
  match v with
  | JList l => Ok (Z.of_nat (length l))
  | JObj o => Ok (Z.of_nat (length o))
  | JStr s => Ok (Z.of_nat (String.length s))
  | _ => Raise (TypeError "object has no len()")
  end.

(** [for x in v]: a list yields its items, a dict its keys, a string its
    characters; nothing else can be iterated. *)
Definition py_iter (v : json) : outcome (list json) :=
  match v with
  | JList l => Ok l
  | JObj o => Ok (map (fun kv => JStr (fst kv)) o)
  | JStr s => Ok (map (fun c => JStr (String c EmptyString)) (list_ascii_of_string s))
  | _ => Raise (TypeError "object is not iterable")
  end.

(** ** Dicts keyed by job id

    [d_id_jobs] maps an id to a job {e object}; the objects of [self.td_jobs]
    are pairwise distinct (each is a fresh [.copy()]), so an object is named
    by its position in the list and a mutation through [d_id_jobs] is an
    update of the list at that position. *)
Abbreviation id_dict := (list (json * nat)) (only parsing).

Fixpoint id_dict_get (k : json) (d : id_dict) : option nat :=
  match d with
  | [] => None
  | (k', i) :: d' => if key_eqb k k' then Some i else id_dict_get k d'
  end.

Fixpoint id_dict_set (k : json) (i : nat) (d : id_dict) : id_dict :=
  match d with
  | [] => [(k, i)]
  | (k', i') :: d' =>
      if key_eqb k k' then (k', i) :: d' else (k', i') :: id_dict_set k i d'
  end.

(** [d.values()] *)
Definition id_dict_values (d : id_dict) : list nat := map snd d.

(** ** The world *)

Inductive request : Type :=
| ReqProcedures (ids : list json)
| ReqServices (ids : list json) (projection : dict).

Inductive file : Type :=
| RawFile (content : string)
| JsonFile (v : json).

(** What [print] was called with: a line, a piece of text ([end='']), a
    line that ends in [str(v)], an object or an exception. *)
Inductive output : Type :=
| Line (s : string)
| Text (s : string)
| LineV (before : string) (v : json)
| Repr (v : json)
| ExnStr (e : exn).

Record world : Type := {
  td_jobs : list job;
  files : gmap string file;
  dirs : gset string;
  stdout : list output;
  requests : list request
}.

Definition M (A : Type) : Type := world -> outcome A * world.

Definition ret {A} (a : A) : M A := fun w => (Ok a, w).
Definition raise {A} (e : exn) : M A := fun w => (Raise e, w).
Definition bind {A B} (m : M A) (f : A -> M B) : M B :=
  fun w => match m w with
           | (Ok a, w') => f a w'
           | (Raise e, w') => (Raise e, w')
           end.
Definition lift {A} (o : outcome A) : M A := fun w => (o, w).

(** [try: m except: h] *)
Definition try_except {A} (m : M A) (h : exn -> M A) : M A :=
  fun w => match m w with
           | (Ok a, w') => (Ok a, w')
           | (Raise e, w') => h e w'
           end.

Notation "x <- m ;; k" := (bind m (fun x => k))
  (at level 100, m at next level, right associativity).
Notation "m ;;; k" := (bind m (fun _ => k))
  (at level 100, right associativity).

(** [for x in l: body(x)] *)
Fixpoint for_each {A} (l : list A) (body : A -> M unit) : M unit :=
  match l with
  | [] => ret tt
  | x :: l' => body x ;;; for_each l' body
  end.

(** A loop that assigns a local variable: the body gets the variable's
    value and returns the new one. *)
Fixpoint for_fold {A S} (l : list A) (s : S) (body : A -> S -> M S) : M S :=
  match l with
  | [] => ret s
  | x :: l' => s' <- body x s ;; for_fold l' s' body
  end.

Definition get_jobs : M (list job) := fun w => (Ok (td_jobs w), w).

Definition print (o : output) : M unit :=
  fun w => (Ok tt, {| td_jobs := td_jobs w; files := files w; dirs := dirs w;
                      stdout := stdout w ++ [o]; requests := requests w |}).

Definition send (r : request) : M unit :=
  fun w => (Ok tt, {| td_jobs := td_jobs w; files := files w; dirs := dirs w;
                      stdout := stdout w; requests := requests w ++ [r] |}).

(** [job[k] = v] on the job object at position [i]. *)
Definition job_set (i : nat) (k : string) (v : json) : M unit :=
  fun w => (Ok tt, {| td_jobs := alter (dict_set k v) i (td_jobs w);
                      files := files w; dirs := dirs w;
                      stdout := stdout w; requests := requests w |}).

(** [job[k]] on the job object at position [i]. *)
Definition job_at (i : nat) (k : string) : M json :=
  fun w => (job_get (td_jobs w !!! i) k, w).

(** Binding on outcomes, for the parts of the program that touch no state. *)
Definition obind {A B} (o : outcome A) (f : A -> outcome B) : outcome B :=
  match o with
  | Ok a => f a
  | Raise e => Raise e
  end.

Notation "x <-? o ;; k" := (obind o (fun x => k))
  (at level 100, o at next level, right associativity).

(** [[f(x) for x in l]] *)
Fixpoint omap {A B} (f : A -> outcome B) (l : list A) : outcome (list B) :=
  match l with
  | [] => Ok []
  | x :: l' => y <-? f x ;; ys <-? omap f l' ;; Ok (y :: ys)
  end.

(** ** Strings and paths *)

(** [f'{s:>w}'] and [f'{s:<w}'] *)
Definition rjust (w : nat) (s : string) : string :=
  string_of_list_ascii (replicate (w - String.length s) " "%char) +:+ s.
Definition ljust (w : nat) (s : string) : string :=
  s +:+ string_of_list_ascii (replicate (w - String.length s) " "%char).

(** [f'{s:^w}']: the odd space goes to the right. *)
Definition center (w : nat) (s : string) : string :=
  let pad := (w - String.length s)%nat in
  string_of_list_ascii (replicate (pad / 2) " "%char) +:+ s
  +:+ string_of_list_ascii (replicate (pad - pad / 2) " "%char).

(** [sep.join(l)] *)
Fixpoint join (sep : string) (l : list string) : string :=
  match l with
  | [] => ""
  | [x] => x
  | x :: l' => x +:+ sep +:+ join sep l'
  end.

(** [p.rfind(c)] *)
Fixpoint rfind (c : ascii) (l : list ascii) : option nat :=
  match l with
  | [] => None
  | x :: l' =>
      match rfind c l' with
      | Some i => Some (S i)
      | None => if Ascii.eqb x c then Some 0%nat else None
      end
  end.

(** [os.path.basename] *)
Definition basename (p : string) : string :=
  let l := list_ascii_of_string p in
  match rfind "/" l with
  | Some i => string_of_list_ascii (drop (S i) l)
  | None => p
  end.

(** [os.path.splitext(p)[0]]: the extension starts at the last dot of the
    last component, unless only dots stand before it there. *)
Definition splitext_root (p : string) : string :=
  let l := list_ascii_of_string p in
  let start := match rfind "/" l with Some i => S i | None => 0%nat end in
  match rfind "." l with
  | Some dot =>
      if (start <=? dot)%nat
         && existsb (fun c => negb (Ascii.eqb c ".")) (take (dot - start) (drop start l))
      then string_of_list_ascii (take dot l)
      else p
  | None => p
  end.

(** [os.path.join(a, b)] *)
Definition path_join (a b : string) : string :=
  match b with
  | String "/" _ => b
  | _ =>
      match last (list_ascii_of_string a) with
      | None | Some "/"%char => a +:+ b
      | Some _ => a +:+ "/" +:+ b
      end
  end.

(** ** Checkpoint Loader (lines 21-41) *)

(** [l[n]] for a Python integer [n]: negative indices count from the end. *)
Definition index {A} (l : list A) (n : Z) : outcome A :=
  let i := if n <? 0 then n + Z.of_nat (length l) else n in
  if i <? 0 then Raise (IndexError "index out of range")
  else match l !! Z.to_nat i with
       | Some x => Ok x
       | None => Raise (IndexError "index out of range")
       end.

(** [v[k]] *)
Definition getitem (v k : json) : outcome json :=
  match v, k with
  | JObj o, JStr s =>
      match dict_get s o with
      | Some x => Ok x
      | None => Raise (KeyError k)
      end
  | JObj _, (JList _ | JObj _) => Raise (TypeError "unhashable type")
  | JObj _, _ => Raise (KeyError k)
  | JList l, JInt n => index l n
  | JList l, JBool b => index l (if b then 1 else 0)
  | JStr s, JInt n =>
      c <-? index (list_ascii_of_string s) n ;; Ok (JStr (String c EmptyString))
  | JStr s, JBool b =>
      c <-? index (list_ascii_of_string s) (if b then 1 else 0) ;;
      Ok (JStr (String c EmptyString))
  | _, _ => Raise (TypeError "bad subscript")
  end.

(** Lines 30-36: the job of dihedral [d]. *)
Definition make_job (mol_name : string) (dihedrals d : json) : outcome job :=
  entry <-? getitem dihedrals d ;;
  match entry with
  | JObj fields =>
      match d with
      | JStr ds =>
          status <-? subscript entry "status" ;;
          Ok (dict_update fields
                [("name", JStr (mol_name +:+ "_" +:+ ds));
                 ("mol_name", JStr mol_name);
                 ("status", status);
                 ("id", default JNull (dict_get "jobid" fields))])
      | _ => Raise (TypeError "can only concatenate str to str")
      end
  | JList _ => Raise (TypeError "can only concatenate str or index with integers")
  | _ => Raise (AttributeError "copy")
  end.

(** Lines 26-37: the jobs of one top-level key. *)
Definition jobs_of_key (state fname : json) : outcome (list job) :=
  if eq_str fname "scan_conf" then Ok []
  else
    match fname with
    | JStr f =>
        let mol_name := splitext_root (basename f) in
        entry <-? subscript state f ;;
        dihedrals <-? subscript entry "dihedrals" ;;
        ds <-? py_iter dihedrals ;;
        omap (make_job mol_name dihedrals) ds
    | _ => Raise (TypeError "expected str, bytes or os.PathLike object")
    end.

(** Lines 24-37: [td_jobs] as built from the parsed file. *)
Definition checkpoint_jobs (state : json) : outcome (list job) :=
  fnames <-? py_iter state ;;
  per_key <-? omap (jobs_of_key state) fnames ;;
  Ok (concat per_key).

(** [Counter(l).items()] *)
Fixpoint counter_add (k : json) (c : list (json * Z)) : list (json * Z) :=
  match c with
  | [] => [(k, 1)]
  | (k', n) :: c' =>
      if key_eqb k k' then (k', n + 1) :: c' else (k', n) :: counter_add k c'
  end.

Definition Counter (l : list json) : outcome (list (json * Z)) :=
  fold_left (fun acc k =>
               c <-? acc ;;
               if hashable k then Ok (counter_add k c)
               else Raise (TypeError "unhashable type"))
            l (Ok []).

(** Lines 122-127 *)
Definition print_status : M unit :=
  print (Line "< Current Status >") ;;;
  print (Text "|") ;;;
  jobs <- get_jobs ;;
  statuses <- lift (omap (fun j => job_get j "status") jobs) ;;
  counts <- lift (Counter statuses) ;;
  for_each counts
    (fun sn => match fst sn with
               | JStr status =>
                   print (Text (rjust 15 status +:+ ": " +:+ ljust 5 (pretty (snd sn))
                                +:+ "|"))
               | JInt _ | JBool _ => raise (ValueError "Unknown format code 's'")
               | _ => raise (TypeError "unsupported format string")
               end) ;;;
  print (Line "").

Definition set_jobs (jobs : list job) : M unit :=
  fun w => (Ok tt, {| td_jobs := jobs; files := files w; dirs := dirs w;
                      stdout := stdout w; requests := requests w |}).

(** [json.load(open(p))] *)
Definition json_load (p : string) : M json :=
  fun w => match files w !! p with
           | Some (JsonFile v) => (Ok v, w)
           | Some (RawFile _) => (Raise (ValueError "JSONDecodeError"), w)
           | None => (Raise (IOError "cannot open for reading"), w)
           end.

Definition load_checkpoint (filename : string) (verbose : bool) : M unit :=
  state <- json_load filename ;;
  td_jobs <- lift (checkpoint_jobs state) ;;
  set_jobs td_jobs ;;;
  if verbose then
    print (Line (pretty (length td_jobs) +:+ " jobs found in " +:+ filename)) ;;;
    print_status
  else ret tt.

(** ** Reporter: log_error (lines 114-120) *)

(** [[job for job in self.td_jobs if job['status'] == s]] *)
Definition jobs_with_status (s : string) (jobs : list job) : outcome (list job) :=
  picked <-? omap (fun j => st <-? job_get j "status" ;; Ok (eq_str st s, j)) jobs ;;
  Ok (map snd (filter (fun bj => fst bj = true) picked)).

Definition write_file (p : string) (f : file) : M unit :=
  fun w => (Ok tt, {| td_jobs := td_jobs w; files := <[p := f]> (files w);
                      dirs := dirs w; stdout := stdout w; requests := requests w |}).

(** [os.path.exists(p)] *)
Definition path_exists (p : string) : M bool :=
  fun w => (Ok (bool_decide (is_Some (files w !! p)) || bool_decide (p ∈ dirs w)), w).

(** [os.mkdir(p)].  The file system is taken to accept every [mkdir] and
    every [open(p, 'w')] the monitor asks for. *)
Definition mkdir (p : string) : M unit :=
  fun w => (Ok tt, {| td_jobs := td_jobs w; files := files w; dirs := {[p]} ∪ dirs w;
                      stdout := stdout w; requests := requests w |}).

(** [open(p, 'w')]: the file exists from now on, and is empty. *)
Definition open_w (p : string) : M unit := write_file p (RawFile "").

(** [f.write(s)] on the file opened at [p]. *)
Definition file_write (p : string) (s : string) : M unit :=
  fun w => let old := match files w !! p with
                      | Some (RawFile c) => c
                      | _ => ""
                      end in
           write_file p (RawFile (old +:+ s)) w.

Definition log_error : M unit :=
  jobs <- get_jobs ;;
  error_jobs <- lift (jobs_with_status "ERROR" jobs) ;;
  match error_jobs with
  | [] => ret tt
  | _ =>
      let error_filename := "monitor_error_jobs.json" in
      write_file error_filename (JsonFile (JList (map JObj error_jobs))) ;;;
      print (Line ("Errors of " +:+ pretty (length error_jobs)
                   +:+ " jobs are recorded in " +:+ error_filename))
  end.

(** ** Reporter: print_progress (lines 129-143) *)

(** [a // b] *)
Definition floordiv (a b : Z) : outcome Z :=
  if b =? 0 then Raise (ZeroDivisionError "integer division or modulo by zero")
  else Ok (a / b).

(** [numpy.array(l).max()] *)
Definition np_max (l : list Z) : outcome Z :=
  match l with
  | [] => Raise (ValueError "zero-size array to reduction operation maximum")
  | x :: l' => Ok (fold_left Z.max l' x)
  end.

(** [numpy.arange(start, stop, step, dtype=int)] *)
Definition np_arange (start stop step : Z) : outcome (list Z) :=
  if step =? 0 then Raise (ZeroDivisionError "division by zero")
  else
    let n := Z.max 0 (- ((start - stop) / step)) in
    Ok (map (fun k => start + k * step) (seqZ 0 n)).

(** [numpy.histogram(data, bins)[0]] for increasing bin edges: every bin is
    half-open but the last, which is closed. *)
Fixpoint np_histogram (data : list Z) (bins : list Z) : list Z :=
  match bins with
  | lo :: ((hi :: rest) as bins') =>
      let inside x :=
        (lo <=? x) && match rest with [] => x <=? hi | _ => x <? hi end in
      Z.of_nat (length (filter (fun x => inside x = true) data))
        :: np_histogram data bins'
  | _ => []
  end.

(** [j['progress']] as an integer of the array. *)
Definition progress_of (j : job) : outcome Z :=
  v <-? job_get j "progress" ;;
  match v with
  | JInt n => Ok n
  | _ => Raise (TypeError "progress is not an integer")
  end.

(** Line 134: [max(max_progress // 6, 1)] *)
Definition bin_width_of (max_progress : Z) : outcome Z :=
  q <-? floordiv max_progress 6 ;;
  Ok (Z.max q 1).


Section Reporter.

(** [f'{histo_n/n_total*100:13.2f}']: the percentage as a formatted float. *)
Variable fmt_percent : Z -> Z -> string.

(** numpy yields [inf] or [nan] with a warning when an integer is divided
    by zero; here that is an error, so that a run that returns normally
    divided by no zero. *)
Definition percent (histo_n n_total : Z) : outcome string :=
  if n_total =? 0 then Raise (ZeroDivisionError "division by zero")
  else Ok (fmt_percent histo_n n_total).

Definition print_progress : M unit :=
  jobs <- get_jobs ;;
  let n_total := Z.of_nat (length jobs) in
  print (Line ("< Progress of Total " +:+ pretty n_total +:+ " Jobs >")) ;;;
  progress_data <- lift (omap progress_of jobs) ;;
  max_progress <- lift (np_max progress_data) ;;
  bin_width <- lift (bin_width_of max_progress) ;;
  bins <- lift (np_arange 0 (max_progress + bin_width) bin_width) ;;
  let histo_data := np_histogram progress_data bins in
  print (Line (center 20 "Progress Range" +:+ " " +:+ rjust 10 "N_jobs"
               +:+ " " +:+ rjust 15 "Percentage")) ;;;
  print (Line (string_of_list_ascii (replicate 50 "-"%char))) ;;;
  for_each (zip histo_data bins)
    (fun hb =>
       let histo_n := fst hb in
       let bin_start := snd hb in
       before_last <- lift (index bins (-2)) ;;
       bin_end <- (if bin_start =? before_last then lift (index bins (-1))
                   else ret (bin_start + bin_width - 1)) ;;
       pct <- lift (percent histo_n n_total) ;;
       print (Line (rjust 9 (pretty bin_start) +:+ "--" +:+ ljust 9 (pretty bin_end)
                    +:+ " " +:+ rjust 10 (pretty histo_n) +:+ " " +:+ pct +:+ " %"))).

End Reporter.

(** ** The remote records *)

(** A grid point identifier is a tuple of angles. *)
Abbreviation grid_id := (list Z) (only parsing).

Section Monitor.

(** Python's [float]: energies, coordinates and gradients.  The monitor only
    moves these numbers around and formats them. *)
Context {float : Type}.

Record Molecule : Type := {
  symbols : list string;
  geometry : list (float * float * float)
}.

Record ResultRecord : Type := {
  driver : string;
  return_result : list float
}.

(** What [query_procedures] yields: a torsion drive record. *)
Record TDRecord : Type := {
  rec_id : json;
  rec_status : string;
  optimization_history : list (string * list json);
  get_final_energies : list (grid_id * float);
  get_final_molecules : list (grid_id * Molecule);
  get_final_results : list (grid_id * ResultRecord)
}.

(** [self.client]: the two queries of the QCFractal client the monitor uses.
    Either may raise (the server may be unreachable); [query_services]
    returns plain dicts because it is called with a projection. *)
Record FractalClient : Type := {
  query_procedures : list json -> outcome (list TDRecord);
  query_services : list json -> dict -> outcome (list json)
}.

(** [self]: the fields [__init__] sets once and no method changes.  The job
    list, which the methods mutate, lives in the world. *)
Record TorsionMonitor : Type := {
  client : FractalClient;
  out_folder : string;
  downloaded_json_fn : string
}.

(** ** get_update (lines 72-112) *)

(** Line 73: [{job['id']: job for job in self.td_jobs if job['id']}].
    [i] is the position of the first job of [jobs] in [self.td_jobs]. *)
Fixpoint build_d_id_jobs (i : nat) (jobs : list job) (d : id_dict) : outcome id_dict :=
  match jobs with
  | [] => Ok d
  | j :: jobs' =>
      match job_get j "id" with
      | Raise e => Raise e
      | Ok v =>
          if truthy v then
            if hashable v then build_d_id_jobs (S i) jobs' (id_dict_set v i d)
            else Raise (TypeError "unhashable type")
          else build_d_id_jobs (S i) jobs' d
      end
  end.

(** [[job['id'] for job in d_id_jobs.values() if p(job['status'])]]
    (lines 87 and 94), on the job list as it stands. *)
Fixpoint ids_where (p : json -> bool) (positions : list nat) (jobs : list job)
  : outcome (list json) :=
  match positions with
  | [] => Ok []
  | i :: rest =>
      match job_get (jobs !!! i) "status" with
      | Raise e => Raise e
      | Ok st =>
          if p st then
            match job_get (jobs !!! i) "id" with
            | Raise e => Raise e
            | Ok v =>
                match ids_where p rest jobs with
                | Ok l => Ok (v :: l)
                | Raise e => Raise e
                end
            end
          else ids_where p rest jobs
      end
  end.

(** [d_id_jobs[k]] *)
Definition id_dict_subscript (d : id_dict) (k : json) : outcome nat :=
  if hashable k then
    match id_dict_get k d with
    | Some i => Ok i
    | None => Raise (KeyError k)
    end
  else Raise (TypeError "unhashable type").

(** Lines 79-85: one entry of the download ledger. *)
Definition ledger_entry (d_id_jobs : id_dict) (downloaded_job_dict : json) : M unit :=
  job_id <- lift (subscript downloaded_job_dict "id") ;;
  if hashable job_id then
    match id_dict_get job_id d_id_jobs with
    | Some i =>
        job_set i "status" (JStr "DOWNLOADED") ;;;
        progress <- lift (subscript downloaded_job_dict "progress") ;;
        job_set i "progress" progress
    | None => ret tt
    end
  else raise (TypeError "unhashable type").

(** Lines 76-85: the ledger pass. *)
Definition ledger_pass (self : TorsionMonitor) (d_id_jobs : id_dict) : M unit :=
  present <- path_exists (downloaded_json_fn self) ;;
  if (present : bool) then
    downloaded_jobs <- json_load (downloaded_json_fn self) ;;
    entries <- lift (py_iter downloaded_jobs) ;;
    for_each entries (ledger_entry d_id_jobs)
  else ret tt.

(** Lines 89-92: one record of the procedure query. *)
Definition procedure_record (d_id_jobs : id_dict) (record : TDRecord) : M unit :=
  i <- lift (id_dict_subscript d_id_jobs (rec_id record)) ;;
  job_set i "status" (JStr (rec_status record)) ;;;
  job_set i "progress" (JInt (Z.of_nat (length (optimization_history record)))).

(** Line 87 *)
Definition query_job_ids (d_id_jobs : id_dict) (jobs : list job) : outcome (list json) :=
  ids_where (fun st => negb (eq_str st "DOWNLOADED")) (id_dict_values d_id_jobs) jobs.

(** Line 94 *)
Definition incomplete_job_ids (d_id_jobs : id_dict) (jobs : list job)
  : outcome (list json) :=
  ids_where (fun st => eq_str st "INCOMPLETE") (id_dict_values d_id_jobs) jobs.

(** Lines 87-92: the procedure query. *)
Definition procedure_pass (self : TorsionMonitor) (d_id_jobs : id_dict) : M unit :=
  jobs <- get_jobs ;;
  query_job_ids <- lift (query_job_ids d_id_jobs jobs) ;;
  send (ReqProcedures query_job_ids) ;;;
  records <- lift (query_procedures (client self) query_job_ids) ;;
  for_each records (procedure_record d_id_jobs).

(** Line 95 *)
Definition td_projection : dict :=
  [("procedure_id", JBool true); ("status", JBool true);
   ("optimization_history", JBool true); ("error", JBool true)].

(** Lines 103-112: one record of the service query; the bare [except]
    swallows whatever the four assignments raise and prints the record. *)
Definition service_record (d_id_jobs : id_dict) (record_dict : json) : M unit :=
  try_except
    (pid <- lift (subscript record_dict "procedure_id") ;;
     i <- lift (id_dict_subscript d_id_jobs pid) ;;
     st <- lift (subscript record_dict "status") ;;
     job_set i "status" st ;;;
     history <- lift (subscript record_dict "optimization_history") ;;
     n <- lift (py_len history) ;;
     job_set i "progress" (JInt n) ;;;
     st' <- job_at i "status" ;;
     if eq_str st' "ERROR" then
       err <- lift (subscript record_dict "error") ;;
       job_set i "error" err
     else ret tt)
    (fun _ => print (Repr record_dict)).

(** Lines 94-112: the service query.  Only an [IOError] of the query is
    caught; any other exception leaves [get_update]. *)
Definition service_pass (self : TorsionMonitor) (d_id_jobs : id_dict) : M unit :=
  jobs <- get_jobs ;;
  incomplete_job_ids <- lift (incomplete_job_ids d_id_jobs jobs) ;;
  record_list <-
    try_except
      (send (ReqServices incomplete_job_ids td_projection) ;;;
       lift (query_services (client self) incomplete_job_ids td_projection))
      (fun e => match e with
                | IOError _ =>
                    print (Line "Not able to pull information of INCOMPLETE jobs. Error:") ;;;
                    print (ExnStr e) ;;;
                    ret []
                | _ => raise e
                end) ;;
  for_each record_list (service_record d_id_jobs).

Definition get_update (self : TorsionMonitor) : M unit :=
  jobs <- get_jobs ;;
  d_id_jobs <- lift (build_d_id_jobs 0 jobs []) ;;
  print (Line ("Updating status for " +:+ pretty (length d_id_jobs)
               +:+ " jobs by their ids")) ;;;
  ledger_pass self d_id_jobs ;;;
  procedure_pass self d_id_jobs ;;;
  service_pass self d_id_jobs.

(** ** Result Materializer (lines 145-232) *)

(** The newline character. *)
Definition nl : string := String (ascii_of_nat 10) EmptyString.

(** [str(t)] for a tuple of integers. *)
Definition str_tuple (g : grid_id) : string :=
  match g with
  | [] => "()"
  | [a] => "(" +:+ pretty a +:+ ",)"
  | _ => "(" +:+ join ", " (map pretty g) +:+ ")"
  end.

(** [a < b] on tuples. *)
Fixpoint tuple_ltb (a b : grid_id) : bool :=
  match a, b with
  | [], [] => false
  | [], _ :: _ => true
  | _ :: _, [] => false
  | x :: a', y :: b' =>
      if x <? y then true else if y <? x then false else tuple_ltb a' b'
  end.

Fixpoint insert_sorted (x : grid_id) (l : list grid_id) : list grid_id :=
  match l with
  | [] => [x]
  | y :: l' => if tuple_ltb y x then y :: insert_sorted x l' else x :: l
  end.

(** [sorted(l)] *)
Definition sorted (l : list grid_id) : list grid_id := foldr insert_sorted [] l.

(** [d[g]] on a dict keyed by grid points. *)
Fixpoint grid_get {A} (g : grid_id) (d : list (grid_id * A)) : option A :=
  match d with
  | [] => None
  | (g', a) :: d' => if bool_decide (g = g') then Some a else grid_get g d'
  end.

Definition grid_subscript {A} (d : list (grid_id * A)) (g : grid_id) : outcome A :=
  match grid_get g d with
  | Some a => Ok a
  | None => Raise (KeyError (JList (map JInt g)))
  end.

(** [numpy.array(l).reshape(-1, 3)] *)
Fixpoint reshape3 (l : list float) : outcome (list (float * float * float)) :=
  match l with
  | [] => Ok []
  | x :: y :: z :: l' => rows <-? reshape3 l' ;; Ok ((x, y, z) :: rows)
  | _ => Raise (ValueError "cannot reshape array into shape (3)")
  end.

(** A string where the program needs one ([os.path.join], [+ '.xyz']). *)
Definition as_str (v : json) : outcome string :=
  match v with
  | JStr s => Ok s
  | _ => Raise (TypeError "expected str")
  end.

(** What the program does with floats: the three number formats of its
    f-strings, the unit conversions, matplotlib's rendering of a curve, and
    [os.path.relpath], which depends on the working directory. *)
Record Numerics : Type := {
  fmt_15_7f : float -> string;
  fmt_13_7f : float -> string;
  fmt_13_5e : float -> string;
  to_angstrom : float -> float;
  relative_kcal : list float -> list float;
  savefig : list Z -> list float -> string -> string;
  relpath : string -> string
}.

Section Materializer.

Variable num : Numerics.

(** Lines 204-212 *)
Definition get_xyz_str (qc_mol : Molecule) (title : string) : string :=
  let elem_list := symbols qc_mol in
  let geo := map (fun xyz => (to_angstrom num xyz.1.1, to_angstrom num xyz.1.2,
                              to_angstrom num xyz.2)) (geometry qc_mol) in
  let noa := length elem_list in
  let lines :=
    ([pretty noa; title]
     ++ map (fun exyz => ljust 7 (fst exyz) +:+ " " +:+ fmt_13_7f num (snd exyz).1.1
                         +:+ " " +:+ fmt_13_7f num (snd exyz).1.2
                         +:+ " " +:+ fmt_13_7f num (snd exyz).2)
            (zip elem_list geo))%list in
  join nl lines.

(** Lines 214-232 *)
Definition plot_1d_energies (energy_dict : list (grid_id * float))
    (filename title : string) : M unit :=
  match energy_dict with
  | [] => print (Line "Empty energy dict, skip plotting")
  | _ =>
      let grid_ids := sorted (map fst energy_dict) in
      x_dihedrals <- lift (omap (fun gid => index gid 0) grid_ids) ;;
      y_energies <- lift (omap (grid_subscript energy_dict) grid_ids) ;;
      let y_energies := relative_kcal num y_energies in
      write_file filename (RawFile (savefig num x_dihedrals y_energies title))
  end.

(** Lines 171-174: one block of the coordinate file; the loop variable
    [energy] keeps its value after the loop. *)
Definition xyz_block (name : string) (final_molecules : list (grid_id * Molecule))
    (final_energy_dict : list (grid_id * float)) (grid_id : grid_id)
  : outcome (string * float) :=
  grid_mol <-? grid_subscript final_molecules grid_id ;;
  energy <-? grid_subscript final_energy_dict grid_id ;;
  let xyz_str := get_xyz_str grid_mol (name +:+ " " +:+ str_tuple grid_id
                                        +:+ " energy = " +:+ fmt_15_7f num energy) in
  Ok (xyz_str +:+ nl, energy).

(** Lines 182-195: one block of the gradient file.  [energy] is the local
    variable of [download_complete], as the coordinate loop left it. *)
Definition gradxyz_block (name : string) (final_molecules : list (grid_id * Molecule))
    (final_result_records : list (grid_id * ResultRecord)) (energy : option float)
    (grid_id : grid_id) : outcome string :=
  grad_result_dict <-? grid_subscript final_result_records grid_id ;;
  if String.eqb (driver grad_result_dict) "gradient" then
    grad_mat <-? reshape3 (return_result grad_result_dict) ;;
    mol <-? grid_subscript final_molecules grid_id ;;
    let elem_list := symbols mol in
    let noa := length grad_mat in
    energy <-? match energy with
               | Some e => Ok e
               | None => Raise (NameError "local variable 'energy' referenced before assignment")
               end ;;
    let title := "Gradients for " +:+ name +:+ " " +:+ str_tuple grid_id
                 +:+ " energy = " +:+ fmt_15_7f num energy in
    let gradxyz_str_lines :=
      ([pretty noa; title]
       ++ map (fun exyz => ljust 7 (fst exyz) +:+ " " +:+ fmt_13_5e num (snd exyz).1.1
                           +:+ " " +:+ fmt_13_5e num (snd exyz).1.2
                           +:+ " " +:+ fmt_13_5e num (snd exyz).2)
              (zip elem_list grad_mat))%list in
    Ok (join nl gradxyz_str_lines +:+ nl)
  else
    Raise (AssertionError ("Wrong job type " +:+ driver grad_result_dict
                           +:+ ", should be 'gradient'")).

(** Line 148: [{job['id']: job for job in self.td_jobs if job['status'] == 'COMPLETE'}] *)
Fixpoint build_d_complete (i : nat) (jobs : list job) (d : id_dict) : outcome id_dict :=
  match jobs with
  | [] => Ok d
  | j :: jobs' =>
      st <-? job_get j "status" ;;
      if eq_str st "COMPLETE" then
        v <-? job_get j "id" ;;
        if hashable v then build_d_complete (S i) jobs' (id_dict_set v i d)
        else Raise (TypeError "unhashable type")
      else build_d_complete (S i) jobs' d
  end.

(** Lines 152-198: the body of the loop over the records; [i] counts from 1,
    [n] is the number of complete jobs. *)
Definition download_record (self : TorsionMonitor) (d_complete_id_jobs : id_dict)
    (n : nat) (i_record : nat * TDRecord) (energy : option float) : M (option float) :=
  let i := fst i_record in
  let record := snd i_record in
  j <- lift (id_dict_subscript d_complete_id_jobs (rec_id record)) ;;
  name <- job_at j "name" ;;
  print (LineV (rjust 3 (pretty i) +:+ "/" +:+ ljust 3 (pretty n)
                +:+ " Downloading results for job ") name) ;;;
  mol_name <- job_at j "mol_name" ;;
  mol_name <- lift (as_str mol_name) ;;
  let folder := path_join (out_folder self) mol_name in
  present <- path_exists folder ;;
  (if (present : bool) then ret tt else mkdir folder) ;;;
  let final_energy_dict := get_final_energies record in
  let final_molecules := get_final_molecules record in
  let final_result_records := get_final_results record in
  let sorted_grid_ids := sorted (map fst final_energy_dict) in
  name <- job_at j "name" ;;
  name <- lift (as_str name) ;;
  let xyz_filename := path_join folder (name +:+ ".xyz") in
  open_w xyz_filename ;;;
  energy <- for_fold sorted_grid_ids energy
              (fun grid_id _ =>
                 block <- lift (xyz_block name final_molecules final_energy_dict grid_id) ;;
                 file_write xyz_filename (fst block) ;;;
                 ret (Some (snd block))) ;;
  let plot_filename := path_join folder (name +:+ ".pdf") in
  plot_1d_energies final_energy_dict plot_filename name ;;;
  let grad_filename := path_join folder (name +:+ ".gradxyz") in
  open_w grad_filename ;;;
  for_each sorted_grid_ids
    (fun grid_id =>
       block <- lift (gradxyz_block name final_molecules final_result_records
                                    energy grid_id) ;;
       file_write grad_filename block) ;;;
  job_set j "status" (JStr "DOWNLOADED") ;;;
  job_set j "saved_file" (JStr (relpath num xyz_filename)) ;;;
  ret energy.

(** [enumerate(l, i)] *)
Fixpoint enumerate {A} (i : nat) (l : list A) : list (nat * A) :=
  match l with
  | [] => []
  | x :: l' => (i, x) :: enumerate (S i) l'
  end.

(** Lines 145-202 *)
Definition download_complete (self : TorsionMonitor) : M unit :=
  present <- path_exists (out_folder self) ;;
  (if (present : bool) then ret tt else mkdir (out_folder self)) ;;;
  jobs <- get_jobs ;;
  d_complete_id_jobs <- lift (build_d_complete 0 jobs []) ;;
  let n := length d_complete_id_jobs in
  print (Line ("Downloading results of " +:+ pretty n +:+ " complete jobs")) ;;;
  send (ReqProcedures (map fst d_complete_id_jobs)) ;;;
  records <- lift (query_procedures (client self) (map fst d_complete_id_jobs)) ;;
  _ <- for_fold (enumerate 1 records) None
         (download_record self d_complete_id_jobs n) ;;
  open_w (downloaded_json_fn self) ;;;
  jobs <- get_jobs ;;
  downloaded_jobs <- lift (jobs_with_status "DOWNLOADED" jobs) ;;
  write_file (downloaded_json_fn self) (JsonFile (JList (map JObj downloaded_jobs))).

(** Lines 235-252: [main], after the monitor is constructed. *)
Definition main_sequence (fmt_percent : Z -> Z -> string) (self : TorsionMonitor) : M unit :=
  get_update self ;;;
  log_error ;;;
  print_status ;;;
  print_progress fmt_percent ;;;
  download_complete self.

End Materializer.

End Monitor.

(** ** sync_from_dataset (lines 43-70)

    What the method uses of the collection that [client.get_collection]
    returns: [ds.status(specs)], which it prints, and [ds.df.to_dict()],
    column by column the cells by label.  A cell holds a record or is
    empty. *)
Record DatasetRecord : Type := {
  ds_rec_id : json;
  ds_rec_status : string
}.

Record TorsionDriveDataset : Type := {
  ds_status : list string -> outcome string;
  df_to_dict : list (string * list (json * option DatasetRecord))
}.

(** [d[k]] and [k in d] on a dict with any hashable keys. *)
Fixpoint label_get {A} (k : json) (d : list (json * A)) : option A :=
  match d with
  | [] => None
  | (k', a) :: d' => if key_eqb k k' then Some a else label_get k d'
  end.

(** [d[k]] on a dict of columns. *)
Fixpoint column_get {A} (k : string) (d : list (string * A)) : option A :=
  match d with
  | [] => None
  | (k', a) :: d' => if String.eqb k k' then Some a else column_get k d'
  end.

(** Lines 65-70: the job at position [i]. *)
Definition sync_job (data_dict : list (json * option DatasetRecord)) (i : nat) : M unit :=
  jobs <- get_jobs ;;
  match dict_get "canonical_torsion_label" (jobs !!! i) with
  | None => ret tt
  | Some label =>
      if hashable label then
        match label_get label data_dict with
        | None => ret tt
        | Some None => raise (AttributeError "id")
        | Some (Some record) =>
            job_set i "id" (ds_rec_id record) ;;;
            job_set i "status" (JStr (ds_rec_status record))
        end
      else raise (TypeError "unhashable type")
  end.

(** [get_collection] is the third method of [self.client] that the monitor
    calls.  The name of the collection and the column are fixed in the
    source: [dataset] is only printed, and [spec] only selects the status
    that is printed. *)
Definition sync_from_dataset
    (get_collection : string -> string -> outcome TorsionDriveDataset)
    (dataset spec : string) : M unit :=
  print (Line ("Loading job status from dataset " +:+ dataset +:+ " [" +:+ spec
               +:+ "] on server")) ;;;
  ds <- lift (get_collection "TorsionDriveDataset" "OpenFF Group1 Torsions") ;;
  status <- lift (ds_status ds [spec]) ;;
  print (Line ("Dataset status:" +:+ nl +:+ status)) ;;;
  data_dict <- lift (match column_get "default" (df_to_dict ds) with
                     | Some column => Ok column
                     | None => Raise (KeyError (JStr "default"))
                     end) ;;
  jobs <- get_jobs ;;
  for_each (seq 0 (length jobs)) (sync_job data_dict).

(** ** main (lines 235-252) with the constructor (lines 15-19)

    [from_file] stands for [FractalClient.from_file], which reads the client
    configuration and may raise, and [realpath] for [os.path.realpath], which
    depends on the working directory.  The checkpoint is loaded before the
    client is built. *)
Definition main {float} (num : @Numerics float) (fmt_percent : Z -> Z -> string)
    (from_file : string -> outcome (@FractalClient float)) (realpath : string -> string)
    (checkpoint client_config : string) : M unit :=
  load_checkpoint checkpoint true ;;;
  client <- lift (from_file client_config) ;;
  let out_folder := realpath "td_results" in
  let monitor := {| client := client; out_folder := out_folder;
                    downloaded_json_fn := path_join out_folder "downloaded.json" |} in
  main_sequence num fmt_percent monitor.

(** * Vocabulary of the statements *)

(** Python compares [True] with [1] and [False] with [0] as equal; up to
    that, two hashable keys are equal when they are the same value. *)
Definition key_canon (v : json) : json :=
  match v with
  | JBool b => JInt (if b then 1 else 0)
  | _ => v
  end.

(** A relation between the world before a computation and the world it
    leaves that holds whatever the outcome is. *)
Definition keeps (R : world -> world -> Prop) {A} (m : M A) : Prop :=
  forall w, R w (m w).2.

(** The job at position [i] is what it was. *)
Definition same_at (i : nat) (w w' : world) : Prop :=
  td_jobs w' !! i = td_jobs w !! i.

(** No job is added or dropped, no [id] changes, and a job that had a
    [status] still has one. *)
Definition grows (w w' : world) : Prop :=
  length (td_jobs w') = length (td_jobs w) /\
  forall p, dict_get "id" (td_jobs w' !!! p) = dict_get "id" (td_jobs w !!! p) /\
            (is_Some (dict_get "status" (td_jobs w !!! p)) ->
             is_Some (dict_get "status" (td_jobs w' !!! p))).

(** No request was sent. *)
Definition same_requests (w w' : world) : Prop := requests w' = requests w.

(** The position of the job that [d_id_jobs] holds for the key [k]: the
    last job whose [id] is truthy and equal to [k]. *)
Fixpoint find_tracked (k : json) (jobs : list job) : option nat :=
  match jobs with
  | [] => None
  | j :: jobs' =>
      match find_tracked k jobs' with
      | Some p => Some (S p)
      | None =>
          match dict_get "id" j with
          | Some v => if truthy v && key_eqb k v then Some 0%nat else None
          | None => None
          end
      end
  end.

(** The keys of an [id_dict] are hashable and pairwise different. *)
Fixpoint id_dict_nodup (d : id_dict) : Prop :=
  match d with
  | [] => True
  | (k, _) :: d' => hashable k = true /\ id_dict_get k d' = None /\ id_dict_nodup d'
  end.

(** The job at position [p] is tracked by id: its [id] is truthy and no
    later job has an equal [id].  These are the job objects that
    [d_id_jobs] holds. *)
Definition tracked (jobs : list job) (p : nat) : Prop :=
  exists j v, jobs !! p = Some j /\ dict_get "id" j = Some v /\
              truthy v = true /\ hashable v = true /\
              forall q j' v', (p < q)%nat -> jobs !! q = Some j' ->
                              dict_get "id" j' = Some v' -> key_eqb v' v = false.

(** [get_update] up to the service query: lines 73-92, the ledger pass and
    the procedure query.  It returns [d_id_jobs]. *)
Definition get_update_prefix {float} (self : @TorsionMonitor float) : M id_dict :=
  jobs <- get_jobs ;;
  d_id_jobs <- lift (build_d_id_jobs 0 jobs []) ;;
  print (Line ("Updating status for " +:+ pretty (length d_id_jobs)
               +:+ " jobs by their ids")) ;;;
  ledger_pass self d_id_jobs ;;;
  procedure_pass self d_id_jobs ;;;
  ret d_id_jobs.

(** [download_complete] up to the loop over the records: lines 146-151.
    It returns [d_complete_id_jobs] and the records of the query. *)
Definition download_complete_start {float} (self : @TorsionMonitor float)
  : M (id_dict * list (@TDRecord float)) :=
  present <- path_exists (out_folder self) ;;
  (if (present : bool) then ret tt else mkdir (out_folder self)) ;;;
  jobs <- get_jobs ;;
  d_complete_id_jobs <- lift (build_d_complete 0 jobs []) ;;
  print (Line ("Downloading results of " +:+ pretty (length d_complete_id_jobs)
               +:+ " complete jobs")) ;;;
  send (ReqProcedures (map fst d_complete_id_jobs)) ;;;
  records <- lift (query_procedures (client self) (map fst d_complete_id_jobs)) ;;
  ret (d_complete_id_jobs, records).


(** The job list is what it was. *)
Definition same_jobs (w w' : world) : Prop := td_jobs w' = td_jobs w.

(** The lines of a text. *)
Fixpoint lines_from (line : string) (s : string) : list string :=
  match s with
  | EmptyString => match line with EmptyString => [] | _ => [line] end
  | String c s' =>
      if Ascii.eqb c (ascii_of_nat 10) then line :: lines_from EmptyString s'
      else lines_from (line +:+ String c EmptyString) s'
  end.

Definition lines_of_file (f : option file) : option (list string) :=
  match f with
  | Some (RawFile content) => Some (lines_from EmptyString content)
  | _ => None
  end.

(** The checkpoint as the specification reads it: the molecule entries
    are the top-level entries other than the reserved key, each with the
    dihedral keys of its [dihedrals] object. *)
Definition molecule_entries (state : json) : list (string * json) :=
  match state with
  | JObj o => filter (fun kv => fst kv <> "scan_conf") o
  | _ => []
  end.

Definition dihedral_keys (entry : json) : list string :=
  match subscript entry "dihedrals" with
  | Ok (JObj ds) => map fst ds
  | _ => []
  end.

Definition dihedral_count (state : json) : nat :=
  sum_list (map (fun kv => length (dihedral_keys (snd kv))) (molecule_entries state)).

(** The molecule name of a top-level key (line 27). *)
Definition mol_name_of (fname : string) : string := splitext_root (basename fname).

(** The job names, molecule by molecule and dihedral by dihedral. *)
Definition job_names (state : json) : list string :=
  flat_map (fun kv => map (fun d => mol_name_of (fst kv) +:+ "_" +:+ d)
                          (dihedral_keys (snd kv)))
           (molecule_entries state).

(** A well-formed checkpoint: an object with distinct keys whose entries,
    the reserved one apart, have a [dihedrals] object with distinct keys,
    each dihedral an object with a string [status]. *)
Definition wf_dihedral (e : json) : bool :=
  match e with
  | JObj fields =>
      match dict_get "status" fields with
      | Some (JStr _) => true
      | _ => false
      end
  | _ => false
  end.

Definition wf_molecule (entry : json) : bool :=
  match subscript entry "dihedrals" with
  | Ok (JObj ds) =>
      bool_decide (NoDup (map fst ds)) && forallb (fun kv => wf_dihedral (snd kv)) ds
  | _ => false
  end.

Definition wf_checkpoint (state : json) : bool :=
  match state with
  | JObj o =>
      bool_decide (NoDup (map fst o))
      && forallb (fun kv => String.eqb (fst kv) "scan_conf" || wf_molecule (snd kv)) o
  | _ => false
  end.

(** What the loader makes of one dihedral: its name joins the molecule name
    and the dihedral key with an underscore, and its status is a string. *)
Definition loaded_as (mol_name d : string) (j : job) : Prop :=
  dict_get "name" j = Some (JStr (mol_name +:+ "_" +:+ d)) /\
  exists s, dict_get "status" j = Some (JStr s).

(** The jobs of one top-level entry. *)
Definition entry_loaded_as (kv : string * json) (jobs : list job) : Prop :=
  if decide (fst kv = "scan_conf") then jobs = []
  else Forall2 (loaded_as (mol_name_of (fst kv))) (dihedral_keys (snd kv)) jobs.

(** Apply a lemma about [keeps]; the preorder it needs is found by instance
    resolution. *)
Tactic Notation "keeps_by" uconstr(lem) := apply lem; try (exact _).

(** The keys [get_update] assigns to. *)
Definition status_fields : list string := ["status"; "progress"; "error"].

(** No job was added or dropped, every field of every job other than
    [status], [progress] and [error] is what it was, and so are the files
    and the directories. *)
Definition updates_status_fields (w w' : world) : Prop :=
  length (td_jobs w') = length (td_jobs w) /\
  files w' = files w /\ dirs w' = dirs w /\
  forall p k, k ∉ status_fields ->
              dict_get k (td_jobs w' !!! p) = dict_get k (td_jobs w !!! p).

(** [get_update] up to the procedure query: lines 73-85, the ledger pass.
    It returns [d_id_jobs]. *)
Definition get_update_ledger {float} (self : @TorsionMonitor float) : M id_dict :=
  jobs <- get_jobs ;;
  d_id_jobs <- lift (build_d_id_jobs 0 jobs []) ;;
  print (Line ("Updating status for " +:+ pretty (length d_id_jobs)
               +:+ " jobs by their ids")) ;;;
  ledger_pass self d_id_jobs ;;;
  ret d_id_jobs.

(** The job's [status] is the string [s]. *)
Definition has_status (s : string) (j : list (string * json)) : bool :=
  match dict_get "status" j with
  | Some v => eq_str v s
  | None => false
  end.

(** The number of jobs whose [status] is [s]. *)
Definition status_count (s : string) (jobs : list (list (string * json))) : Z :=
  Z.of_nat (length (filter (fun j => has_status s j = true) jobs)).

(** A counter over strings: the keys in the order of their first
    occurrence, each with its count. *)
Definition tally (keys : list string) (cnt : string -> Z) : list (json * Z) :=
  map (fun s => (JStr s, cnt s)) keys.

(** How often [s] occurs in [ss]. *)
Definition occurrences (s : string) (ss : list string) : Z :=
  Z.of_nat (length (filter (fun t => t = s) ss)).




(** No request was sent, and no file or directory went away. *)
Definition files_grow (w w' : world) : Prop :=
  requests w' = requests w /\ dirs w ⊆ dirs w' /\
  forall p, is_Some (files w !! p) -> is_Some (files w' !! p).

(** The file at [p] is what it was. *)
Definition same_file (p : string) (w w' : world) : Prop := files w' !! p = files w !! p.






(** The position of the job that [d_complete_id_jobs] holds for the key
    [k]: the last job whose [status] is COMPLETE and whose [id] equals [k]. *)
Fixpoint find_complete (k : json) (jobs : list (list (string * json))) : option nat :=
  match jobs with
  | [] => None
  | j :: jobs' =>
      match find_complete k jobs' with
      | Some p => Some (S p)
      | None =>
          match dict_get "id" j with
          | Some v => if has_status "COMPLETE" j && key_eqb k v then Some 0%nat else None
          | None => None
          end
      end
  end.

(** The last character of a string. *)
Definition last_char (s : string) : option ascii := last (list_ascii_of_string s).

(** Directories are what they were, and so are the files other than [p0]. *)
Definition writes_only (p0 : string) (w w' : world) : Prop :=
  dirs w' = dirs w /\ forall p, p <> p0 -> files w' !! p = files w !! p.

(** The dihedral entries of a molecule entry, and those of a checkpoint in
    the order of the file, each with the molecule name and the dihedral
    key. *)
Definition dihedral_fields (entry : json) : list (string * json) :=
  match subscript entry "dihedrals" with
  | Ok (JObj ds) => ds
  | _ => []
  end.

Definition dihedral_entries (state : json) : list (string * string * json) :=
  flat_map (fun kv => map (fun de => (mol_name_of (fst kv), fst de, snd de))
                          (dihedral_fields (snd kv)))
           (molecule_entries state).

(** The keys that line 31 sets. *)
Definition loader_fields : list string := ["name"; "mol_name"; "status"; "id"].

(** The job that lines 30-36 make of a dihedral entry: the name, the
    molecule name, the status of the entry, its [jobid] as [id] ([None]
    without one), and every other field of the entry as it is. *)
Definition loaded_from (mde : string * string * json) (j : list (string * json)) : Prop :=
  exists fields,
    snd mde = JObj fields /\
    dict_get "name" j = Some (JStr (fst (fst mde) +:+ "_" +:+ snd (fst mde))) /\
    dict_get "mol_name" j = Some (JStr (fst (fst mde))) /\
    dict_get "status" j = dict_get "status" fields /\
    dict_get "id" j = Some (default JNull (dict_get "jobid" fields)) /\
    forall k, k ∉ loader_fields -> dict_get k j = dict_get k fields.

(** Nothing changed but the console. *)
Definition only_prints (w w' : world) : Prop :=
  td_jobs w' = td_jobs w /\ files w' = files w /\ dirs w' = dirs w /\
  requests w' = requests w.

(** What lines 65-70 make of a job: with a label that has a record in the
    column, the [id] and the [status] are the record's; any other job is what
    it was. *)
Definition synced (data_dict : list (json * option DatasetRecord))
    (j : list (string * json)) : list (string * json) :=
  match dict_get "canonical_torsion_label" j with
  | Some label =>
      match label_get label data_dict with
      | Some (Some record) =>
          dict_set "status" (JStr (ds_rec_status record))
            (dict_set "id" (ds_rec_id record) j)
      | _ => j
      end
  | None => j
  end.

(** A job the loop of lines 64-70 can take: its label, when it has one, is
    hashable, and its cell, when there is one, is not empty. *)
Definition syncable (data_dict : list (json * option DatasetRecord))
    (j : list (string * json)) : Prop :=
  forall label, dict_get "canonical_torsion_label" j = Some label ->
                hashable label = true /\ label_get label data_dict <> Some None.

(** * Sample inputs

    Concrete monitors, clients and worlds on which the statements below are
    run.  Floats are stood in for by integers here. *)

Definition sample_record (id : json) (status : string) (steps : nat) : @TDRecord Z :=
  {| rec_id := id; rec_status := status;
     optimization_history := replicate steps ("0", []);
     get_final_energies := []; get_final_molecules := []; get_final_results := [] |}.

Definition sample_job (name : string) (status : string) (id : json) : job :=
  [("status", JStr status); ("name", JStr name); ("mol_name", JStr "ethane"); ("id", id)].

Definition sample_world (jobs : list job) (ledger : option json) : world :=
  {| td_jobs := jobs;
     files := match ledger with
              | Some l => {[ "/td_results/downloaded.json" := JsonFile l ]}
              | None => ∅
              end;
     dirs := ∅; stdout := []; requests := [] |}.

Definition sample_monitor (c : @FractalClient Z) : @TorsionMonitor Z :=
  {| client := c; out_folder := "/td_results";
     downloaded_json_fn := "/td_results/downloaded.json" |}.

(** A server that knows job 7 as running, with five steps done, and answers
    only what it is asked. *)
Definition honest_client : @FractalClient Z :=
  {| query_procedures := fun ids =>
       Ok (if existsb (key_eqb (JStr "7")) ids
           then [sample_record (JStr "7") "INCOMPLETE" 0] else []);
     query_services := fun ids _ =>
       Ok (if existsb (key_eqb (JStr "7")) ids
           then [JObj [("procedure_id", JStr "7"); ("status", JStr "RUNNING");
                       ("optimization_history", JObj [("0", JList []); ("1", JList [])])]]
           else []) |}.

(** A client whose service endpoint cannot be reached. *)
Definition offline_services_client : @FractalClient Z :=
  {| query_procedures := query_procedures honest_client;
     query_services := fun _ _ => Raise (IOError "Connection refused") |}.

(** A server that answers with what it holds for job 7, whatever ids it is
    asked for (as a server does that takes an empty id list for no filter). *)
Definition unfiltered_client : @FractalClient Z :=
  {| query_procedures := fun _ => Ok [sample_record (JStr "7") "ERROR" 3];
     query_services := fun _ _ => Ok [] |}.

Definition ledger_entry_of (id : json) (progress : Z) : json :=
  JObj [("id", id); ("status", JStr "DOWNLOADED"); ("progress", JInt progress)].

(** Stand-ins for the float formats: the integer in decimal, padded like
    the format, with the format's name after it. *)
Definition sample_numerics : @Numerics Z :=
  {| fmt_15_7f := fun x => rjust 15 (pretty x +:+ "f");
     fmt_13_7f := fun x => rjust 13 (pretty x +:+ "f");
     fmt_13_5e := fun x => rjust 13 (pretty x +:+ "e");
     to_angstrom := fun x => x;
     relative_kcal := fun ys => ys;
     savefig := fun xs ys title => "figure of " +:+ title;
     relpath := fun p => p |}.

Definition sample_molecule : @Molecule Z :=
  {| symbols := ["C"; "H"]; geometry := [(0, 0, 0); (0, 0, 2)] |}.

Definition sample_result (driver : string) : @ResultRecord Z :=
  {| driver := driver; return_result := [1; 2; 3; 4; 5; 6] |}.

(** The record of job 7: two grid points, at -165 and 15 degrees, with
    energies 10 and 20, and the result records given. *)
Definition sample_scan (at_m165 at_15 : @ResultRecord Z) : @TDRecord Z :=
  {| rec_id := JStr "7"; rec_status := "COMPLETE";
     optimization_history := [("[-165]", []); ("[15]", [])];
     get_final_energies := [([15], 20); ([-165], 10)];
     get_final_molecules := [([-165], sample_molecule); ([15], sample_molecule)];
     get_final_results := [([-165], at_m165); ([15], at_15)] |}.

Definition scan_client (record : @TDRecord Z) : @FractalClient Z :=
  {| query_procedures := fun _ => Ok [record];
     query_services := fun _ _ => Ok [] |}.

(** Two servers that answer with a record of a job the monitor does not
    know, 999, before the record of job 8: one in the procedure answer, one
    in the service answer. *)
Definition stray_procedure_client : @FractalClient Z :=
  {| query_procedures := fun _ =>
       Ok [sample_record (JStr "999") "COMPLETE" 24;
           sample_record (JStr "8") "COMPLETE" 24];
     query_services := fun _ _ => Ok [] |}.

Definition service_answer (id : string) : json :=
  JObj [("procedure_id", JStr id); ("status", JStr "RUNNING");
        ("optimization_history", JObj [("[-165]", JList []); ("[15]", JList [])])].

Definition stray_service_client : @FractalClient Z :=
  {| query_procedures := fun _ => Ok [sample_record (JStr "8") "INCOMPLETE" 0];
     query_services := fun _ _ => Ok [service_answer "999"; service_answer "8"] |}.

Definition sample_checkpoint : json :=
  JObj [("scan_conf", JObj [("grid_spacing", JInt 15)]);
        ("molecules/ethane.sdf",
         JObj [("dihedrals",
                JObj [("0-1-2-3", JObj [("status", JStr "COMPLETE"); ("jobid", JStr "7")]);
                      ("1-2-3-4", JObj [("status", JStr "submitted")])])]);
        ("propane.mol2",
         JObj [("dihedrals",
                JObj [("4-5-6-7", JObj [("status", JStr "ERROR"); ("jobid", JStr "9")])])])].

(** * Properties *)

(** ** Dict keys *)

Lemma key_eqb_spec (a b : json) :
  key_eqb a b = true <->
  hashable a = true /\ hashable b = true /\ key_canon a = key_canon b.
Proof.
  destruct a as [|x|n|s|l|o], b as [|y|m|t|l'|o']; simpl;
    rewrite ?Z.eqb_eq, ?String.eqb_eq;
    try (split; [discriminate | intros (? & ? & ?); discriminate]);
    try (split; [done | intros; done]);
    try (split; [intros ->; done | intros (_ & _ & [= ->]); done]).
  - destruct x, y; simpl; split; try done; intros (_ & _ & ?); done.
Qed.

Lemma key_eqb_refl (a : json) : hashable a = true -> key_eqb a a = true.
Proof. intros H. apply key_eqb_spec. done. Qed.

Lemma key_eqb_sym (a b : json) : key_eqb a b = key_eqb b a.
Proof.
  destruct (key_eqb a b) eqn:E1, (key_eqb b a) eqn:E2; try done.
  - apply key_eqb_spec in E1 as (? & ? & ?).
    rewrite <- E2. symmetry. apply key_eqb_spec. done.
  - apply key_eqb_spec in E2 as (? & ? & ?).
    rewrite <- E1. apply key_eqb_spec. done.
Qed.

Lemma key_eqb_trans (a b c : json) :
  key_eqb a b = true -> key_eqb b c = key_eqb a c.
Proof.
  intros (Ha & Hb & Hab)%key_eqb_spec.
  destruct (key_eqb b c) eqn:E1, (key_eqb a c) eqn:E2; try done.
  - apply key_eqb_spec in E1 as (? & ? & ?).
    rewrite <- E2. symmetry. apply key_eqb_spec. split_and!; congruence.
  - apply key_eqb_spec in E2 as (? & ? & ?).
    rewrite <- E1. apply key_eqb_spec. split_and!; congruence.
Qed.

Lemma key_eqb_hashable_l (a b : json) : key_eqb a b = true -> hashable a = true.
Proof. intros (? & ? & ?)%key_eqb_spec. done. Qed.

Lemma key_eqb_hashable_r (a b : json) : key_eqb a b = true -> hashable b = true.
Proof. intros (? & ? & ?)%key_eqb_spec. done. Qed.

(** Equal keys have the same truth value. *)
Lemma key_eqb_truthy (a b : json) : key_eqb a b = true -> truthy a = truthy b.
Proof.
  destruct a as [|x|n|s|l|o], b as [|y|m|t|l'|o']; simpl; try done.
  - destruct x, y; done.
  - destruct x; intros ?%Z.eqb_eq; subst; done.
  - destruct y; intros ?%Z.eqb_eq; subst; done.
  - intros ?%Z.eqb_eq; subst; done.
  - intros ?%String.eqb_eq; subst; done.
Qed.

(** ** The monad *)

Lemma bind_Ok {A B} (m : M A) (f : A -> M B) w b w' :
  (x <- m ;; f x) w = (Ok b, w') ->
  exists a w1, m w = (Ok a, w1) /\ f a w1 = (Ok b, w').
Proof.
  unfold bind. destruct (m w) as [[a|e] w1]; [eauto | discriminate].
Qed.

Lemma bind_run {A B} (m : M A) (f : A -> M B) w a w1 :
  m w = (Ok a, w1) -> (x <- m ;; f x) w = f a w1.
Proof. unfold bind. intros ->. done. Qed.

Lemma bind_run_raise {A B} (m : M A) (f : A -> M B) w e w1 :
  m w = (Raise e, w1) -> (x <- m ;; f x) w = (Raise e, w1).
Proof. unfold bind. intros ->. done. Qed.

Lemma for_each_app {A} (l1 l2 : list A) (body : A -> M unit) w :
  for_each (l1 ++ l2) body w =
  match for_each l1 body w with
  | (Ok _, w1) => for_each l2 body w1
  | (Raise e, w1) => (Raise e, w1)
  end.
Proof.
  revert w. induction l1 as [|x l1 IH]; intros w; simpl; [done|].
  unfold bind. destruct (body x w) as [[[]|e] w1]; [apply IH | done].
Qed.

(** ** Python dicts *)

Lemma dict_get_set_eq k v o : dict_get k (dict_set k v o) = Some v.
Proof.
  induction o as [|[k' v'] o IH]; simpl.
  - by rewrite String.eqb_refl.
  - destruct (String.eqb k k') eqn:E; simpl; rewrite E; done.
Qed.

Lemma dict_get_set_ne k k' v o :
  k <> k' -> dict_get k (dict_set k' v o) = dict_get k o.
Proof.
  intros Hne. induction o as [|[k0 v0] o IH]; simpl.
  - apply String.eqb_neq in Hne. by rewrite Hne.
  - destruct (String.eqb k' k0) eqn:E; simpl.
    + apply String.eqb_eq in E as ->.
      apply String.eqb_neq in Hne. by rewrite Hne.
    + destruct (String.eqb k k0); done.
Qed.

Lemma dict_get_set_is_Some k k' v o :
  is_Some (dict_get k o) -> is_Some (dict_get k (dict_set k' v o)).
Proof.
  intros H. destruct (decide (k = k')) as [->|Hne].
  - rewrite dict_get_set_eq. eauto.
  - by rewrite dict_get_set_ne.
Qed.

Lemma id_dict_subscript_Ok (d : id_dict) (k : json) (p : nat) :
  id_dict_subscript d k = Ok p -> hashable k = true /\ id_dict_get k d = Some p.
Proof.
  unfold id_dict_subscript. destruct (hashable k); [|done].
  destruct (id_dict_get k d); [|done]. by intros [= ->].
Qed.

(** ** What a computation keeps *)

Section Keeps.

Context (R : relation world) `{!PreOrder R}.

Lemma keeps_ret {A} (a : A) : keeps R (ret a).
Proof. intros w. reflexivity. Qed.

Lemma keeps_raise {A} (e : exn) : keeps R (@raise A e).
Proof. intros w. reflexivity. Qed.

Lemma keeps_lift {A} (o : outcome A) : keeps R (lift o).
Proof. intros w. reflexivity. Qed.

Lemma keeps_get_jobs : keeps R get_jobs.
Proof. intros w. reflexivity. Qed.

Lemma keeps_job_at (i : nat) (k : string) : keeps R (job_at i k).
Proof. intros w. reflexivity. Qed.

Lemma keeps_path_exists (p : string) : keeps R (path_exists p).
Proof. intros w. reflexivity. Qed.

Lemma keeps_json_load (p : string) : keeps R (json_load p).
Proof.
  intros w. unfold json_load. destruct (files w !! p) as [[]|]; reflexivity.
Qed.

Lemma keeps_bind {A B} (m : M A) (f : A -> M B) :
  keeps R m -> (forall a, keeps R (f a)) -> keeps R (x <- m ;; f x).
Proof.
  intros Hm Hf w. specialize (Hm w). unfold bind.
  destruct (m w) as [[a|e] w1]; simpl in *; [|done].
  etrans; [exact Hm | apply Hf].
Qed.

(** When the value bound comes from a pure computation, the rest may use
    what that computation says about it. *)
Lemma keeps_bind_lift {A B} (o : outcome A) (f : A -> M B) :
  (forall a, o = Ok a -> keeps R (f a)) -> keeps R (x <- lift o ;; f x).
Proof.
  intros Hf w. unfold bind, lift. destruct o as [a|e]; [by apply Hf | reflexivity].
Qed.

Lemma keeps_try_except {A} (m : M A) (h : exn -> M A) :
  keeps R m -> (forall e, keeps R (h e)) -> keeps R (try_except m h).
Proof.
  intros Hm Hh w. specialize (Hm w). unfold try_except.
  destruct (m w) as [[a|e] w1]; simpl in *; [done|].
  etrans; [exact Hm | apply Hh].
Qed.

Lemma keeps_for_each {A} (l : list A) (body : A -> M unit) :
  (forall x, x ∈ l -> keeps R (body x)) -> keeps R (for_each l body).
Proof.
  induction l as [|x l IH]; intros H; simpl.
  - apply keeps_ret.
  - apply keeps_bind; [apply H; left | intros _; apply IH].
    intros y Hy. apply H. by right.
Qed.

(** The three loops of [get_update] change a job only by assigning to a key
    other than [id] of a job that [d_id_jobs] holds under the record's id. *)

Lemma ledger_entry_keeps (d : id_dict) (e : json) :
  (forall kid p k v, subscript e "id" = Ok kid -> id_dict_get kid d = Some p ->
                     k <> "id" -> keeps R (job_set p k v)) ->
  keeps R (ledger_entry d e).
Proof.
  intros H. unfold ledger_entry. apply keeps_bind_lift. intros kid Hkid.
  destruct (hashable kid); [|apply keeps_raise].
  destruct (id_dict_get kid d) as [p|] eqn:Hp; [|apply keeps_ret].
  apply keeps_bind; [by eapply H|]. intros _.
  apply keeps_bind_lift. intros pr _. by eapply H.
Qed.

Lemma procedure_record_keeps {float} (d : id_dict) (r : @TDRecord float) :
  (forall p k v, id_dict_get (rec_id r) d = Some p -> k <> "id" ->
                 keeps R (job_set p k v)) ->
  keeps R (procedure_record d r).
Proof.
  intros H. unfold procedure_record. apply keeps_bind_lift.
  intros p [_ Hp]%id_dict_subscript_Ok.
  apply keeps_bind; [by apply H|]. intros _. by apply H.
Qed.

Hypothesis R_print : forall o, keeps R (print o).

Lemma service_record_keeps (d : id_dict) (rd : json) :
  (forall pid p k v, subscript rd "procedure_id" = Ok pid ->
                     id_dict_get pid d = Some p -> k <> "id" ->
                     keeps R (job_set p k v)) ->
  keeps R (service_record d rd).
Proof.
  intros H. unfold service_record.
  apply keeps_try_except; [|intros _; apply R_print].
  apply keeps_bind_lift. intros pid Hpid.
  apply keeps_bind_lift. intros p [_ Hp]%id_dict_subscript_Ok.
  apply keeps_bind_lift. intros st _.
  apply keeps_bind; [by eapply H|]. intros _.
  apply keeps_bind_lift. intros h _.
  apply keeps_bind_lift. intros n _.
  apply keeps_bind; [by eapply H|]. intros _.
  apply keeps_bind; [apply keeps_job_at|]. intros st'.
  destruct (eq_str st' "ERROR"); [|apply keeps_ret].
  apply keeps_bind_lift. intros err _. by eapply H.
Qed.

End Keeps.

#[export] Instance same_at_preorder i : PreOrder (same_at i).
Proof. split; [done|]. intros a b c. unfold same_at. congruence. Qed.

#[export] Instance grows_preorder : PreOrder grows.
Proof.
  split.
  - intros w. split; [done|]. intros p. done.
  - intros a b c [Hl1 H1] [Hl2 H2]. split; [congruence|]. intros p.
    destruct (H1 p) as [E1 S1], (H2 p) as [E2 S2]. split; [congruence | auto].
Qed.

#[export] Instance same_requests_preorder : PreOrder same_requests.
Proof. split; [done|]. intros a b c. unfold same_requests. congruence. Qed.

Lemma job_set_same_at i p k v : p <> i -> keeps (same_at i) (job_set p k v).
Proof. intros Hne w. simpl. unfold same_at. simpl. by apply list_lookup_alter_ne. Qed.

Lemma job_set_grows p k v : k <> "id" -> keeps grows (job_set p k v).
Proof.
  intros Hne w. split; simpl; [apply length_alter|]. intros q.
  rewrite list_lookup_total_alter. case_decide as Hq; [|done].
  destruct Hq as [-> _]. split.
  - apply dict_get_set_ne. done.
  - apply dict_get_set_is_Some.
Qed.

Lemma job_set_same_requests p k v : keeps same_requests (job_set p k v).
Proof. done. Qed.

Lemma print_same_at i o : keeps (same_at i) (print o).
Proof. done. Qed.

Lemma print_grows o : keeps grows (print o).
Proof. intros w. split; [done|]. intros p. done. Qed.

Lemma print_same_requests o : keeps same_requests (print o).
Proof. done. Qed.

Lemma send_same_at i r : keeps (same_at i) (send r).
Proof. done. Qed.

Lemma send_grows r : keeps grows (send r).
Proof. intros w. split; [done|]. intros p. done. Qed.

(** ** The dict of jobs by id *)

Lemma id_dict_get_key_eqb (a b : json) (d : id_dict) :
  key_eqb a b = true -> id_dict_get a d = id_dict_get b d.
Proof.
  intros Hab. induction d as [|[k p] d IH]; simpl; [done|].
  rewrite <- (key_eqb_trans a b k Hab). by rewrite IH.
Qed.

Lemma id_dict_get_set (k k' : json) (i : nat) (d : id_dict) :
  id_dict_get k (id_dict_set k' i d) =
  if key_eqb k k' then Some i else id_dict_get k d.
Proof.
  induction d as [|[k0 i0] d IH]; simpl; [done|].
  destruct (key_eqb k' k0) eqn:E0; simpl.
  - assert (key_eqb k k0 = key_eqb k k') as ->.
    { rewrite (key_eqb_sym k k0), (key_eqb_sym k k'). by apply key_eqb_trans. }
    by destruct (key_eqb k k').
  - rewrite IH. destruct (key_eqb k k0) eqn:E1, (key_eqb k k') eqn:E2; try done.
    rewrite <- (key_eqb_trans k k0 k' E1), key_eqb_sym in E2. congruence.
Qed.

Lemma id_dict_set_nodup (k : json) (i : nat) (d : id_dict) :
  hashable k = true -> id_dict_nodup d -> id_dict_nodup (id_dict_set k i d).
Proof.
  intros Hk. induction d as [|[k0 i0] d IH]; simpl; [done|].
  intros (H0 & Hnone & Hd). destruct (key_eqb k k0) eqn:E; simpl; [done|].
  split_and!; [done| |by apply IH].
  rewrite id_dict_get_set, key_eqb_sym, E. done.
Qed.

Lemma id_dict_nodup_get (d : id_dict) (k : json) (p : nat) :
  id_dict_nodup d -> (k, p) ∈ d -> id_dict_get k d = Some p.
Proof.
  induction d as [|[k0 p0] d IH]; simpl; [by intros _ ?%elem_of_nil|].
  intros (H0 & Hnone & Hd) [[= -> ->]|Hin]%elem_of_cons.
  - by rewrite key_eqb_refl.
  - destruct (key_eqb k k0) eqn:E; [|by apply IH].
    rewrite <- (id_dict_get_key_eqb k k0 d E), (IH Hd Hin) in Hnone. done.
Qed.

Lemma id_dict_get_elem (d : id_dict) (k : json) (p : nat) :
  id_dict_get k d = Some p -> exists k0, (k0, p) ∈ d /\ key_eqb k k0 = true.
Proof.
  induction d as [|[k0 p0] d IH]; simpl; [done|].
  destruct (key_eqb k k0) eqn:E.
  - intros [= ->]. exists k0. split; [left | done].
  - intros (k1 & Hin & Hk)%IH. exists k1. split; [by right | done].
Qed.

(** A position is among the values of a dict exactly when some key leads
    to it. *)
Lemma id_dict_values_get (d : id_dict) (p : nat) :
  id_dict_nodup d ->
  p ∈ id_dict_values d <-> exists k, id_dict_get k d = Some p.
Proof.
  intros Hd. unfold id_dict_values. rewrite list_elem_of_fmap. split.
  - intros ([k p'] & -> & Hin). exists k. by apply id_dict_nodup_get.
  - intros (k & (k0 & Hin & _)%id_dict_get_elem). by exists (k0, p).
Qed.

(** ** Line 73: which job [d_id_jobs] holds for a key *)

Lemma build_d_id_jobs_get (jobs : list job) :
  forall s d0 d k,
    build_d_id_jobs s jobs d0 = Ok d ->
    id_dict_get k d = match find_tracked k jobs with
                      | Some p => Some (s + p)%nat
                      | None => id_dict_get k d0
                      end.
Proof.
  induction jobs as [|j jobs IH]; intros s d0 d k; simpl.
  - by intros [= ->].
  - unfold job_get. destruct (dict_get "id" j) as [v|]; [|done].
    destruct (truthy v) eqn:Ht; simpl.
    + destruct (hashable v); [|done]. intros H. rewrite (IH _ _ _ k H).
      destruct (find_tracked k jobs) as [p|]; [f_equal; lia|].
      rewrite id_dict_get_set. destruct (key_eqb k v); [f_equal; lia | done].
    + intros H. rewrite (IH _ _ _ k H).
      destruct (find_tracked k jobs) as [p|]; [f_equal; lia | done].
Qed.

Lemma build_d_id_jobs_nodup (jobs : list job) :
  forall s d0 d,
    build_d_id_jobs s jobs d0 = Ok d -> id_dict_nodup d0 -> id_dict_nodup d.
Proof.
  induction jobs as [|j jobs IH]; intros s d0 d; simpl.
  - by intros [= ->].
  - unfold job_get. destruct (dict_get "id" j) as [v|]; [|done].
    destruct (truthy v); [|by apply IH].
    destruct (hashable v) eqn:Hv; [|done].
    intros H Hd0. eapply IH; [exact H|]. by apply id_dict_set_nodup.
Qed.

Lemma find_tracked_None (k : json) (jobs : list job) :
  find_tracked k jobs = None ->
  forall q j v, jobs !! q = Some j -> dict_get "id" j = Some v ->
                truthy v = true -> key_eqb k v = false.
Proof.
  induction jobs as [|j0 jobs IH]; simpl; [done|].
  destruct (find_tracked k jobs) as [p|]; [done|].
  intros H0 [|q] j v; simpl.
  - intros [= ->] Hv Ht. rewrite Hv, Ht in H0. simpl in H0.
    by destruct (key_eqb k v).
  - by apply IH.
Qed.

Lemma find_tracked_Some (k : json) (jobs : list job) (p : nat) :
  find_tracked k jobs = Some p ->
  exists j v, jobs !! p = Some j /\ dict_get "id" j = Some v /\
              truthy v = true /\ key_eqb k v = true /\
              forall q j' v', (p < q)%nat -> jobs !! q = Some j' ->
                              dict_get "id" j' = Some v' -> truthy v' = true ->
                              key_eqb k v' = false.
Proof.
  revert p. induction jobs as [|j0 jobs IH]; intros p; simpl; [done|].
  destruct (find_tracked k jobs) as [p'|] eqn:E.
  - intros [= <-]. destruct (IH p' eq_refl) as (j & v & Hj & Hv & Ht & Hk & Hlast).
    exists j, v. split_and!; try done.
    intros [|q] j' v' Hq; [lia|]. simpl. apply Hlast. lia.
  - destruct (dict_get "id" j0) as [v|] eqn:Hv; [|done].
    destruct (truthy v) eqn:Ht; [|done]. simpl.
    destruct (key_eqb k v) eqn:Hk; [|done]. intros [= <-].
    exists j0, v. split_and!; try done.
    intros [|q] j' v' Hq; [lia|]. simpl. by eapply find_tracked_None.
Qed.

(** [find_tracked] finds the tracked jobs, each under the keys equal to
    its own [id]. *)
Lemma find_tracked_tracked (k : json) (jobs : list job) (p : nat) :
  find_tracked k jobs = Some p ->
  tracked jobs p /\
  exists j v, jobs !! p = Some j /\ dict_get "id" j = Some v /\ key_eqb k v = true.
Proof.
  intros (j & v & Hj & Hv & Ht & Hk & Hlast)%find_tracked_Some. split.
  - exists j, v. split_and!; try done; [by eapply key_eqb_hashable_r|].
    intros q j' v' Hq Hj' Hv'. destruct (key_eqb v' v) eqn:E; [|done].
    assert (truthy v' = true) as Ht' by (by rewrite (key_eqb_truthy v' v E)).
    rewrite <- (Hlast q j' v' Hq Hj' Hv' Ht').
    rewrite (key_eqb_sym k v'). symmetry. rewrite (key_eqb_sym k v) in Hk.
    rewrite <- (key_eqb_trans v' v k E). done.
  - eauto.
Qed.

Lemma tracked_find (jobs : list job) (p : nat) (j : job) (v k : json) :
  tracked jobs p -> jobs !! p = Some j -> dict_get "id" j = Some v ->
  key_eqb k v = true -> find_tracked k jobs = Some p.
Proof.
  intros (j0 & v0 & Hj0 & Hv0 & Ht & Hh & Hlast) Hj Hv Hk.
  assert (j0 = j) as -> by congruence. assert (v0 = v) as -> by congruence.
  clear Hj0 Hv0. revert p Hj Hlast.
  induction jobs as [|j1 jobs IH]; intros p Hj Hlast; [done|]. simpl.
  destruct p as [|p]; simpl in Hj.
  - injection Hj as ->.
    destruct (find_tracked k jobs) as [q|] eqn:E.
    + apply find_tracked_Some in E as (j' & v' & Hj' & Hv' & _ & Hk' & _).
      specialize (Hlast (S q) j' v' ltac:(lia) Hj' Hv').
      rewrite (key_eqb_sym k v') in Hk'.
      rewrite (key_eqb_trans v' k v Hk') in Hk. congruence.
    + by rewrite Hv, Ht, Hk.
  - rewrite (IH p Hj); [done|].
    intros q j' v' Hq. apply (Hlast (S q) j' v'). lia.
Qed.

(** ** The id lists of lines 87 and 94 *)

Lemma ids_where_elem (pred : json -> bool) (positions : list nat) (jobs : list job) :
  forall ids, ids_where pred positions jobs = Ok ids ->
  forall v, v ∈ ids <->
            exists p st, p ∈ positions /\
                         dict_get "status" (jobs !!! p) = Some st /\
                         pred st = true /\ dict_get "id" (jobs !!! p) = Some v.
Proof.
  induction positions as [|p positions IH]; intros ids; simpl.
  - intros [= <-] v. split; [by intros ?%elem_of_nil|].
    by intros (? & ? & ?%elem_of_nil & _).
  - unfold job_get. destruct (dict_get "status" (jobs !!! p)) as [st|] eqn:Hst; [|done].
    destruct (pred st) eqn:Hp.
    + destruct (dict_get "id" (jobs !!! p)) as [v0|] eqn:Hid; [|done].
      destruct (ids_where pred positions jobs) as [l|] eqn:Hl; [|done].
      intros [= <-] v. rewrite elem_of_cons, (IH l eq_refl v). split.
      * intros [->|(q & st' & Hq & ?)].
        -- exists p, st. split_and!; try done. left.
        -- exists q, st'. split; [by right | done].
      * intros (q & st' & [->|Hq]%elem_of_cons & Hst' & Hp' & Hid').
        -- left. congruence.
        -- right. eauto 10.
    + intros H v. rewrite (IH ids H v). split.
      * intros (q & st' & Hq & ?). exists q, st'. split; [by right | done].
      * intros (q & st' & [->|Hq]%elem_of_cons & Hst' & Hp' & Hid').
        -- congruence.
        -- eauto 10.
Qed.

Lemma ids_where_Ok (pred : json -> bool) (positions : list nat) (jobs : list job) :
  (forall p, p ∈ positions -> is_Some (dict_get "status" (jobs !!! p)) /\
                              is_Some (dict_get "id" (jobs !!! p))) ->
  exists ids, ids_where pred positions jobs = Ok ids.
Proof.
  induction positions as [|p positions IH]; intros H; simpl; [eauto|].
  destruct (H p) as [[st Hst] [v Hv]]; [left|].
  destruct IH as [ids Hids]; [intros q Hq; apply H; by right|].
  unfold job_get. rewrite Hst, Hv, Hids. destruct (pred st); eauto.
Qed.

Lemma ids_where_status (pred : json -> bool) (positions : list nat) (jobs : list job) :
  forall ids, ids_where pred positions jobs = Ok ids ->
  forall p, p ∈ positions -> is_Some (dict_get "status" (jobs !!! p)).
Proof.
  induction positions as [|p positions IH]; intros ids; simpl.
  - by intros _ p ?%elem_of_nil.
  - unfold job_get. destruct (dict_get "status" (jobs !!! p)) as [st|] eqn:Hst; [|done].
    intros H q [->|Hq]%elem_of_cons; [by rewrite Hst|].
    destruct (pred st).
    + destruct (dict_get "id" (jobs !!! p)); [|done].
      destruct (ids_where pred positions jobs) as [l|] eqn:Hl; [|done].
      by apply (IH l).
    + by apply (IH ids).
Qed.

(** ** get_update, pass by pass *)

Section Passes.

Context {float : Type}.
Context (R : relation world) `{!PreOrder R}.
Hypothesis R_print : forall o, keeps R (print o).
Hypothesis R_send : forall r, keeps R (send r).

Variable self : @TorsionMonitor float.
Variable d : id_dict.

(** The passes assign only to keys other than [id], of jobs that
    [d_id_jobs] holds. *)
Hypothesis R_job_set :
  forall kid p k v, id_dict_get kid d = Some p -> k <> "id" -> keeps R (job_set p k v).

Lemma ledger_pass_keeps : keeps R (ledger_pass self d).
Proof.
  unfold ledger_pass. keeps_by keeps_bind; [keeps_by keeps_path_exists|].
  intros []; [|keeps_by keeps_ret].
  keeps_by keeps_bind; [keeps_by keeps_json_load|].
  intros v. keeps_by keeps_bind_lift. intros entries _.
  keeps_by keeps_for_each. intros e _.
  keeps_by ledger_entry_keeps. intros kid p k v' _. apply R_job_set.
Qed.

Lemma procedure_pass_keeps : keeps R (procedure_pass self d).
Proof.
  unfold procedure_pass. keeps_by keeps_bind; [keeps_by keeps_get_jobs|].
  intros jobs. keeps_by keeps_bind_lift. intros ids _.
  keeps_by keeps_bind; [apply R_send|].
  intros _. keeps_by keeps_bind_lift. intros records _.
  keeps_by keeps_for_each. intros r _.
  keeps_by procedure_record_keeps. intros p k v. apply R_job_set.
Qed.

Lemma service_pass_keeps : keeps R (service_pass self d).
Proof.
  unfold service_pass. keeps_by keeps_bind; [keeps_by keeps_get_jobs|].
  intros jobs. keeps_by keeps_bind_lift. intros ids _.
  keeps_by keeps_bind.
  - keeps_by keeps_try_except.
    + keeps_by keeps_bind; [apply R_send|]. intros _. keeps_by keeps_lift.
    + intros []; try keeps_by keeps_raise.
      keeps_by keeps_bind; [apply R_print|]. intros _.
      keeps_by keeps_bind; [apply R_print|]. intros _.
      keeps_by keeps_ret.
  - intros records. keeps_by keeps_for_each. intros rd _.
    keeps_by service_record_keeps; [done|]. intros pid p k v _. apply R_job_set.
Qed.

End Passes.

Lemma get_update_unfold {float} (self : @TorsionMonitor float) (w : world) :
  get_update self w =
  match build_d_id_jobs 0 (td_jobs w) [] with
  | Ok d =>
      (print (Line ("Updating status for " +:+ pretty (length d)
                    +:+ " jobs by their ids")) ;;;
       ledger_pass self d ;;; procedure_pass self d ;;; service_pass self d) w
  | Raise e => (Raise e, w)
  end.
Proof.
  unfold get_update, get_jobs, lift. unfold bind at 1 2.
  by destruct (build_d_id_jobs 0 (td_jobs w) []).
Qed.

Lemma get_update_prefix_unfold {float} (self : @TorsionMonitor float) (w : world) :
  get_update_prefix self w =
  match build_d_id_jobs 0 (td_jobs w) [] with
  | Ok d =>
      (print (Line ("Updating status for " +:+ pretty (length d)
                    +:+ " jobs by their ids")) ;;;
       ledger_pass self d ;;; procedure_pass self d ;;; ret d) w
  | Raise e => (Raise e, w)
  end.
Proof.
  unfold get_update_prefix, get_jobs, lift. unfold bind at 1 2.
  by destruct (build_d_id_jobs 0 (td_jobs w) []).
Qed.

(** [get_update] is its prefix followed by the service query. *)
Lemma get_update_split {float} (self : @TorsionMonitor float) (w : world) :
  get_update self w =
  match get_update_prefix self w with
  | (Ok d, w2) => service_pass self d w2
  | (Raise e, w2) => (Raise e, w2)
  end.
Proof.
  rewrite get_update_unfold, get_update_prefix_unfold.
  destruct (build_d_id_jobs 0 (td_jobs w) []) as [d|e]; [|done].
  unfold bind, print, ret. simpl.
  destruct (ledger_pass self d _) as [[[]|e] w1]; [|done].
  destruct (procedure_pass self d w1) as [[[]|e] w2]; done.
Qed.

Section Whole.

Context {float : Type}.
Context (R : relation world) `{!PreOrder R}.
Hypothesis R_print : forall o, keeps R (print o).
Hypothesis R_send : forall r, keeps R (send r).

Variable self : @TorsionMonitor float.
Variable w : world.

Hypothesis R_job_set :
  forall d, build_d_id_jobs 0 (td_jobs w) [] = Ok d ->
  forall kid p k v, id_dict_get kid d = Some p -> k <> "id" -> keeps R (job_set p k v).

Lemma get_update_keeps : R w (get_update self w).2.
Proof.
  rewrite get_update_unfold.
  destruct (build_d_id_jobs 0 (td_jobs w) []) as [d|e] eqn:Hd; [|reflexivity].
  specialize (R_job_set d eq_refl).
  revert w Hd R_job_set. intros w0 _ HR. generalize w0. change (keeps R
    (print (Line ("Updating status for " +:+ pretty (length d)
                  +:+ " jobs by their ids")) ;;;
     ledger_pass self d ;;; procedure_pass self d ;;; service_pass self d)).
  keeps_by keeps_bind; [apply R_print|]. intros _.
  keeps_by keeps_bind; [by keeps_by ledger_pass_keeps|]. intros _.
  keeps_by keeps_bind; [by keeps_by procedure_pass_keeps|]. intros _.
  by keeps_by service_pass_keeps.
Qed.

Lemma get_update_prefix_keeps : R w (get_update_prefix self w).2.
Proof.
  rewrite get_update_prefix_unfold.
  destruct (build_d_id_jobs 0 (td_jobs w) []) as [d|e] eqn:Hd; [|reflexivity].
  specialize (R_job_set d eq_refl).
  revert w Hd R_job_set. intros w0 _ HR. generalize w0. change (keeps R
    (print (Line ("Updating status for " +:+ pretty (length d)
                  +:+ " jobs by their ids")) ;;;
     ledger_pass self d ;;; procedure_pass self d ;;; ret d)).
  keeps_by keeps_bind; [apply R_print|]. intros _.
  keeps_by keeps_bind; [by keeps_by ledger_pass_keeps|]. intros _.
  keeps_by keeps_bind; [by keeps_by procedure_pass_keeps|]. intros _.
  keeps_by keeps_ret.
Qed.

End Whole.

(** What [d_id_jobs] holds: the tracked jobs, each under the keys equal to
    its [id]. *)
Lemma d_id_jobs_get (jobs : list job) (d : id_dict) (k : json) (p : nat) :
  build_d_id_jobs 0 jobs [] = Ok d ->
  id_dict_get k d = Some p <-> find_tracked k jobs = Some p.
Proof.
  intros H. rewrite (build_d_id_jobs_get jobs 0 [] d k H).
  destruct (find_tracked k jobs); simpl; [|done]. done.
Qed.

Lemma d_id_jobs_values (jobs : list job) (d : id_dict) (p : nat) :
  build_d_id_jobs 0 jobs [] = Ok d ->
  p ∈ id_dict_values d <-> exists k, find_tracked k jobs = Some p.
Proof.
  intros H. rewrite id_dict_values_get by (by eapply build_d_id_jobs_nodup).
  split; intros [k Hk]; exists k; by apply (d_id_jobs_get jobs d k p H).
Qed.

(** ** Jobs without an id *)

(** C10.  A job whose [id] is missing, [None] or otherwise falsy is left as
    it was by [get_update], whatever the ledger and the remote queries
    hold and whether [get_update] returns or raises: the whole record, so
    its [status], [progress] and [error] in particular. *)
Theorem get_update_leaves_jobs_without_id {float} (self : @TorsionMonitor float)
    (w : world) (i : nat) (j : job) :
  td_jobs w !! i = Some j ->
  (forall v, dict_get "id" j = Some v -> truthy v = false) ->
  td_jobs (get_update self w).2 !! i = Some j.
Proof.
  intros Hj Hid. rewrite <- Hj.
  apply (get_update_keeps (same_at i)); [done|done|].
  intros d Hd kid p k v Hp _. apply job_set_same_at. intros ->.
  apply (d_id_jobs_get _ _ _ _ Hd) in Hp.
  apply find_tracked_Some in Hp as (j' & v' & Hj' & Hv' & Ht & _).
  rewrite Hj in Hj'. injection Hj' as <-. rewrite (Hid v' Hv') in Ht. done.
Qed.

Lemma get_update_leaves_jobs_without_id_witness :
  let jobs := [sample_job "ethane_a" "INCOMPLETE" JNull;
               sample_job "ethane_b" "COMPLETE" (JStr "7")] in
  let w := sample_world jobs (Some (JList [JObj [("id", JNull); ("progress", JInt 3)]])) in
  td_jobs w !! 0%nat = Some (sample_job "ethane_a" "INCOMPLETE" JNull) /\
  (forall v, dict_get "id" (sample_job "ethane_a" "INCOMPLETE" JNull) = Some v ->
             truthy v = false) /\
  td_jobs (get_update (sample_monitor honest_client) w).2 !! 0%nat
  = Some (sample_job "ethane_a" "INCOMPLETE" JNull).
Proof.
  assert (forall v, dict_get "id" (sample_job "ethane_a" "INCOMPLETE" JNull) = Some v ->
                    truthy v = false) as H.
  { intros v [= <-]. reflexivity. }
  split; [reflexivity|]. split; [exact H|].
  apply (get_update_leaves_jobs_without_id _ _ 0%nat); [reflexivity | exact H].
Defined.

(** ** The state between the procedure query and the service query *)

Lemma tracked_values (jobs : list job) (d : id_dict) (p : nat) :
  build_d_id_jobs 0 jobs [] = Ok d ->
  p ∈ id_dict_values d <-> tracked jobs p.
Proof.
  intros Hd. rewrite (d_id_jobs_values jobs d p Hd). split.
  - intros [k Hk]. by apply find_tracked_tracked in Hk as [? _].
  - intros Ht. pose proof Ht as (j & v & Hj & Hv & _ & Hh & _).
    exists v. eapply tracked_find; [done..|]. by apply key_eqb_refl.
Qed.

Lemma eq_str_true (v : json) (s : string) : eq_str v s = true <-> v = JStr s.
Proof.
  destruct v; simpl; try (split; [done | intros [=]]).
  rewrite String.eqb_eq. split; [by intros -> | by intros [= ->]].
Qed.

Lemma get_update_prefix_grows {float} (self : @TorsionMonitor float) (w : world) :
  grows w (get_update_prefix self w).2.
Proof.
  apply (get_update_prefix_keeps grows).
  - apply print_grows.
  - apply send_grows.
  - intros d _ kid p k v _ Hk. by apply job_set_grows.
Qed.

Lemma grows_lookup (w w' : world) (p : nat) (j : job) :
  grows w w' -> td_jobs w !! p = Some j ->
  exists j', td_jobs w' !! p = Some j' /\ dict_get "id" j' = dict_get "id" j /\
             (is_Some (dict_get "status" j) -> is_Some (dict_get "status" j')).
Proof.
  intros [Hlen H] Hj. destruct (H p) as [Hid Hst].
  assert (p < length (td_jobs w'))%nat as Hp.
  { rewrite Hlen. by eapply lookup_lt_Some. }
  apply lookup_lt_is_Some in Hp as [j' Hj']. exists j'.
  rewrite (list_lookup_total_correct _ _ _ Hj) in Hid, Hst.
  rewrite (list_lookup_total_correct _ _ _ Hj') in Hid, Hst. done.
Qed.

(** When the prefix returns, it returns the dict of line 73, and every job
    of that dict has an [id] and a [status]. *)
Lemma get_update_prefix_Ok {float} (self : @TorsionMonitor float) (w w2 : world)
    (d : id_dict) :
  get_update_prefix self w = (Ok d, w2) ->
  build_d_id_jobs 0 (td_jobs w) [] = Ok d /\
  forall p, p ∈ id_dict_values d ->
            is_Some (dict_get "status" (td_jobs w2 !!! p)) /\
            is_Some (dict_get "id" (td_jobs w2 !!! p)).
Proof.
  intros H. pose proof (get_update_prefix_grows self w) as Hg. rewrite H in Hg.
  simpl in Hg. rewrite get_update_prefix_unfold in H.
  destruct (build_d_id_jobs 0 (td_jobs w) []) as [d'|e] eqn:Hd; [|done].
  apply bind_Ok in H as ([] & w0 & _ & H).
  apply bind_Ok in H as ([] & w1 & _ & H).
  apply bind_Ok in H as ([] & w2' & Hproc & H).
  injection H as -> ->. split; [done|]. intros p Hp. split.
  - pose proof (procedure_pass_keeps grows send_grows self d
                  (fun kid p k v _ Hk => job_set_grows p k v Hk) w1) as [_ Hg1].
    rewrite Hproc in Hg1. simpl in Hg1. apply Hg1.
    unfold procedure_pass in Hproc. apply bind_Ok in Hproc as (jobs & w1' & Hjobs & Hproc).
    injection Hjobs as <- <-.
    apply bind_Ok in Hproc as (ids & w1' & Hids & _).
    unfold lift in Hids. injection Hids as Hids _.
    by eapply ids_where_status.
  - apply (tracked_values _ _ _ Hd) in Hp as (j & v & Hj & Hv & _).
    destruct Hg as [_ Hg]. destruct (Hg p) as [-> _].
    rewrite (list_lookup_total_correct _ _ _ Hj), Hv. eauto.
Qed.

Lemma get_update_prefix_incomplete_ids {float} (self : @TorsionMonitor float)
    (w w2 : world) (d : id_dict) :
  get_update_prefix self w = (Ok d, w2) ->
  exists ids, incomplete_job_ids d (td_jobs w2) = Ok ids.
Proof.
  intros [_ H]%get_update_prefix_Ok. by apply ids_where_Ok.
Qed.

(** ** The service query fails *)

(** C6.  When the service query raises a transport error ([IOError]),
    [get_update] catches it, prints the two lines of the handler and returns
    normally; the job list is the one the procedure query left, so the
    [status], [progress] and [error] of every job, INCOMPLETE or not, are
    unchanged. *)
Theorem get_update_survives_service_failure {float} (self : @TorsionMonitor float)
    (w w2 : world) (d : id_dict) (msg : string) :
  get_update_prefix self w = (Ok d, w2) ->
  (forall ids, incomplete_job_ids d (td_jobs w2) = Ok ids ->
               query_services (client self) ids td_projection = Raise (IOError msg)) ->
  exists ids,
    incomplete_job_ids d (td_jobs w2) = Ok ids /\
    get_update self w =
    (Ok tt,
     {| td_jobs := td_jobs w2; files := files w2; dirs := dirs w2;
        stdout := stdout w2
                  ++ [Line "Not able to pull information of INCOMPLETE jobs. Error:";
                      ExnStr (IOError msg)];
        requests := requests w2 ++ [ReqServices ids td_projection] |}).
Proof.
  intros Hpre Hfail.
  destruct (get_update_prefix_incomplete_ids self w w2 d Hpre) as [ids Hids].
  exists ids. split; [done|].
  rewrite get_update_split, Hpre.
  unfold service_pass, bind, get_jobs, lift, try_except, send, print, ret. simpl.
  rewrite Hids. simpl. rewrite (Hfail ids Hids). simpl.
  by rewrite <- app_assoc.
Qed.

Lemma get_update_survives_service_failure_witness :
  let self := sample_monitor offline_services_client in
  let w := sample_world [sample_job "ethane_a" "submitted" (JStr "7")] None in
  let d := [(JStr "7", 0%nat)] in
  let w2 := (get_update_prefix self w).2 in
  get_update_prefix self w = (Ok d, w2) /\
  (forall ids, incomplete_job_ids d (td_jobs w2) = Ok ids ->
               query_services (client self) ids td_projection
               = Raise (IOError "Connection refused")) /\
  exists ids,
    incomplete_job_ids d (td_jobs w2) = Ok ids /\
    get_update self w =
    (Ok tt,
     {| td_jobs := td_jobs w2; files := files w2; dirs := dirs w2;
        stdout := stdout w2
                  ++ [Line "Not able to pull information of INCOMPLETE jobs. Error:";
                      ExnStr (IOError "Connection refused")];
        requests := requests w2 ++ [ReqServices ids td_projection] |}).
Proof.
  intros self w d w2.
  assert (get_update_prefix self w = (Ok d, w2)) as Hpre by (vm_compute; reflexivity).
  assert (forall ids, incomplete_job_ids d (td_jobs w2) = Ok ids ->
                      query_services (client self) ids td_projection
                      = Raise (IOError "Connection refused")) as Hfail.
  { intros ids _. reflexivity. }
  split; [exact Hpre|]. split; [exact Hfail|].
  exact (get_update_survives_service_failure self w w2 d "Connection refused" Hpre Hfail).
Defined.

(** ** The requests [get_update] sends *)

Lemma ledger_pass_same_requests {float} (self : @TorsionMonitor float) (d : id_dict) :
  keeps same_requests (ledger_pass self d).
Proof.
  keeps_by ledger_pass_keeps. intros kid p k v _ _. apply job_set_same_requests.
Qed.

Lemma procedure_records_same_requests {float} (d : id_dict)
    (records : list (@TDRecord float)) :
  keeps same_requests (for_each records (procedure_record d)).
Proof.
  keeps_by keeps_for_each. intros r _. keeps_by procedure_record_keeps.
  intros p k v _ _. apply job_set_same_requests.
Qed.

Lemma service_records_same_requests (d : id_dict) (records : list json) :
  keeps same_requests (for_each records (service_record d)).
Proof.
  keeps_by keeps_for_each. intros r _. keeps_by service_record_keeps.
  - apply print_same_requests.
  - intros pid p k v _ _ _. apply job_set_same_requests.
Qed.

(** The procedure pass sends one request, unless line 87 raises. *)
Lemma procedure_pass_requests {float} (self : @TorsionMonitor float) (d : id_dict)
    (w : world) :
  match query_job_ids d (td_jobs w) with
  | Ok qids => requests (procedure_pass self d w).2 = (requests w ++ [ReqProcedures qids])%list
  | Raise e => procedure_pass self d w = (Raise e, w)
  end.
Proof.
  unfold procedure_pass, bind, get_jobs, lift.
  destruct (query_job_ids d (td_jobs w)) as [qids|e]; [|done]. simpl.
  destruct (query_procedures (client self) qids) as [records|e]; [|done].
  match goal with
  | |- requests (for_each _ _ ?w').2 = _ =>
      exact (procedure_records_same_requests d records w')
  end.
Qed.

(** The service pass sends one request, unless line 94 raises. *)
Lemma service_pass_requests {float} (self : @TorsionMonitor float) (d : id_dict)
    (w : world) :
  match incomplete_job_ids d (td_jobs w) with
  | Ok ids =>
      requests (service_pass self d w).2
      = (requests w ++ [ReqServices ids td_projection])%list
  | Raise e => service_pass self d w = (Raise e, w)
  end.
Proof.
  unfold service_pass, bind, get_jobs, lift, try_except, send.
  destruct (incomplete_job_ids d (td_jobs w)) as [ids|e]; [|done]. simpl.
  destruct (query_services (client self) ids td_projection) as [records|e].
  - match goal with
    | |- requests (for_each _ _ ?w').2 = _ =>
        exact (service_records_same_requests d records w')
    end.
  - destruct e; done.
Qed.

(** The prefix sends at most the procedure query, and sends it when it
    returns. *)
Lemma get_update_prefix_requests {float} (self : @TorsionMonitor float) (w : world) :
  (exists qids, requests (get_update_prefix self w).2
                = (requests w ++ [ReqProcedures qids])%list)
  \/ (requests (get_update_prefix self w).2 = requests w /\
      exists e, (get_update_prefix self w).1 = Raise e).
Proof.
  rewrite get_update_prefix_unfold.
  destruct (build_d_id_jobs 0 (td_jobs w) []) as [d|e]; [|right; eauto].
  unfold bind, print, ret. simpl.
  match goal with
  | |- context [ledger_pass self d ?w0] =>
      pose proof (ledger_pass_same_requests self d w0) as Hl;
      destruct (ledger_pass self d w0) as [[[]|e] w1]
  end; unfold same_requests in Hl; simpl in Hl; [|right; simpl; eauto].
  pose proof (procedure_pass_requests self d w1) as Hp.
  destruct (query_job_ids d (td_jobs w1)) as [qids|e].
  - left. exists qids.
    destruct (procedure_pass self d w1) as [[[]|e] w2]; simpl in *; congruence.
  - right. rewrite Hp. simpl. split; [congruence | eauto].
Qed.

(** C4, as amended.  When the ledger pass and the procedure query have
    returned, [get_update] sends exactly two requests, the procedure query and
    then one service query, and the ids of the service query are exactly the
    ids of the jobs tracked by id (truthy [id], the last job with that id)
    whose [status] at that point is the string INCOMPLETE.  When they raise,
    no service query is sent. *)
Theorem service_query_asks_for_tracked_incomplete_jobs {float}
    (self : @TorsionMonitor float) (w : world) :
  match get_update_prefix self w with
  | (Ok d, w2) =>
      exists qids ids,
        requests (get_update self w).2
        = (requests w ++ [ReqProcedures qids; ReqServices ids td_projection])%list /\
        forall v, v ∈ ids <->
                  exists p j, tracked (td_jobs w) p /\ td_jobs w2 !! p = Some j /\
                              dict_get "id" j = Some v /\
                              dict_get "status" j = Some (JStr "INCOMPLETE")
  | (Raise e, w2) =>
      get_update self w = (Raise e, w2) /\
      forall ids proj, ReqServices ids proj ∈ requests w2 ->
                       ReqServices ids proj ∈ requests w
  end.
Proof.
  pose proof (get_update_prefix_requests self w) as Hreq.
  pose proof (get_update_prefix_grows self w) as Hg.
  pose proof (get_update_split self w) as Hsplit.
  destruct (get_update_prefix self w) as [[d|e] w2] eqn:Hpre; simpl in *.
  - destruct Hreq as [[qids Hq]|[_ [e [=]]]].
    destruct (get_update_prefix_Ok self w w2 d Hpre) as [Hd Hfields].
    destruct (get_update_prefix_incomplete_ids self w w2 d Hpre) as [ids Hids].
    exists qids, ids. split.
    + pose proof (service_pass_requests self d w2) as Hs.
      rewrite Hids in Hs. rewrite Hsplit, Hs, Hq, <- app_assoc. done.
    + intros v. unfold incomplete_job_ids in Hids.
      rewrite (ids_where_elem _ _ _ ids Hids v). split.
      * intros (p & st & Hp & Hst & ->%eq_str_true & Hv).
        apply (tracked_values _ _ _ Hd) in Hp.
        pose proof Hp as (j0 & v0 & Hj0 & _).
        destruct (grows_lookup w w2 p j0 Hg Hj0) as (j & Hj & _).
        rewrite (list_lookup_total_correct _ _ _ Hj) in Hst, Hv. eauto 10.
      * intros (p & j & Hp & Hj & Hv & Hst).
        exists p, (JStr "INCOMPLETE").
        rewrite (list_lookup_total_correct _ _ _ Hj).
        split_and!; try done. by apply (tracked_values _ _ _ Hd).
  - split; [done|]. intros ids proj Hin.
    destruct Hreq as [[qids Hq]|[Hq _]]; rewrite Hq in Hin; [|done].
    apply elem_of_app in Hin as [Hin|Hin]; [done|].
    apply list_elem_of_singleton in Hin. discriminate.
Qed.

(** C4 as stated fails on a job without an id: its status after the ledger
    pass and the procedure query is INCOMPLETE, and the service query asks
    for no job at all. *)
Lemma service_query_skips_incomplete_job_without_id :
  let self := sample_monitor honest_client in
  let w := sample_world [sample_job "ethane_a" "INCOMPLETE" JNull] None in
  get_update_prefix self w
  = (Ok [], {| td_jobs := [sample_job "ethane_a" "INCOMPLETE" JNull];
               files := ∅; dirs := ∅;
               stdout := [Line "Updating status for 0 jobs by their ids"];
               requests := [ReqProcedures []] |}) /\
  dict_get "status" (sample_job "ethane_a" "INCOMPLETE" JNull)
  = Some (JStr "INCOMPLETE") /\
  requests (get_update self w).2 = [ReqProcedures []; ReqServices [] td_projection].
Proof. vm_compute. done. Qed.

(** ** The ledger takes precedence *)

Section Precedence.

Context {float : Type}.
Variable jobs : list job.
Variable d : id_dict.
Hypothesis Hd : build_d_id_jobs 0 jobs [] = Ok d.

(** The job at [i] is tracked, and [k] is its id. *)
Variables (i : nat) (j : job) (k : json).
Hypothesis Hj : jobs !! i = Some j.
Hypothesis Hk : dict_get "id" j = Some k.
Hypothesis Htracked : tracked jobs i.

Lemma tracked_key_finds (kk : json) : key_eqb kk k = true -> id_dict_get kk d = Some i.
Proof.
  intros E. apply (d_id_jobs_get jobs d kk i Hd). by eapply tracked_find.
Qed.

Lemma tracked_key_found (kk : json) : id_dict_get kk d = Some i -> key_eqb kk k = true.
Proof.
  intros H. apply (d_id_jobs_get jobs d kk i Hd) in H.
  apply find_tracked_tracked in H as [_ (j' & v' & Hj' & Hv' & E)].
  rewrite Hj in Hj'. injection Hj' as <-. rewrite Hk in Hv'. by injection Hv' as <-.
Qed.

(** A job that a list of line 87 or 94 leaves out because of its status is
    not in that list under another job's name either: no id of the list
    equals [k]. *)
Lemma ids_where_leaves_out (pred : json -> bool) (w w1 : world) (st : json)
    (ids : list json) :
  td_jobs w = jobs -> grows w w1 ->
  dict_get "status" (td_jobs w1 !!! i) = Some st -> pred st = false ->
  ids_where pred (id_dict_values d) (td_jobs w1) = Ok ids ->
  forall q, q ∈ ids -> key_eqb q k = false.
Proof.
  intros Hw [_ Hg] Hst Hpred Hids q Hq.
  apply (ids_where_elem _ _ _ ids Hids) in Hq as (p & st' & Hp & Hst' & Hpred' & Hv).
  destruct (key_eqb q k) eqn:E; [exfalso|done].
  apply (tracked_values _ _ _ Hd) in Hp.
  pose proof Hp as (j' & v' & Hj' & Hv' & _).
  destruct (Hg p) as [Hid _]. rewrite Hw in Hid.
  rewrite Hv, (list_lookup_total_correct _ _ _ Hj'), Hv' in Hid. injection Hid as ->.
  assert (find_tracked k jobs = Some p) as H1.
  { eapply tracked_find; [done..|]. by rewrite key_eqb_sym. }
  assert (find_tracked k jobs = Some i) as H2.
  { eapply tracked_find; [done..|]. apply key_eqb_refl.
    destruct Htracked as (j0 & v0 & Hj0 & Hv0 & _ & Hh & _). congruence. }
  rewrite H1 in H2. injection H2 as ->. congruence.
Qed.

(** A ledger entry whose id equals [k] marks the job at [i]. *)
Lemma ledger_entry_marks (e kid p : json) (w : world) (ja : job) :
  subscript e "id" = Ok kid -> key_eqb kid k = true ->
  subscript e "progress" = Ok p -> td_jobs w !! i = Some ja ->
  exists w', ledger_entry d e w = (Ok tt, w') /\
             td_jobs w' !! i
             = Some (dict_set "progress" p (dict_set "status" (JStr "DOWNLOADED") ja)).
Proof.
  intros Hid E Hp Hja. unfold ledger_entry, bind, lift, job_set. rewrite Hid.
  rewrite (key_eqb_hashable_l _ _ E), (tracked_key_finds kid E), Hp. simpl.
  eexists. split; [done|]. simpl.
  rewrite !list_lookup_alter_eq, Hja. done.
Qed.

(** An entry or a record under another id leaves the job at [i] alone. *)
Lemma ledger_entry_other (e : json) :
  (forall kid, subscript e "id" = Ok kid -> key_eqb kid k = false) ->
  keeps (same_at i) (ledger_entry d e).
Proof.
  intros H. keeps_by ledger_entry_keeps. intros kid p ? ? Hkid Hp _.
  apply job_set_same_at. intros ->.
  specialize (H kid Hkid). by rewrite (tracked_key_found kid Hp) in H.
Qed.

Lemma procedure_record_other (r : @TDRecord float) :
  key_eqb (rec_id r) k = false -> keeps (same_at i) (procedure_record d r).
Proof.
  intros H. keeps_by procedure_record_keeps. intros p ? ? Hp _.
  apply job_set_same_at. intros ->. by rewrite (tracked_key_found _ Hp) in H.
Qed.

Lemma service_record_other (rd : json) :
  (forall pid, subscript rd "procedure_id" = Ok pid -> key_eqb pid k = false) ->
  keeps (same_at i) (service_record d rd).
Proof.
  intros H. keeps_by service_record_keeps; [apply print_same_at|].
  intros pid p ? ? Hpid Hp _. apply job_set_same_at. intros ->.
  specialize (H pid Hpid). by rewrite (tracked_key_found pid Hp) in H.
Qed.

End Precedence.

Section PrecedencePasses.

Context {float : Type}.
Variable self : @TorsionMonitor float.
Variable jobs : list job.
Variable d : id_dict.
Hypothesis Hd : build_d_id_jobs 0 jobs [] = Ok d.
Variables (i : nat) (j : job) (k : json).
Hypothesis Hj : jobs !! i = Some j.
Hypothesis Hk : dict_get "id" j = Some k.
Hypothesis Htracked : tracked jobs i.

Lemma ledger_entries_grow (entries : list json) :
  keeps grows (for_each entries (ledger_entry d)).
Proof.
  keeps_by keeps_for_each. intros e _. keeps_by ledger_entry_keeps.
  intros ? p ? ? _ _ Hne. by apply job_set_grows.
Qed.

(** The ledger pass: the last entry under the id [k] decides. *)
Lemma ledger_pass_marks (w0 w1 : world) (before after : list json) (e kid p : json) :
  td_jobs w0 = jobs ->
  files w0 !! downloaded_json_fn self = Some (JsonFile (JList (before ++ e :: after))) ->
  subscript e "id" = Ok kid -> key_eqb kid k = true ->
  subscript e "progress" = Ok p ->
  (forall e' kid', e' ∈ after -> subscript e' "id" = Ok kid' -> key_eqb kid' k = false) ->
  ledger_pass self d w0 = (Ok tt, w1) ->
  exists j1, td_jobs w1 !! i = Some j1 /\
             dict_get "status" j1 = Some (JStr "DOWNLOADED") /\
             dict_get "progress" j1 = Some p.
Proof.
  intros Hw0 Hfile Hid E Hp Hafter H.
  unfold ledger_pass, bind, path_exists, json_load, lift in H.
  rewrite Hfile in H. rewrite bool_decide_eq_true_2 in H by eauto. simpl in H.
  rewrite ?Hfile in H. simpl in H.
  rewrite for_each_app in H.
  pose proof (ledger_entries_grow before w0) as Hg.
  destruct (for_each before (ledger_entry d) w0) as [[[]|e0] wa]; [|done].
  simpl in Hg. pose proof Hj as Hj0. rewrite <- Hw0 in Hj0.
  destruct (grows_lookup w0 wa i j Hg Hj0) as (ja & Hja & _).
  destruct (ledger_entry_marks jobs d Hd i j k Hj Hk Htracked e kid p wa ja Hid E Hp Hja)
    as (wb & Hwb & Hjb).
  simpl in H. unfold bind in H. rewrite Hwb in H.
  assert (keeps (same_at i) (for_each after (ledger_entry d))) as Hsame.
  { keeps_by keeps_for_each. intros e' He'.
    apply (ledger_entry_other jobs d Hd i j k Hj Hk). intros kid'. by apply Hafter. }
  specialize (Hsame wb). rewrite H in Hsame. unfold same_at in Hsame. simpl in Hsame.
  eexists. split; [by rewrite Hsame|]. split.
  - rewrite dict_get_set_ne by done. apply dict_get_set_eq.
  - apply dict_get_set_eq.
Qed.

(** The procedure pass leaves a job marked DOWNLOADED alone, when the client
    returns a record under the job's id only if it was asked for that id. *)
Lemma procedure_pass_leaves (w w1 w2 : world) :
  td_jobs w = jobs -> grows w w1 ->
  dict_get "status" (td_jobs w1 !!! i) = Some (JStr "DOWNLOADED") ->
  (forall ids recs r, query_procedures (client self) ids = Ok recs -> r ∈ recs ->
                      key_eqb (rec_id r) k = true ->
                      exists q, q ∈ ids /\ key_eqb q k = true) ->
  procedure_pass self d w1 = (Ok tt, w2) ->
  td_jobs w2 !! i = td_jobs w1 !! i.
Proof.
  intros Hw Hg Hst Hclient H. unfold procedure_pass in H.
  apply bind_Ok in H as (jobs1 & ? & [= <- <-] & H).
  apply bind_Ok in H as (qids & ? & [= Hq <-] & H).
  apply bind_Ok in H as ([] & ws & [= <-] & H).
  apply bind_Ok in H as (recs & ? & [= Hr <-] & H).
  assert (keeps (same_at i) (for_each recs (procedure_record d))) as Hsame.
  { keeps_by keeps_for_each. intros r Hin.
    apply (procedure_record_other jobs d Hd i j k Hj Hk).
    destruct (key_eqb (rec_id r) k) eqn:E; [exfalso|done].
    destruct (Hclient qids recs r Hr Hin E) as (q & Hqin & Eq).
    rewrite (ids_where_leaves_out jobs d Hd i j k Hj Hk Htracked _ w w1 _ qids
               Hw Hg Hst eq_refl Hq q Hqin) in Eq. done. }
  match type of H with for_each _ _ ?w' = _ => specialize (Hsame w') end.
  rewrite H in Hsame. exact Hsame.
Qed.

(** So does the service pass. *)
Lemma service_pass_leaves (w w2 w3 : world) :
  td_jobs w = jobs -> grows w w2 ->
  dict_get "status" (td_jobs w2 !!! i) = Some (JStr "DOWNLOADED") ->
  (forall ids proj recs rd pid,
      query_services (client self) ids proj = Ok recs -> rd ∈ recs ->
      subscript rd "procedure_id" = Ok pid -> key_eqb pid k = true ->
      exists q, q ∈ ids /\ key_eqb q k = true) ->
  service_pass self d w2 = (Ok tt, w3) ->
  td_jobs w3 !! i = td_jobs w2 !! i.
Proof.
  intros Hw Hg Hst Hclient H. unfold service_pass in H.
  apply bind_Ok in H as (jobs2 & ? & [= <- <-] & H).
  apply bind_Ok in H as (ids & ? & [= Hq <-] & H).
  apply bind_Ok in H as (recs & ws & Hr & H).
  assert (td_jobs ws = td_jobs w2 /\
          forall rd pid, rd ∈ recs -> subscript rd "procedure_id" = Ok pid ->
                         key_eqb pid k = false) as [Hws Hrecs].
  { unfold try_except, bind, send, lift in Hr. simpl in Hr.
    destruct (query_services (client self) ids td_projection) as [recs'|e] eqn:Eq.
    - injection Hr as <- <-. split; [done|]. intros rd pid Hin Hpid.
      destruct (key_eqb pid k) eqn:E; [exfalso|done].
      destruct (Hclient ids td_projection recs' rd pid Eq Hin Hpid E) as (q & Hqin & Eq').
      rewrite (ids_where_leaves_out jobs d Hd i j k Hj Hk Htracked _ w w2 _ ids
                 Hw Hg Hst eq_refl Hq q Hqin) in Eq'. done.
    - destruct e; try done. injection Hr as <- <-. split; [done|].
      by intros rd pid ?%elem_of_nil. }
  assert (keeps (same_at i) (for_each recs (service_record d))) as Hsame.
  { keeps_by keeps_for_each. intros rd Hin.
    apply (service_record_other jobs d Hd i j k Hj Hk). intros pid. by apply Hrecs. }
  specialize (Hsame ws). rewrite H in Hsame. unfold same_at in Hsame. simpl in Hsame.
  by rewrite Hsame, Hws.
Qed.

End PrecedencePasses.

(** C1, as amended.  Take a job tracked by id (its [id] is truthy and no
    later job has an equal one) and a ledger that holds an entry under that
    id; let [p] be the progress of the last such entry.  If each remote query
    returns a record under that id only when it was asked for that id, then
    after [get_update] has returned the job's [status] is DOWNLOADED and its
    [progress] is [p], whatever the server holds for the job: the job is in
    neither id list, so it is never asked for. *)
Theorem ledger_takes_precedence {float} (self : @TorsionMonitor float) (w w' : world)
    (i : nat) (j : job) (k : json) (before after : list json) (e kid p : json) :
  td_jobs w !! i = Some j -> dict_get "id" j = Some k -> tracked (td_jobs w) i ->
  files w !! downloaded_json_fn self = Some (JsonFile (JList (before ++ e :: after))) ->
  subscript e "id" = Ok kid -> key_eqb kid k = true -> subscript e "progress" = Ok p ->
  (forall e' kid', e' ∈ after -> subscript e' "id" = Ok kid' -> key_eqb kid' k = false) ->
  (forall ids recs r, query_procedures (client self) ids = Ok recs -> r ∈ recs ->
                      key_eqb (rec_id r) k = true ->
                      exists q, q ∈ ids /\ key_eqb q k = true) ->
  (forall ids proj recs rd pid,
      query_services (client self) ids proj = Ok recs -> rd ∈ recs ->
      subscript rd "procedure_id" = Ok pid -> key_eqb pid k = true ->
      exists q, q ∈ ids /\ key_eqb q k = true) ->
  get_update self w = (Ok tt, w') ->
  exists j', td_jobs w' !! i = Some j' /\
             dict_get "status" j' = Some (JStr "DOWNLOADED") /\
             dict_get "progress" j' = Some p.
Proof.
  intros Hj Hk Htracked Hfile Hid E Hp Hafter Hprocs Hservs Hok.
  rewrite get_update_unfold in Hok.
  destruct (build_d_id_jobs 0 (td_jobs w) []) as [d|] eqn:Hd; [|done].
  apply bind_Ok in Hok as ([] & w0 & [= <-] & Hok).
  apply bind_Ok in Hok as ([] & w1 & Hledger & Hok).
  apply bind_Ok in Hok as ([] & w2 & Hproc & Hserv).
  match type of Hledger with ledger_pass _ _ ?x = _ => set (w0 := x) in * end.
  assert (forall kid p k v, id_dict_get kid d = Some p -> k <> "id" ->
                            keeps grows (job_set p k v)) as Hset.
  { intros ? ? ? ? _ ?. by apply job_set_grows. }
  assert (grows w w1) as Hg1.
  { pose proof (ledger_pass_keeps grows self d Hset w0) as H. by rewrite Hledger in H. }
  assert (grows w w2) as Hg2.
  { etrans; [exact Hg1|].
    pose proof (procedure_pass_keeps grows send_grows self d Hset w1) as H.
    by rewrite Hproc in H. }
  destruct (ledger_pass_marks self (td_jobs w) d Hd i j k Hj Hk Htracked
              w0 w1 before after e kid p eq_refl Hfile Hid E Hp Hafter Hledger)
    as (j1 & Hj1 & Hst & Hpr).
  pose proof (procedure_pass_leaves self (td_jobs w) d Hd i j k Hj Hk Htracked
                w w1 w2 eq_refl Hg1) as H12.
  rewrite (list_lookup_total_correct _ _ _ Hj1) in H12.
  specialize (H12 Hst Hprocs Hproc).
  pose proof (service_pass_leaves self (td_jobs w) d Hd i j k Hj Hk Htracked
                w w2 w' eq_refl Hg2) as H23.
  rewrite Hj1 in H12. rewrite (list_lookup_total_correct _ _ _ H12) in H23.
  specialize (H23 Hst Hservs Hserv). rewrite H12 in H23. eauto.
Qed.

(** On the server, job 7 is running with two steps done; the ledger says it
    was downloaded with 24. *)
Lemma ledger_takes_precedence_witness :
  let self := sample_monitor honest_client in
  let j := sample_job "ethane_a" "COMPLETE" (JStr "7") in
  let w := sample_world [j] (Some (JList [ledger_entry_of (JStr "7") 24])) in
  exists j', td_jobs (get_update self w).2 !! 0%nat = Some j' /\
             dict_get "status" j' = Some (JStr "DOWNLOADED") /\
             dict_get "progress" j' = Some (JInt 24).
Proof.
  intros self j w.
  assert (forall ids : list json, existsb (key_eqb (JStr "7")) ids = true ->
                                  exists q, q ∈ ids /\ key_eqb q (JStr "7") = true) as Hasked.
  { intros ids (q & Hin & Hq)%existsb_exists. exists q.
    split; [by apply list_elem_of_In | by rewrite key_eqb_sym]. }
  apply (ledger_takes_precedence self w (get_update self w).2 0 j (JStr "7")
           [] [] (ledger_entry_of (JStr "7") 24) (JStr "7") (JInt 24)).
  - reflexivity.
  - reflexivity.
  - exists j, (JStr "7"). split_and!; try reflexivity.
    intros q j' v' Hq Hj'. destruct q; [lia | discriminate].
  - reflexivity.
  - reflexivity.
  - reflexivity.
  - reflexivity.
  - intros e' kid' Hin. by apply elem_of_nil in Hin.
  - intros ids recs r Hrecs Hin _. simpl in Hrecs.
    destruct (existsb (key_eqb (JStr "7")) ids) eqn:Easked; [by apply Hasked|].
    injection Hrecs as <-. by apply elem_of_nil in Hin.
  - intros ids proj recs rd pid Hrecs Hin _ _. simpl in Hrecs.
    destruct (existsb (key_eqb (JStr "7")) ids) eqn:Easked; [by apply Hasked|].
    injection Hrecs as <-. by apply elem_of_nil in Hin.
  - vm_compute. reflexivity.
Defined.

(** C1 as stated fails in four ways: a record that the procedure query
    returns under the job's id overwrites the ledger's status and progress; a
    job whose id a later job shares is not the one the ledger marks; with two
    ledger entries under one id the job gets the progress of the last; and a
    job whose id is falsy (here 0) is not looked up at all.  In each run
    [get_update] returns normally. *)
Lemma ledger_precedence_as_stated_fails :
  let a := sample_job "ethane_a" "COMPLETE" in
  let after (c : @FractalClient Z) jobs ledger :=
    get_update (sample_monitor c) (sample_world jobs (Some (JList ledger))) in
  after unfiltered_client [a (JStr "7")] [ledger_entry_of (JStr "7") 24]
  = (Ok tt,
     {| td_jobs := [[("status", JStr "ERROR"); ("name", JStr "ethane_a");
                     ("mol_name", JStr "ethane"); ("id", JStr "7");
                     ("progress", JInt 3)]];
        files := {[ "/td_results/downloaded.json"
                    := JsonFile (JList [ledger_entry_of (JStr "7") 24]) ]};
        dirs := ∅;
        stdout := [Line "Updating status for 1 jobs by their ids"];
        requests := [ReqProcedures []; ReqServices [] td_projection] |}) /\
  (after honest_client [a (JStr "8"); a (JStr "8")] [ledger_entry_of (JStr "8") 24]).1
  = Ok tt /\
  td_jobs (after honest_client [a (JStr "8"); a (JStr "8")]
             [ledger_entry_of (JStr "8") 24]).2 !! 0%nat
  = Some (a (JStr "8")) /\
  (after honest_client [a (JStr "8")]
     [ledger_entry_of (JStr "8") 3; ledger_entry_of (JStr "8") 24]).1 = Ok tt /\
  dict_get "progress"
    (td_jobs (after honest_client [a (JStr "8")]
                [ledger_entry_of (JStr "8") 3; ledger_entry_of (JStr "8") 24]).2 !!! 0%nat)
  = Some (JInt 24) /\
  (after honest_client [a (JInt 0)] [ledger_entry_of (JInt 0) 24]).1 = Ok tt /\
  td_jobs (after honest_client [a (JInt 0)] [ledger_entry_of (JInt 0) 24]).2
  = [a (JInt 0)].
Proof. vm_compute. done. Qed.

(** ** Result Materializer *)

#[export] Instance same_jobs_preorder : PreOrder same_jobs.
Proof. split; [done|]. intros a b c. unfold same_jobs. congruence. Qed.

Lemma keeps_for_fold (R : relation world) `{!PreOrder R} {A S} (l : list A)
    (body : A -> S -> M S) :
  (forall x s, x ∈ l -> keeps R (body x s)) -> forall s, keeps R (for_fold l s body).
Proof.
  induction l as [|x l IH]; intros H s; simpl.
  - keeps_by keeps_ret.
  - keeps_by keeps_bind; [apply H; left|]. intros s'. apply IH.
    intros y s'' Hy. apply H. by right.
Qed.

Lemma print_same_jobs o : keeps same_jobs (print o).
Proof. done. Qed.


Lemma file_write_same_jobs p s : keeps same_jobs (file_write p s).
Proof. done. Qed.

Lemma mkdir_same_jobs p : keeps same_jobs (mkdir p).
Proof. done. Qed.

Lemma elem_of_insert_sorted (x y : grid_id) (l : list grid_id) :
  y ∈ insert_sorted x l <-> y = x \/ y ∈ l.
Proof.
  induction l as [|z l IH]; simpl.
  - rewrite list_elem_of_singleton, elem_of_nil. tauto.
  - destruct (tuple_ltb z x); rewrite !elem_of_cons, ?IH; tauto.
Qed.

Lemma elem_of_sorted (y : grid_id) (l : list grid_id) : y ∈ sorted l <-> y ∈ l.
Proof.
  unfold sorted. induction l as [|x l IH]; simpl; [done|].
  rewrite elem_of_insert_sorted, elem_of_cons, IH. done.
Qed.

Lemma grid_get_is_Some {A} (g : grid_id) (d : list (grid_id * A)) :
  g ∈ map fst d -> is_Some (grid_get g d).
Proof.
  induction d as [|[g' a] d IH]; simpl; [by intros ?%elem_of_nil|].
  intros [->|Hin]%elem_of_cons.
  - rewrite bool_decide_eq_true_2 by done. eauto.
  - destruct (bool_decide (g = g')); eauto.
Qed.

Section MaterializerFacts.

Context {float : Type}.
Variable num : @Numerics float.


(** The plot is drawn when every grid point has an angle. *)
Lemma plot_1d_energies_Ok (energy_dict : list (grid_id * float))
    (filename title : string) (w : world) :
  (forall g, g ∈ map fst energy_dict -> g <> []) ->
  exists w', plot_1d_energies num energy_dict filename title w = (Ok tt, w').
Proof.
  intros Hg. unfold plot_1d_energies. destruct energy_dict as [|ge rest] eqn:E.
  { eexists. reflexivity. }
  rewrite <- E in *. clear E.
  assert (forall ids, (forall g, g ∈ ids -> g ∈ map fst energy_dict) ->
            exists xs ys, omap (fun gid => index gid 0) ids = Ok xs /\
                          omap (grid_subscript energy_dict) ids = Ok ys) as H.
  { induction ids as [|g ids IH]; intros Hids; simpl; [eauto|].
    destruct IH as (xs & ys & -> & ->); [intros g' Hg'; apply Hids; by right|].
    assert (g ∈ map fst energy_dict) as Hin by (apply Hids; left).
    destruct (grid_get_is_Some g energy_dict Hin) as [y Hy].
    unfold grid_subscript at 1. rewrite Hy.
    destruct g as [|a g]; [by destruct (Hg [] Hin)|]. simpl. eauto. }
  destruct (H (sorted (map fst energy_dict))) as (xs & ys & Hxs & Hys).
  { intros g. by rewrite elem_of_sorted. }
  unfold bind, lift. rewrite Hxs, Hys. eexists. reflexivity.
Qed.

End MaterializerFacts.

Section MaterializerLoops.

Context {float : Type}.
Variable num : @Numerics float.
Variable name : string.
Variable final_molecules : list (grid_id * @Molecule float).
Variable final_energy_dict : list (grid_id * float).
Variable final_result_records : list (grid_id * @ResultRecord float).





End MaterializerLoops.






(** The title line of a gradient block carries the energy it is given. *)
Lemma gradxyz_block_title {float} (num : @Numerics float) (name : string)
    (final_molecules : list (grid_id * @Molecule float))
    (final_result_records : list (grid_id * @ResultRecord float))
    (energy : float) (g : grid_id) (b : string) :
  gradxyz_block num name final_molecules final_result_records (Some energy) g = Ok b ->
  exists (atoms : nat) atom_lines,
    b = join nl ([pretty atoms;
                  "Gradients for " +:+ name +:+ " " +:+ str_tuple g
                  +:+ " energy = " +:+ fmt_15_7f num energy] ++ atom_lines)%list +:+ nl.
Proof.
  unfold gradxyz_block, grid_subscript, obind.
  destruct (grid_get g final_result_records) as [r|]; [|done].
  destruct (String.eqb (driver r) "gradient"); [|done].
  destruct (reshape3 (return_result r)) as [rows|]; [|done].
  destruct (grid_get g final_molecules) as [m|]; [|done].
  intros [= <-]. by eexists (length rows), _.
Qed.





(** [download_complete] is its start followed by the loop over the records
    and the writing of the ledger. *)
Lemma download_complete_split {float} (num : @Numerics float)
    (self : @TorsionMonitor float) (w : world) :
  download_complete num self w =
  match download_complete_start self w with
  | (Ok (d, records), w0) =>
      (_ <- for_fold (enumerate 1 records) None (download_record num self d (length d)) ;;
       open_w (downloaded_json_fn self) ;;;
       jobs <- get_jobs ;;
       downloaded_jobs <- lift (jobs_with_status "DOWNLOADED" jobs) ;;
       write_file (downloaded_json_fn self) (JsonFile (JList (map JObj downloaded_jobs)))) w0
  | (Raise e, w0) => (Raise e, w0)
  end.
Proof.
  unfold download_complete, download_complete_start, bind, get_jobs, lift, ret. simpl.
  destruct (bool_decide _ || bool_decide _); simpl;
    destruct (build_d_complete 0 (td_jobs w) []) as [d|e]; simpl; try done;
    destruct (query_procedures (client self) (map fst d)) as [records|e]; done.
Qed.




(** C3 fails on the energy of the title line.  The scan of job 7 has energy
    10 at -165 degrees and 20 at 15 degrees.  [download_complete] returns
    normally; the coordinate file carries each grid point's own energy, and
    in the gradient file both title lines carry 20, the energy of the last
    grid point: line 190 reads the variable [energy] that the coordinate loop
    left behind. *)
Theorem gradient_titles_carry_the_last_energy :
  let record := sample_scan (sample_result "gradient") (sample_result "gradient") in
  let run := download_complete sample_numerics (sample_monitor (scan_client record))
               (sample_world [sample_job "ethane_a" "COMPLETE" (JStr "7")] None) in
  run.1 = Ok tt /\
  lines_of_file (files run.2 !! "/td_results/ethane/ethane_a.xyz")
  = Some ["2"; "ethane_a (-165,) energy =             10f";
          "C                  0f            0f            0f";
          "H                  0f            0f            2f";
          "2"; "ethane_a (15,) energy =             20f";
          "C                  0f            0f            0f";
          "H                  0f            0f            2f"] /\
  lines_of_file (files run.2 !! "/td_results/ethane/ethane_a.gradxyz")
  = Some ["2"; "Gradients for ethane_a (-165,) energy =             20f";
          "C                  1e            2e            3e";
          "H                  4e            5e            6e";
          "2"; "Gradients for ethane_a (15,) energy =             20f";
          "C                  1e            2e            3e";
          "H                  4e            5e            6e"].
Proof. vm_compute. done. Qed.

(** ** Records of unknown jobs *)

(** A record of the procedure query under an id that [d_id_jobs] does not
    hold raises [KeyError] at line 89. *)
Lemma procedure_record_unknown_id {float} (d : id_dict) (r : @TDRecord float) (w : world) :
  hashable (rec_id r) = true -> id_dict_get (rec_id r) d = None ->
  procedure_record d r w = (Raise (KeyError (rec_id r)), w).
Proof.
  intros Hh Hnone. unfold procedure_record, bind, lift, id_dict_subscript.
  by rewrite Hh, Hnone.
Qed.

(** A record of the service query under such an id is printed, and the loop
    goes on. *)
Lemma service_record_unknown_id (d : id_dict) (rd pid : json) (w : world) :
  subscript rd "procedure_id" = Ok pid -> id_dict_get pid d = None ->
  service_record d rd w = print (Repr rd) w.
Proof.
  intros Hpid Hnone. unfold service_record, try_except, bind, lift, id_dict_subscript.
  rewrite Hpid, Hnone. by destruct (hashable pid).
Qed.

(** C5 fails for the procedure query.  The server answers with a record of
    the unknown job 999 and then with the record of job 8.  In the procedure
    answer the unknown record raises [KeyError]: [get_update] is left, job 8
    is not updated and no service query is sent.  In the service answer the
    same record is printed and skipped, and job 8 is updated. *)
Theorem unknown_record_in_procedure_answer_raises :
  let jobs := [sample_job "ethane_b" "submitted" (JStr "8")] in
  get_update (sample_monitor stray_procedure_client) (sample_world jobs None)
  = (Raise (KeyError (JStr "999")),
     {| td_jobs := jobs; files := ∅; dirs := ∅;
        stdout := [Line "Updating status for 1 jobs by their ids"];
        requests := [ReqProcedures [JStr "8"]] |}) /\
  get_update (sample_monitor stray_service_client) (sample_world jobs None)
  = (Ok tt,
     {| td_jobs := [[("status", JStr "RUNNING"); ("name", JStr "ethane_b");
                     ("mol_name", JStr "ethane"); ("id", JStr "8");
                     ("progress", JInt 2)]];
        files := ∅; dirs := ∅;
        stdout := [Line "Updating status for 1 jobs by their ids";
                   Repr (service_answer "999")];
        requests := [ReqProcedures [JStr "8"];
                     ReqServices [JStr "8"] td_projection] |}).
Proof. vm_compute. done. Qed.

(** ** plot_1d_energies *)

(** C8.  Called with an empty energy dictionary, [plot_1d_energies] prints
    the skip message and returns normally; no file is written, and nothing
    else changes. *)
Theorem plot_1d_energies_empty {float} (num : @Numerics float)
    (filename title : string) (w : world) :
  plot_1d_energies num [] filename title w
  = (Ok tt, {| td_jobs := td_jobs w; files := files w; dirs := dirs w;
               stdout := stdout w ++ [Line "Empty energy dict, skip plotting"];
               requests := requests w |}).
Proof. reflexivity. Qed.

(** With grid points, the plot file is written. *)
Lemma plot_1d_energies_writes {float} (num : @Numerics float)
    (energy_dict : list (grid_id * float)) (filename title : string) (w : world) :
  energy_dict <> [] -> (forall g, g ∈ map fst energy_dict -> g <> []) ->
  exists w' content, plot_1d_energies num energy_dict filename title w = (Ok tt, w') /\
                     files w' !! filename = Some (RawFile content).
Proof.
  intros Hne Hg. destruct (plot_1d_energies_Ok num energy_dict filename title w Hg)
    as [w' Hw'].
  exists w'. unfold plot_1d_energies in *. destruct energy_dict as [|ge rest]; [done|].
  unfold bind, lift in *.
  destruct (omap _ _) as [xs|]; [|done]. destruct (omap _ _) as [ys|]; [|done].
  injection Hw' as <-. eexists. split; [done|]. simpl. apply lookup_insert_eq.
Qed.

(** The energies of the scan of job 7. *)
Lemma plot_1d_energies_writes_witness :
  exists w' content,
    plot_1d_energies sample_numerics [([15], 20); ([-165], 10)]
      "/td_results/ethane/ethane_a.pdf" "ethane_a" (sample_world [] None) = (Ok tt, w') /\
    files w' !! "/td_results/ethane/ethane_a.pdf" = Some (RawFile content).
Proof.
  apply (plot_1d_energies_writes sample_numerics [([15], 20); ([-165], 10)]
           "/td_results/ethane/ethane_a.pdf" "ethane_a" (sample_world [] None)).
  - discriminate.
  - intros g Hg. simpl in Hg.
    apply elem_of_cons in Hg as [->|Hg]; [done|].
    apply list_elem_of_singleton in Hg as ->. done.
Defined.

(** ** print_progress *)

Lemma for_each_Ok {A} (l : list A) (body : A -> M unit) :
  (forall x w, x ∈ l -> exists w', body x w = (Ok tt, w')) ->
  forall w, exists w', for_each l body w = (Ok tt, w').
Proof.
  induction l as [|x l IH]; intros H w; simpl; [by eexists|].
  destruct (H x w) as [w1 Hw1]; [left|].
  erewrite bind_run; [|exact Hw1]. apply IH. intros y w2 Hy. apply H. by right.
Qed.









(** ** Checkpoint Loader *)

Lemma dict_get_NoDup (o : dict) (k : string) (v : json) :
  NoDup (map fst o) -> (k, v) ∈ o -> dict_get k o = Some v.
Proof.
  induction o as [|[k0 v0] o IH]; simpl; [by intros _ ?%elem_of_nil|].
  intros [Hk0 Hnd]%NoDup_cons [[= -> ->]|Hin]%elem_of_cons.
  - by rewrite String.eqb_refl.
  - destruct (String.eqb k k0) eqn:E; [|by apply IH].
    apply String.eqb_eq in E as ->. destruct Hk0.
    apply list_elem_of_fmap. by exists (k0, v).
Qed.

Lemma omap_Forall2 {A A' B} (h : A -> A') (f : A' -> outcome B) (P : A -> B -> Prop)
    (l : list A) :
  (forall a, a ∈ l -> exists b, f (h a) = Ok b /\ P a b) ->
  exists bs, omap f (map h l) = Ok bs /\ Forall2 P l bs.
Proof.
  induction l as [|x l IH]; intros H; simpl; [by exists []|].
  destruct (H x) as (b & -> & Hb); [left|].
  destruct IH as (bs & -> & Hbs); [intros y Hy; apply H; by right|].
  exists (b :: bs). split; [done | by constructor].
Qed.

Lemma make_job_loaded (mol_name : string) (ds : dict) (d : string) (e : json) :
  NoDup (map fst ds) -> (d, e) ∈ ds -> wf_dihedral e = true ->
  exists j, make_job mol_name (JObj ds) (JStr d) = Ok j /\ loaded_as mol_name d j.
Proof.
  intros Hnd Hin Hwf. unfold make_job. simpl.
  rewrite (dict_get_NoDup ds d e Hnd Hin). simpl.
  destruct e as [| | | | |fields]; try done. simpl in Hwf. simpl.
  destruct (dict_get "status" fields) as [[| | |s| |]|] eqn:Hst; try done. simpl.
  eexists. split; [done|]. unfold loaded_as, dict_update. simpl. split.
  - rewrite !dict_get_set_ne by done. apply dict_get_set_eq.
  - exists s. rewrite dict_get_set_ne by done. apply dict_get_set_eq.
Qed.

Lemma jobs_of_key_loaded (o : dict) (k : string) (v : json) :
  NoDup (map fst o) -> (k, v) ∈ o ->
  String.eqb k "scan_conf" || wf_molecule v = true ->
  exists jobs, jobs_of_key (JObj o) (JStr k) = Ok jobs /\ entry_loaded_as (k, v) jobs.
Proof.
  intros Hnd Hin Hwf. unfold jobs_of_key, entry_loaded_as. simpl.
  destruct (decide (k = "scan_conf")) as [->|Hk]; [by exists []|].
  apply String.eqb_neq in Hk. rewrite Hk in *. simpl in Hwf.
  rewrite (dict_get_NoDup o k v Hnd Hin). simpl.
  unfold wf_molecule, dihedral_keys in *.
  destruct (subscript v "dihedrals") as [[| | | | |ds]|]; try done. simpl.
  apply andb_prop in Hwf as [Hnd'%bool_decide_eq_true Hall].
  rewrite forallb_forall in Hall.
  destruct (omap_Forall2 (fun kv => JStr (fst kv))
              (make_job (splitext_root (basename k)) (JObj ds))
              (fun de j => loaded_as (mol_name_of k) (fst de) j) ds)
    as (jobs & -> & Hjobs).
  { intros [d e] Hde. simpl. apply (make_job_loaded _ ds d e); [done..|].
    apply (Hall (d, e)). by apply list_elem_of_In. }
  exists jobs. split; [done|]. by apply Forall2_fmap_l.
Qed.

Lemma Forall2_loaded_names (mol_name : string) (ds : list string) (jobs : list job) :
  Forall2 (loaded_as mol_name) ds jobs ->
  map (dict_get "name") jobs = map (fun d => Some (JStr (mol_name +:+ "_" +:+ d))) ds /\
  Forall (fun j => exists s, dict_get "status" j = Some (JStr s)) jobs.
Proof.
  induction 1 as [|d j ds jobs [Hn Hs] _ [IH1 IH2]]; simpl; [done|].
  rewrite Hn, IH1. split; [done | by constructor].
Qed.

Lemma entries_loaded_concat (o : dict) (per_key : list (list job)) :
  Forall2 entry_loaded_as o per_key ->
  length (concat per_key)
  = sum_list (map (fun kv => length (dihedral_keys (snd kv)))
                  (filter (fun kv => fst kv <> "scan_conf") o)) /\
  map (dict_get "name") (concat per_key)
  = map (fun n => Some (JStr n))
        (flat_map (fun kv => map (fun d => mol_name_of (fst kv) +:+ "_" +:+ d)
                                 (dihedral_keys (snd kv)))
                  (filter (fun kv => fst kv <> "scan_conf") o)) /\
  Forall (fun j => exists s, dict_get "status" j = Some (JStr s)) (concat per_key).
Proof.
  induction 1 as [|kv jobs o per_key Hkv _ (IH1 & IH2 & IH3)]; simpl; [done|].
  unfold entry_loaded_as in Hkv. rewrite filter_cons.
  destruct (decide (fst kv = "scan_conf")) as [E|E].
  - subst jobs. rewrite decide_False by (intros H; by apply H). done.
  - rewrite decide_True by done. simpl.
    destruct (Forall2_loaded_names _ _ _ Hkv) as [Hn Hs].
    rewrite length_app, map_app, map_app, (Forall2_length _ _ _ Hkv), IH1, IH2, Hn.
    split_and!; [done| |by apply Forall_app].
    f_equal. by rewrite map_map.
Qed.

(** The jobs of a well-formed checkpoint. *)
Lemma checkpoint_jobs_loaded (state : json) :
  wf_checkpoint state = true ->
  exists jobs, checkpoint_jobs state = Ok jobs /\
               length jobs = dihedral_count state /\
               map (dict_get "name") jobs
               = map (fun n => Some (JStr n)) (job_names state) /\
               Forall (fun j => exists s, dict_get "status" j = Some (JStr s)) jobs.
Proof.
  destruct state as [| | | | |o]; try done. simpl.
  intros [Hnd%bool_decide_eq_true Hall]%andb_prop. rewrite forallb_forall in Hall.
  unfold checkpoint_jobs, dihedral_count, job_names, molecule_entries. simpl.
  destruct (omap_Forall2 (fun kv => JStr (fst kv)) (jobs_of_key (JObj o))
              entry_loaded_as o) as (per_key & -> & Hper).
  { intros [k v] Hkv. simpl. apply jobs_of_key_loaded; [done..|].
    apply (Hall (k, v)). by apply list_elem_of_In. }
  simpl. eexists. split; [done|]. by apply entries_loaded_concat.
Qed.

Lemma counter_add_keys (P : json -> Prop) (k : json) (c : list (json * Z)) :
  P k -> Forall (fun kn => P (fst kn)) c -> Forall (fun kn => P (fst kn)) (counter_add k c).
Proof.
  intros Hk. induction 1 as [|[k0 n0] c H0 Hc IH]; simpl.
  - constructor; [exact Hk | constructor].
  - destruct (key_eqb k k0); constructor; simpl in *; auto.
Qed.

Lemma Counter_strings (l : list json) :
  Forall (fun v => exists s, v = JStr s) l ->
  exists c, Counter l = Ok c /\ Forall (fun kn => exists s, fst kn = JStr s) c.
Proof.
  unfold Counter. generalize (@nil (json * Z)) (Forall_nil_2 (fun kn : json * Z =>
                                                  exists s, fst kn = JStr s)).
  induction l as [|v l IH]; intros c0 Hc0 Hl; simpl; [eauto|].
  apply Forall_cons in Hl as [[s ->] Hl]. simpl. apply IH; [|done].
  apply (counter_add_keys (fun v => exists s, v = JStr s)); eauto.
Qed.

Lemma print_status_same_jobs : keeps same_jobs print_status.
Proof.
  unfold print_status.
  keeps_by keeps_bind; [apply print_same_jobs|]. intros _.
  keeps_by keeps_bind; [apply print_same_jobs|]. intros _.
  keeps_by keeps_bind; [keeps_by keeps_get_jobs|]. intros jobs.
  keeps_by keeps_bind_lift. intros statuses _.
  keeps_by keeps_bind_lift. intros counts _.
  keeps_by keeps_bind; [|intros _; apply print_same_jobs].
  keeps_by keeps_for_each. intros [k cnt] _. destruct k; simpl;
    first [apply print_same_jobs | keeps_by keeps_raise].
Qed.

(** [print_status] prints when every status is a string. *)
Lemma print_status_Ok (w : world) :
  Forall (fun j => exists s, dict_get "status" j = Some (JStr s)) (td_jobs w) ->
  exists w', print_status w = (Ok tt, w').
Proof.
  intros Hst. unfold print_status.
  erewrite bind_run; [|reflexivity]. erewrite bind_run; [|reflexivity].
  erewrite bind_run; [|reflexivity]. simpl.
  destruct (omap_Forall2 (fun j => j) (fun j => job_get j "status")
              (fun _ v => exists s, v = JStr s) (td_jobs w)) as (statuses & Hs & Hall).
  { intros j Hj. rewrite Forall_forall in Hst. destruct (Hst j Hj) as [s Hs].
    unfold job_get. rewrite Hs. eauto. }
  rewrite map_id in Hs.
  erewrite bind_run; [|unfold lift; rewrite Hs; reflexivity].
  destruct (Counter_strings statuses) as (counts & Hc & Hkeys).
  { clear - Hall. remember (td_jobs w) as l eqn:E. clear E.
    induction Hall; constructor; done. }
  erewrite bind_run; [|unfold lift; rewrite Hc; reflexivity].
  match goal with
  | |- context [bind (for_each counts ?body) _ ?w0] =>
      destruct (for_each_Ok counts body) with (w := w0) as [w1 Hw1]
  end.
  { intros [k n] w1 Hin. rewrite Forall_forall in Hkeys.
    destruct (Hkeys (k, n) Hin) as [s Hk]. simpl in Hk. subst k. simpl. by eexists. }
  erewrite bind_run; [|exact Hw1]. by eexists.
Qed.

(** C7, as amended.  For a well-formed checkpoint file, [load_checkpoint]
    returns normally and leaves in [self.td_jobs] one job per dihedral entry
    of the molecule entries (the top-level entries other than "scan_conf"),
    named, in the order of the file, by the molecule name, an underscore and
    the dihedral key; the molecule name is the top-level key without its
    directories and its extension. *)
Theorem load_checkpoint_jobs (filename : string) (verbose : bool) (w : world)
    (state : json) :
  files w !! filename = Some (JsonFile state) ->
  wf_checkpoint state = true ->
  exists w', load_checkpoint filename verbose w = (Ok tt, w') /\
             length (td_jobs w') = dihedral_count state /\
             map (dict_get "name") (td_jobs w')
             = map (fun n => Some (JStr n)) (job_names state).
Proof.
  intros Hfile Hwf.
  destruct (checkpoint_jobs_loaded state Hwf) as (jobs & Hjobs & Hlen & Hnames & Hst).
  unfold load_checkpoint.
  erewrite bind_run; [|unfold json_load; rewrite Hfile; reflexivity].
  erewrite bind_run; [|unfold lift; rewrite Hjobs; reflexivity].
  erewrite bind_run; [|reflexivity].
  destruct verbose; [|by eexists].
  erewrite bind_run; [|reflexivity].
  match goal with
  | |- context [print_status ?w0] =>
      destruct (print_status_Ok w0 Hst) as [w' Hw'];
      pose proof (print_status_same_jobs w0) as Hsame
  end.
  rewrite Hw' in Hsame. unfold same_jobs in Hsame. simpl in Hsame.
  exists w'. rewrite Hsame. done.
Qed.

Lemma load_checkpoint_jobs_witness :
  let w := {| td_jobs := [];
              files := {[ "torsion_submit_checkpoint.json" := JsonFile sample_checkpoint ]};
              dirs := ∅; stdout := []; requests := [] |} in
  exists w', load_checkpoint "torsion_submit_checkpoint.json" true w = (Ok tt, w') /\
             length (td_jobs w') = 3%nat /\
             map (dict_get "name") (td_jobs w')
             = [Some (JStr "ethane_0-1-2-3"); Some (JStr "ethane_1-2-3-4");
                Some (JStr "propane_4-5-6-7")].
Proof.
  intros w.
  exact (load_checkpoint_jobs "torsion_submit_checkpoint.json" true w sample_checkpoint
           eq_refl eq_refl).
Defined.

(** C7 as stated fails on the name: for the molecule ethane and the dihedral
    0-1-2-3 the job is named ethane_0-1-2-3, which is not the molecule name
    followed by the dihedral key. *)
Lemma job_name_has_an_underscore :
  let state := JObj [("ethane.sdf",
                      JObj [("dihedrals",
                             JObj [("0-1-2-3", JObj [("status", JStr "COMPLETE")])])])] in
  wf_checkpoint state = true /\
  mol_name_of "ethane.sdf" = "ethane" /\
  checkpoint_jobs state
  = Ok [[("status", JStr "COMPLETE"); ("name", JStr "ethane_0-1-2-3");
         ("mol_name", JStr "ethane"); ("id", JNull)]] /\
  String.eqb "ethane_0-1-2-3" ("ethane" +:+ "0-1-2-3") = false.
Proof. vm_compute. done. Qed.

(** * More of get_update *)

#[export] Instance updates_status_fields_preorder : PreOrder updates_status_fields.
Proof.
  split.
  - intros w. by repeat split.
  - intros a b c (L1 & F1 & D1 & H1) (L2 & F2 & D2 & H2).
    split_and!; [congruence..|]. intros p k Hk. rewrite H2, H1; done.
Qed.

Lemma job_set_updates_status_fields p k v :
  k ∈ status_fields -> keeps updates_status_fields (job_set p k v).
Proof.
  intros Hk w. split_and!; simpl; [apply length_alter|done|done|].
  intros q k' Hk'. rewrite list_lookup_total_alter. case_decide as Hq; [|done].
  destruct Hq as [-> _]. apply dict_get_set_ne. intros ->. done.
Qed.

Lemma print_updates_status_fields o : keeps updates_status_fields (print o).
Proof. intros w. by repeat split. Qed.

Lemma send_updates_status_fields r : keeps updates_status_fields (send r).
Proof. intros w. by repeat split. Qed.

Lemma status_field_status : "status" ∈ status_fields.
Proof. unfold status_fields. set_solver. Qed.
Lemma status_field_progress : "progress" ∈ status_fields.
Proof. unfold status_fields. set_solver. Qed.
Lemma status_field_error : "error" ∈ status_fields.
Proof. unfold status_fields. set_solver. Qed.

Lemma ledger_entry_updates_status_fields (d : list (json * nat)) (e : json) :
  keeps updates_status_fields (ledger_entry d e).
Proof.
  unfold ledger_entry. keeps_by keeps_bind_lift. intros kid _.
  destruct (hashable kid); [|keeps_by keeps_raise].
  destruct (id_dict_get kid d) as [p|]; [|keeps_by keeps_ret].
  keeps_by keeps_bind.
  { apply job_set_updates_status_fields, status_field_status. }
  intros _. keeps_by keeps_bind_lift. intros pr _.
  apply job_set_updates_status_fields, status_field_progress.
Qed.

Lemma procedure_record_updates_status_fields {float} (d : list (json * nat))
    (r : @TDRecord float) :
  keeps updates_status_fields (procedure_record d r).
Proof.
  unfold procedure_record. keeps_by keeps_bind_lift. intros p _.
  keeps_by keeps_bind.
  { apply job_set_updates_status_fields, status_field_status. }
  intros _. apply job_set_updates_status_fields, status_field_progress.
Qed.

Lemma service_record_updates_status_fields (d : list (json * nat)) (rd : json) :
  keeps updates_status_fields (service_record d rd).
Proof.
  unfold service_record.
  keeps_by keeps_try_except; [|intros _; apply print_updates_status_fields].
  keeps_by keeps_bind_lift. intros pid _.
  keeps_by keeps_bind_lift. intros p _.
  keeps_by keeps_bind_lift. intros st _.
  keeps_by keeps_bind.
  { apply job_set_updates_status_fields, status_field_status. }
  intros _. keeps_by keeps_bind_lift. intros h _.
  keeps_by keeps_bind_lift. intros n _.
  keeps_by keeps_bind.
  { apply job_set_updates_status_fields, status_field_progress. }
  intros _. keeps_by keeps_bind; [keeps_by keeps_job_at|]. intros st'.
  destruct (eq_str st' "ERROR"); [|keeps_by keeps_ret].
  keeps_by keeps_bind_lift. intros err _.
  apply job_set_updates_status_fields, status_field_error.
Qed.

(** [get_update] assigns to [status], [progress] and [error] only: it adds
    and drops no job, leaves every other field of every job as it was
    (among them [id], [name] and [mol_name]), and writes no file and makes no
    directory, whether it returns or raises. *)
Theorem get_update_touches_status_fields_only {float} (self : @TorsionMonitor float)
    (w : world) :
  updates_status_fields w (get_update self w).2.
Proof.
  rewrite get_update_unfold.
  destruct (build_d_id_jobs 0 (td_jobs w) []) as [d|e]; [|reflexivity].
  generalize w. change (keeps updates_status_fields
    (print (Line ("Updating status for " +:+ pretty (length d)
                  +:+ " jobs by their ids")) ;;;
     ledger_pass self d ;;; procedure_pass self d ;;; service_pass self d)).
  keeps_by keeps_bind; [apply print_updates_status_fields|]. intros _.
  keeps_by keeps_bind.
  { unfold ledger_pass. keeps_by keeps_bind; [keeps_by keeps_path_exists|].
    intros []; [|keeps_by keeps_ret].
    keeps_by keeps_bind; [keeps_by keeps_json_load|].
    intros v. keeps_by keeps_bind_lift. intros entries _.
    keeps_by keeps_for_each. intros e _. apply ledger_entry_updates_status_fields. }
  intros _. keeps_by keeps_bind.
  { unfold procedure_pass. keeps_by keeps_bind; [keeps_by keeps_get_jobs|].
    intros jobs. keeps_by keeps_bind_lift. intros ids _.
    keeps_by keeps_bind; [apply send_updates_status_fields|].
    intros _. keeps_by keeps_bind_lift. intros records _.
    keeps_by keeps_for_each. intros r _. apply procedure_record_updates_status_fields. }
  intros _. unfold service_pass. keeps_by keeps_bind; [keeps_by keeps_get_jobs|].
  intros jobs. keeps_by keeps_bind_lift. intros ids _.
  keeps_by keeps_bind.
  - keeps_by keeps_try_except.
    + keeps_by keeps_bind; [apply send_updates_status_fields|].
      intros _. keeps_by keeps_lift.
    + intros []; try keeps_by keeps_raise.
      keeps_by keeps_bind; [apply print_updates_status_fields|]. intros _.
      keeps_by keeps_bind; [apply print_updates_status_fields|]. intros _.
      keeps_by keeps_ret.
  - intros records. keeps_by keeps_for_each. intros rd _.
    apply service_record_updates_status_fields.
Qed.

(** ** The service records *)

Lemma service_record_returns (d : list (json * nat)) (rd : json) (w : world) :
  exists w', service_record d rd w = (Ok tt, w').
Proof.
  unfold service_record, try_except.
  match goal with
  | |- context [match ?m w with _ => _ end] => destruct (m w) as [[[]|e] w1]
  end; eauto.
Qed.

Lemma id_dict_get_hashable (d : list (json * nat)) (k : json) (p : nat) :
  id_dict_get k d = Some p -> hashable k = true.
Proof.
  intros (k0 & _ & Hk)%id_dict_get_elem. by eapply key_eqb_hashable_l.
Qed.

(** After the prefix, nothing can make [get_update] raise but an exception
    of the service query that is no [IOError]. *)
Lemma get_update_returns_after_prefix {float}
    (self : @TorsionMonitor float) (w w2 : world) (d : list (json * nat)) :
  get_update_prefix self w = (Ok d, w2) ->
  (forall ids, incomplete_job_ids d (td_jobs w2) = Ok ids ->
               match query_services (client self) ids td_projection with
               | Ok _ => True
               | Raise e => exists msg, e = IOError msg
               end) ->
  exists w', get_update self w = (Ok tt, w').
Proof.
  intros Hpre Hq.
  destruct (get_update_prefix_incomplete_ids self w w2 d Hpre) as [ids Hids].
  specialize (Hq ids Hids).
  rewrite get_update_split, Hpre.
  unfold service_pass. unfold bind at 1, get_jobs.
  erewrite bind_run; [|unfold lift; rewrite Hids; reflexivity].
  unfold bind at 1, try_except, send, lift. unfold bind at 1.
  destruct (query_services (client self) ids td_projection) as [records|e].
  - apply for_each_Ok. intros rd w0 _. apply service_record_returns.
  - destruct Hq as [msg ->]. simpl. eauto.
Qed.

(** Once the service query has answered, [get_update] returns normally
    whatever the records are: the bare [except] of line 111 swallows every
    failure of a record, and an [IOError] of the query is caught at line
    98. *)
Theorem get_update_returns_whatever_the_service_records {float}
    (self : @TorsionMonitor float) (w w2 : world) (d : list (json * nat)) :
  get_update_prefix self w = (Ok d, w2) ->
  (forall ids, incomplete_job_ids d (td_jobs w2) = Ok ids ->
               match query_services (client self) ids td_projection with
               | Ok _ => True
               | Raise e => exists msg, e = IOError msg
               end) ->
  exists w', get_update self w = (Ok tt, w').
Proof. apply get_update_returns_after_prefix. Qed.

(** Three record dicts without an id the monitor knows, without a history and
    without a status, as a service might answer, against the one job 7. *)
Lemma get_update_returns_whatever_the_service_records_witness :
  let c := {| query_procedures := query_procedures honest_client;
              query_services := fun _ _ =>
                Ok [JObj [("procedure_id", JStr "999")]; JNull;
                    JObj [("procedure_id", JStr "7"); ("status", JStr "RUNNING")]] |} in
  let self := sample_monitor c in
  let w := sample_world [sample_job "ethane_a" "submitted" (JStr "7")] None in
  exists w', get_update self w = (Ok tt, w').
Proof.
  intros c self w.
  apply (get_update_returns_whatever_the_service_records self w
           (get_update_prefix self w).2 [(JStr "7", 0%nat)]).
  - reflexivity.
  - intros ids _. exact I.
Defined.

(** A service record of a known job is applied field by field: the new
    [status], then the number of entries of [optimization_history] as
    [progress], then, when the new status is ERROR, the [error] of the
    record.  The [error] of a record with another status is not looked at. *)
Theorem service_record_applied (d : list (json * nat)) (rd pid st h err : json)
    (p : nat) (n : Z) (w : world) :
  subscript rd "procedure_id" = Ok pid ->
  id_dict_get pid d = Some p -> (p < length (td_jobs w))%nat ->
  subscript rd "status" = Ok st ->
  subscript rd "optimization_history" = Ok h -> py_len h = Ok n ->
  (eq_str st "ERROR" = true -> subscript rd "error" = Ok err) ->
  service_record d rd w
  = (Ok tt,
     {| td_jobs :=
          alter (fun j => let j' := dict_set "progress" (JInt n) (dict_set "status" st j) in
                          if eq_str st "ERROR" then dict_set "error" err j' else j')
                p (td_jobs w);
        files := files w; dirs := dirs w; stdout := stdout w;
        requests := requests w |}).
Proof.
  intros Hpid Hp Hlt Hst Hh Hn Herr.
  unfold service_record, try_except, bind, lift, id_dict_subscript, job_set, job_at, ret.
  rewrite Hpid, (id_dict_get_hashable d pid p Hp), Hp, Hst, Hh, Hn. simpl.
  rewrite list_lookup_total_alter. rewrite decide_True by (rewrite length_alter; done).
  rewrite list_lookup_total_alter. rewrite decide_True by done.
  unfold job_get. rewrite dict_get_set_ne by done. rewrite dict_get_set_eq.
  destruct (eq_str st "ERROR") eqn:E.
  - rewrite (Herr eq_refl). simpl. f_equal. f_equal.
    rewrite !list_alter_alter_eq. done.
  - f_equal. f_equal. rewrite !list_alter_alter_eq. done.
Qed.

(** An ERROR record of job 7 with two history entries. *)
Lemma service_record_applied_witness :
  let rd := JObj [("procedure_id", JStr "7"); ("status", JStr "ERROR");
                  ("optimization_history", JObj [("[15]", JList [])]);
                  ("error", JStr "SCF failed")] in
  let j := sample_job "ethane_a" "INCOMPLETE" (JStr "7") in
  service_record [(JStr "7", 0%nat)] rd (sample_world [j] None)
  = (Ok tt,
     {| td_jobs := [dict_set "error" (JStr "SCF failed")
                      (dict_set "progress" (JInt 1) (dict_set "status" (JStr "ERROR") j))];
        files := ∅; dirs := ∅; stdout := []; requests := [] |}).
Proof.
  intros rd j.
  apply (service_record_applied [(JStr "7", 0%nat)] rd (JStr "7") (JStr "ERROR")
           (JObj [("[15]", JList [])]) (JStr "SCF failed") 0 1 (sample_world [j] None)).
  - reflexivity.
  - reflexivity.
  - simpl. lia.
  - reflexivity.
  - reflexivity.
  - reflexivity.
  - reflexivity.
Defined.

(** The [try] of lines 103-112 undoes nothing.  A record of a known job that
    has a [status] but no readable [optimization_history] is printed as a bad
    record, and the job keeps the new [status] with its old [progress]. *)
Theorem service_record_without_history_sets_status (d : list (json * nat))
    (rd pid st : json) (p : nat) (e : exn) (w : world) :
  subscript rd "procedure_id" = Ok pid ->
  id_dict_get pid d = Some p ->
  subscript rd "status" = Ok st ->
  subscript rd "optimization_history" = Raise e ->
  service_record d rd w
  = (Ok tt,
     {| td_jobs := alter (dict_set "status" st) p (td_jobs w);
        files := files w; dirs := dirs w; stdout := stdout w ++ [Repr rd];
        requests := requests w |}).
Proof.
  intros Hpid Hp Hst Hh.
  unfold service_record, try_except, bind, lift, id_dict_subscript, job_set, print.
  rewrite Hpid, (id_dict_get_hashable d pid p Hp), Hp, Hst, Hh. done.
Qed.

(** A RUNNING record of job 7 that lacks the history. *)
Lemma service_record_without_history_sets_status_witness :
  let rd := JObj [("procedure_id", JStr "7"); ("status", JStr "RUNNING")] in
  let j := [("status", JStr "INCOMPLETE"); ("id", JStr "7"); ("progress", JInt 0)] in
  service_record [(JStr "7", 0%nat)] rd (sample_world [j] None)
  = (Ok tt,
     {| td_jobs := [[("status", JStr "RUNNING"); ("id", JStr "7"); ("progress", JInt 0)]];
        files := ∅; dirs := ∅; stdout := [Repr rd]; requests := [] |}).
Proof.
  intros rd j.
  apply (service_record_without_history_sets_status [(JStr "7", 0%nat)] rd (JStr "7")
           (JStr "RUNNING") 0 (KeyError (JStr "optimization_history"))
           (sample_world [j] None)); reflexivity.
Defined.

(** ** The procedure query *)

(** [get_update] is the ledger pass followed by the two queries. *)
Lemma get_update_ledger_split {float} (self : @TorsionMonitor float) (w : world) :
  get_update self w =
  match get_update_ledger self w with
  | (Ok d, w1) => (procedure_pass self d ;;; service_pass self d) w1
  | (Raise e, w1) => (Raise e, w1)
  end.
Proof.
  rewrite get_update_unfold.
  unfold get_update_ledger, get_jobs, lift. unfold bind at 3 4.
  destruct (build_d_id_jobs 0 (td_jobs w) []) as [d|e]; [|done].
  unfold bind, print, ret. simpl.
  destruct (ledger_pass self d _) as [[[]|e] w1]; done.
Qed.

Lemma get_update_prefix_ledger_split {float} (self : @TorsionMonitor float) (w : world) :
  get_update_prefix self w =
  match get_update_ledger self w with
  | (Ok d, w1) => (procedure_pass self d ;;; ret d) w1
  | (Raise e, w1) => (Raise e, w1)
  end.
Proof.
  rewrite get_update_prefix_unfold.
  unfold get_update_ledger, get_jobs, lift. unfold bind at 3 4.
  destruct (build_d_id_jobs 0 (td_jobs w) []) as [d|e]; [|done].
  unfold bind, print, ret. simpl.
  destruct (ledger_pass self d _) as [[[]|e] w1]; done.
Qed.

Lemma get_update_ledger_Ok {float} (self : @TorsionMonitor float) (w w1 : world)
    (d : list (json * nat)) :
  get_update_ledger self w = (Ok d, w1) ->
  build_d_id_jobs 0 (td_jobs w) [] = Ok d /\ grows w w1 /\ requests w1 = requests w.
Proof.
  unfold get_update_ledger, get_jobs, lift. unfold bind at 1 2.
  destruct (build_d_id_jobs 0 (td_jobs w) []) as [d'|e] eqn:Hd; [|done].
  intros H. apply bind_Ok in H as ([] & w0 & Hprint & H).
  apply bind_Ok in H as ([] & w1' & Hledger & H). injection H as -> ->.
  injection Hprint as <-. split; [done|].
  pose proof (ledger_pass_keeps grows self d
                (fun kid p k v _ Hk => job_set_grows p k v Hk)) as Hg.
  pose proof (ledger_pass_same_requests self d) as Hr.
  match type of Hledger with
  | ledger_pass self d ?w0 = _ => specialize (Hg w0); specialize (Hr w0)
  end.
  rewrite Hledger in Hg, Hr. split; [|exact Hr].
  destruct Hg as [Hl Hg]. split; [exact Hl|]. intros p. apply Hg.
Qed.

(** No exception of the procedure query is caught, an [IOError] no more
    than another: when the query raises, [get_update] raises the same
    exception, having sent that one request, and the jobs are as the ledger
    pass left them. *)
Theorem get_update_procedure_query_failure_is_fatal {float}
    (self : @TorsionMonitor float) (w w1 : world) (d : list (json * nat))
    (ids : list json) (e : exn) :
  get_update_ledger self w = (Ok d, w1) ->
  query_job_ids d (td_jobs w1) = Ok ids ->
  query_procedures (client self) ids = Raise e ->
  get_update self w
  = (Raise e,
     {| td_jobs := td_jobs w1; files := files w1; dirs := dirs w1; stdout := stdout w1;
        requests := requests w1 ++ [ReqProcedures ids] |}).
Proof.
  intros Hl Hids Hq. rewrite get_update_ledger_split, Hl.
  unfold procedure_pass, bind, get_jobs, lift, send. rewrite Hids. simpl.
  by rewrite Hq.
Qed.

(** The server cannot be reached for the procedure query. *)
Lemma get_update_procedure_query_failure_is_fatal_witness :
  let c := {| query_procedures := fun _ => Raise (IOError "Connection refused");
              query_services := fun _ _ => Ok [] |} in
  let j := sample_job "ethane_a" "submitted" (JStr "7") in
  get_update (sample_monitor c) (sample_world [j] None)
  = (Raise (IOError "Connection refused"),
     {| td_jobs := [j]; files := ∅; dirs := ∅;
        stdout := [Line "Updating status for 1 jobs by their ids"];
        requests := [] ++ [ReqProcedures [JStr "7"]] |}).
Proof.
  intros c j.
  apply (get_update_procedure_query_failure_is_fatal (sample_monitor c)
           (sample_world [j] None)
           {| td_jobs := [j]; files := ∅; dirs := ∅;
              stdout := [Line "Updating status for 1 jobs by their ids"];
              requests := [] |}
           [(JStr "7", 0%nat)] [JStr "7"] (IOError "Connection refused"));
    reflexivity.
Defined.

Lemma procedure_record_known {float} (d : list (json * nat)) (r : @TDRecord float)
    (p : nat) (w : world) :
  id_dict_get (rec_id r) d = Some p ->
  exists w', procedure_record d r w = (Ok tt, w').
Proof.
  intros Hp. unfold procedure_record, bind, lift, id_dict_subscript.
  rewrite (id_dict_get_hashable d _ p Hp), Hp. simpl. eauto.
Qed.

(** The procedure pass returns when the query does and every record is of
    a job of [d_id_jobs]. *)
Lemma procedure_pass_returns {float} (self : @TorsionMonitor float)
    (d : list (json * nat)) (w1 : world) (ids : list json)
    (recs : list (@TDRecord float)) :
  query_job_ids d (td_jobs w1) = Ok ids ->
  query_procedures (client self) ids = Ok recs ->
  Forall (fun r => is_Some (id_dict_get (rec_id r) d)) recs ->
  exists w2, procedure_pass self d w1 = (Ok tt, w2).
Proof.
  intros Hids Hq Hknown.
  unfold procedure_pass, bind, get_jobs, lift, send. rewrite Hids. simpl. rewrite Hq.
  apply for_each_Ok. intros r w2 Hr. rewrite Forall_forall in Hknown.
  destruct (Hknown r Hr) as [p Hp]. by eapply procedure_record_known.
Qed.

(** The loop over the procedure records has no guard: at the first record
    whose id is not a key of [d_id_jobs], [get_update] raises [KeyError] with
    that id.  The records before it have been applied, the records after it
    are not, and no service query is sent. *)
Theorem get_update_stops_at_unknown_procedure_record {float}
    (self : @TorsionMonitor float) (w w1 : world) (d : list (json * nat))
    (ids : list json) (known rest : list (@TDRecord float)) (bad : @TDRecord float) :
  get_update_ledger self w = (Ok d, w1) ->
  query_job_ids d (td_jobs w1) = Ok ids ->
  query_procedures (client self) ids = Ok (known ++ bad :: rest)%list ->
  Forall (fun r => is_Some (id_dict_get (rec_id r) d)) known ->
  hashable (rec_id bad) = true -> id_dict_get (rec_id bad) d = None ->
  exists w',
    get_update self w = (Raise (KeyError (rec_id bad)), w') /\
    for_each known (procedure_record d)
      {| td_jobs := td_jobs w1; files := files w1; dirs := dirs w1; stdout := stdout w1;
         requests := requests w1 ++ [ReqProcedures ids] |} = (Ok tt, w') /\
    requests w' = (requests w1 ++ [ReqProcedures ids])%list.
Proof.
  intros Hl Hids Hq Hknown Hh Hbad. rewrite get_update_ledger_split, Hl.
  set (w0 := {| td_jobs := td_jobs w1; files := files w1; dirs := dirs w1;
                stdout := stdout w1; requests := requests w1 ++ [ReqProcedures ids] |}).
  destruct (for_each_Ok known (procedure_record d)) with (w := w0) as [w' Hw'].
  { intros r w2 Hr. rewrite Forall_forall in Hknown.
    destruct (Hknown r Hr) as [p Hp]. by eapply procedure_record_known. }
  pose proof (procedure_records_same_requests d known w0) as Hr.
  rewrite Hw' in Hr. exists w'. split_and!; [|done|exact Hr].
  erewrite bind_run_raise; [done|].
  unfold procedure_pass, bind, get_jobs, lift, send. rewrite Hids. simpl. rewrite Hq.
  fold w0. rewrite for_each_app, Hw'. simpl. unfold bind.
  by rewrite (procedure_record_unknown_id d bad w' Hh Hbad).
Qed.

(** The server answers the query for job 8 with the record of job 8 and
    then with a record of a job 999. *)
Lemma get_update_stops_at_unknown_procedure_record_witness :
  let c := {| query_procedures := fun _ =>
                Ok [sample_record (JStr "8") "COMPLETE" 24;
                    sample_record (JStr "999") "COMPLETE" 24;
                    sample_record (JStr "8") "ERROR" 3];
              query_services := fun _ _ => Ok [] |} in
  let j := sample_job "ethane_b" "submitted" (JStr "8") in
  let w1 := {| td_jobs := [j]; files := ∅; dirs := ∅;
               stdout := [Line "Updating status for 1 jobs by their ids"];
               requests := [] |} in
  exists w',
    get_update (sample_monitor c) (sample_world [j] None)
    = (Raise (KeyError (JStr "999")), w') /\
    for_each [sample_record (JStr "8") "COMPLETE" 24] (procedure_record [(JStr "8", 0%nat)])
      {| td_jobs := td_jobs w1; files := files w1; dirs := dirs w1; stdout := stdout w1;
         requests := requests w1 ++ [ReqProcedures [JStr "8"]] |} = (Ok tt, w') /\
    requests w' = (requests w1 ++ [ReqProcedures [JStr "8"]])%list.
Proof.
  intros c j w1.
  apply (get_update_stops_at_unknown_procedure_record (sample_monitor c)
           (sample_world [j] None) w1 [(JStr "8", 0%nat)] [JStr "8"]
           [sample_record (JStr "8") "COMPLETE" 24]
           [sample_record (JStr "8") "ERROR" 3]
           (sample_record (JStr "999") "COMPLETE" 24)).
  - reflexivity.
  - reflexivity.
  - reflexivity.
  - repeat constructor. by eexists.
  - reflexivity.
  - reflexivity.
Defined.

(** The procedure query asks for the jobs tracked by id that the ledger pass
    has not marked: the ids sent are exactly the ids of the tracked jobs whose
    [status] after the ledger pass is not DOWNLOADED.  It is the first
    request [get_update] sends. *)
Theorem procedure_query_asks_for_jobs_not_downloaded {float}
    (self : @TorsionMonitor float) (w w1 : world) (d : list (json * nat)) :
  get_update_ledger self w = (Ok d, w1) ->
  Forall (fun j => is_Some (dict_get "status" j)) (td_jobs w) ->
  exists qids more,
    requests (get_update self w).2 = (requests w ++ ReqProcedures qids :: more)%list /\
    forall v, v ∈ qids <->
              exists p j st, tracked (td_jobs w) p /\ td_jobs w1 !! p = Some j /\
                             dict_get "id" j = Some v /\
                             dict_get "status" j = Some st /\ st <> JStr "DOWNLOADED".
Proof.
  intros Hl Hst. pose proof (get_update_ledger_split self w) as Hsplit.
  rewrite Hl in Hsplit.
  destruct (get_update_ledger_Ok self w w1 d Hl) as (Hd & Hg & Hreq).
  assert (forall p, tracked (td_jobs w) p ->
            exists j, td_jobs w1 !! p = Some j /\ td_jobs w1 !!! p = j /\
                      is_Some (dict_get "status" j) /\ is_Some (dict_get "id" j))
    as Hfields.
  { intros p (j0 & v0 & Hj0 & Hv0 & _).
    destruct (grows_lookup w w1 p j0 Hg Hj0) as (j & Hj & Hid & Hs).
    exists j. split_and!; [done|by apply list_lookup_total_correct| |].
    - apply Hs. rewrite Forall_forall in Hst. apply Hst.
      by eapply list_elem_of_lookup_2.
    - rewrite Hid, Hv0. eauto. }
  destruct (ids_where_Ok (fun st => negb (eq_str st "DOWNLOADED"))
              (id_dict_values d) (td_jobs w1)) as [qids Hq].
  { intros p Hp%(tracked_values _ _ _ Hd).
    destruct (Hfields p Hp) as (j & _ & -> & ? & ?). done. }
  pose proof (procedure_pass_requests self d w1) as Hp.
  unfold query_job_ids in Hp. rewrite Hq in Hp.
  exists qids.
  assert (exists more, requests (get_update self w).2
                       = (requests w ++ ReqProcedures qids :: more)%list) as [more Hmore].
  { rewrite Hsplit. unfold bind at 1.
    destruct (procedure_pass self d w1) as [[[]|e] w2]; simpl in Hp.
    - pose proof (service_pass_requests self d w2) as Hs.
      destruct (incomplete_job_ids d (td_jobs w2)) as [ids|e].
      + exists [ReqServices ids td_projection].
        rewrite Hs, Hp, Hreq, <- app_assoc. done.
      + exists []. rewrite Hs. simpl. by rewrite Hp, Hreq.
    - exists []. simpl. by rewrite Hp, Hreq. }
  exists more. split; [done|]. intros v.
  rewrite (ids_where_elem _ _ _ qids Hq v). split.
  - intros (p & st & Hpos & Hs & Hpred & Hv).
    apply (tracked_values _ _ _ Hd) in Hpos.
    destruct (Hfields p Hpos) as (j & Hj & Hjt & _).
    rewrite Hjt in Hs, Hv. exists p, j, st. split_and!; try done.
    intros ->. done.
  - intros (p & j & st & Hpos & Hj & Hv & Hs & Hne).
    exists p, st. rewrite (list_lookup_total_correct _ _ _ Hj).
    split_and!; try done; [by apply (tracked_values _ _ _ Hd)|].
    destruct (eq_str st "DOWNLOADED") eqn:E; [|done].
    by apply eq_str_true in E.
Qed.

(** Job 7 is in the ledger, job 8 is not, and a third job has no id: the
    procedure query asks for job 8 only. *)
Lemma procedure_query_asks_for_jobs_not_downloaded_witness :
  let jobs := [sample_job "ethane_a" "COMPLETE" (JStr "7");
               sample_job "ethane_b" "submitted" (JStr "8");
               sample_job "ethane_c" "submitted" JNull] in
  let w := sample_world jobs (Some (JList [ledger_entry_of (JStr "7") 24])) in
  let self := sample_monitor honest_client in
  exists qids more,
    requests (get_update self w).2 = (requests w ++ ReqProcedures qids :: more)%list /\
    forall v, v ∈ qids <->
              exists p j st, tracked (td_jobs w) p /\
                             td_jobs (get_update_ledger self w).2 !! p = Some j /\
                             dict_get "id" j = Some v /\
                             dict_get "status" j = Some st /\ st <> JStr "DOWNLOADED".
Proof.
  intros jobs w self.
  apply (procedure_query_asks_for_jobs_not_downloaded self w
           (get_update_ledger self w).2 [(JStr "7", 0%nat); (JStr "8", 1%nat)]).
  - reflexivity.
  - repeat constructor; by eexists.
Defined.

(** ** The record of a job *)

Section Settled.

Context {float : Type}.
Variable self : @TorsionMonitor float.
Variable jobs : list (list (string * json)).
Variable d : list (json * nat).
Hypothesis Hd : build_d_id_jobs 0 jobs [] = Ok d.
Variables (i : nat) (j : list (string * json)) (k : json).
Hypothesis Hj : jobs !! i = Some j.
Hypothesis Hk : dict_get "id" j = Some k.
Hypothesis Htracked : tracked jobs i.

(** The service pass leaves alone a job whose status is not INCOMPLETE, when
    the client returns a record under the job's id only if it was asked for
    that id. *)
Lemma service_pass_leaves_settled (w w2 w3 : world) (st : json) :
  td_jobs w = jobs -> grows w w2 ->
  dict_get "status" (td_jobs w2 !!! i) = Some st -> eq_str st "INCOMPLETE" = false ->
  (forall ids proj recs rd pid,
      query_services (client self) ids proj = Ok recs -> rd ∈ recs ->
      subscript rd "procedure_id" = Ok pid -> key_eqb pid k = true ->
      exists q, q ∈ ids /\ key_eqb q k = true) ->
  service_pass self d w2 = (Ok tt, w3) ->
  td_jobs w3 !! i = td_jobs w2 !! i.
Proof.
  intros Hw Hg Hst Hsettled Hclient H. unfold service_pass in H.
  apply bind_Ok in H as (jobs2 & ? & [= <- <-] & H).
  apply bind_Ok in H as (ids & ? & [= Hq <-] & H).
  apply bind_Ok in H as (recs & ws & Hr & H).
  assert (td_jobs ws = td_jobs w2 /\
          forall rd pid, rd ∈ recs -> subscript rd "procedure_id" = Ok pid ->
                         key_eqb pid k = false) as [Hws Hrecs].
  { unfold try_except, bind, send, lift in Hr. simpl in Hr.
    destruct (query_services (client self) ids td_projection) as [recs'|e] eqn:Eq.
    - injection Hr as <- <-. split; [done|]. intros rd pid Hin Hpid.
      destruct (key_eqb pid k) eqn:E; [exfalso|done].
      destruct (Hclient ids td_projection recs' rd pid Eq Hin Hpid E) as (q & Hqin & Eq').
      rewrite (ids_where_leaves_out jobs d Hd i j k Hj Hk Htracked _ w w2 _ ids
                 Hw Hg Hst Hsettled Hq q Hqin) in Eq'. done.
    - destruct e; try done. injection Hr as <- <-. split; [done|].
      by intros rd pid ?%elem_of_nil. }
  assert (keeps (same_at i) (for_each recs (service_record d))) as Hsame.
  { keeps_by keeps_for_each. intros rd Hin.
    apply (service_record_other jobs d Hd i j k Hj Hk). intros pid. by apply Hrecs. }
  specialize (Hsame ws). rewrite H in Hsame. unfold same_at in Hsame. simpl in Hsame.
  by rewrite Hsame, Hws.
Qed.

(** The procedure pass leaves in the job the last record under its id. *)
Lemma procedure_pass_takes_last (w w1 w2 : world) (ids : list json)
    (before after : list (@TDRecord float)) (r : @TDRecord float) :
  td_jobs w = jobs -> grows w w1 ->
  query_job_ids d (td_jobs w1) = Ok ids ->
  query_procedures (client self) ids = Ok (before ++ r :: after)%list ->
  key_eqb (rec_id r) k = true ->
  (forall r', r' ∈ after -> key_eqb (rec_id r') k = false) ->
  procedure_pass self d w1 = (Ok tt, w2) ->
  exists ja,
    td_jobs w2 !! i
    = Some (dict_set "progress" (JInt (Z.of_nat (length (optimization_history r))))
              (dict_set "status" (JStr (rec_status r)) ja)).
Proof.
  intros Hw Hg Hids Hq Hr Hafter H. unfold procedure_pass in H.
  apply bind_Ok in H as (jobs1 & ? & [= <- <-] & H).
  apply bind_Ok in H as (qids & ? & [= Hqids <-] & H).
  rewrite Hids in Hqids. injection Hqids as <-.
  apply bind_Ok in H as ([] & ws & [= <-] & H).
  apply bind_Ok in H as (recs & ? & [= Hrecs <-] & H).
  rewrite Hq in Hrecs. injection Hrecs as <-.
  rewrite for_each_app in H.
  match type of H with
  | context [for_each before _ ?w0] =>
      assert (grows w1 (for_each before (procedure_record d) w0).2) as Hga
  end.
  { match goal with
    | |- grows _ (?m ?w0).2 => assert (keeps grows m) as Hkeep; [|exact (Hkeep w0)]
    end.
    keeps_by keeps_for_each. intros r' _. keeps_by procedure_record_keeps.
    intros p ? ? _ Hne. by apply job_set_grows. }
  destruct (for_each before (procedure_record d) _) as [[[]|e0] wa]; [|done].
  simpl in Hga, H. pose proof Hj as Hj0. rewrite <- Hw in Hj0.
  destruct (grows_lookup w wa i j) as (ja & Hja & _); [by etrans|done|].
  unfold bind at 1 in H.
  assert (procedure_record d r wa
          = (Ok tt, {| td_jobs := alter (dict_set "progress"
                                           (JInt (Z.of_nat (length (optimization_history r)))))
                                    i (alter (dict_set "status" (JStr (rec_status r))) i
                                         (td_jobs wa));
                       files := files wa; dirs := dirs wa; stdout := stdout wa;
                       requests := requests wa |})) as Hrun.
  { unfold procedure_record, bind, lift, id_dict_subscript, job_set.
    rewrite (key_eqb_hashable_l _ _ Hr).
    by rewrite (tracked_key_finds jobs d Hd i j k Hj Hk Htracked _ Hr). }
  rewrite Hrun in H.
  assert (keeps (same_at i) (for_each after (procedure_record d))) as Hsame.
  { keeps_by keeps_for_each. intros r' Hr'.
    apply (procedure_record_other jobs d Hd i j k Hj Hk). by apply Hafter. }
  match type of H with for_each _ _ ?w' = _ => specialize (Hsame w') end.
  rewrite H in Hsame. unfold same_at in Hsame. simpl in Hsame.
  exists ja. rewrite Hsame, !list_lookup_alter_eq, Hja. done.
Qed.

End Settled.

(** What [get_update] leaves in a settled job, when it returns. *)
Lemma last_procedure_record_stays {float}
    (self : @TorsionMonitor float) (w w1 w' : world) (d : list (json * nat))
    (i : nat) (j : list (string * json)) (k : json) (ids : list json)
    (before after : list (@TDRecord float)) (r : @TDRecord float) :
  td_jobs w !! i = Some j -> dict_get "id" j = Some k -> tracked (td_jobs w) i ->
  get_update_ledger self w = (Ok d, w1) ->
  query_job_ids d (td_jobs w1) = Ok ids ->
  query_procedures (client self) ids = Ok (before ++ r :: after)%list ->
  key_eqb (rec_id r) k = true ->
  (forall r', r' ∈ after -> key_eqb (rec_id r') k = false) ->
  rec_status r <> "INCOMPLETE" ->
  (forall ids proj recs rd pid,
      query_services (client self) ids proj = Ok recs -> rd ∈ recs ->
      subscript rd "procedure_id" = Ok pid -> key_eqb pid k = true ->
      exists q, q ∈ ids /\ key_eqb q k = true) ->
  get_update self w = (Ok tt, w') ->
  exists j', td_jobs w' !! i = Some j' /\
             dict_get "status" j' = Some (JStr (rec_status r)) /\
             dict_get "progress" j'
             = Some (JInt (Z.of_nat (length (optimization_history r)))).
Proof.
  intros Hj Hk Htracked Hl Hids Hq Hr Hafter Hst Hservs Hok.
  destruct (get_update_ledger_Ok self w w1 d Hl) as (Hd & Hg1 & _).
  rewrite get_update_ledger_split, Hl in Hok.
  apply bind_Ok in Hok as ([] & w2 & Hproc & Hserv).
  assert (grows w w2) as Hg2.
  { etrans; [exact Hg1|].
    pose proof (procedure_pass_keeps grows send_grows self d
                  (fun kid p k v _ Hk => job_set_grows p k v Hk) w1) as H.
    by rewrite Hproc in H. }
  destruct (procedure_pass_takes_last self (td_jobs w) d Hd i j k Hj Hk Htracked
              w w1 w2 ids before after r eq_refl Hg1 Hids Hq Hr Hafter Hproc)
    as (ja & Hj2).
  pose proof (service_pass_leaves_settled self (td_jobs w) d Hd i j k Hj Hk Htracked
                w w2 w' (JStr (rec_status r)) eq_refl Hg2) as H23.
  rewrite (list_lookup_total_correct _ _ _ Hj2) in H23.
  rewrite H23, Hj2; [| |simpl; by apply String.eqb_neq|done..].
  - eexists. split; [done|]. split.
    + rewrite dict_get_set_ne by done. apply dict_get_set_eq.
    + apply dict_get_set_eq.
  - rewrite dict_get_set_ne by done. apply dict_get_set_eq.
Qed.

(** A job tracked by id that the ledger has not marked takes the last record
    the procedure query returns under its id.  When that record has a status
    other than INCOMPLETE, every record of the query is of a known job, and
    the service query answers or fails with an [IOError] and has no record
    under an id it was not asked for, [get_update] returns, and the job has
    the status of that last record and as [progress] the length of its
    optimization history. *)
Theorem get_update_takes_the_last_procedure_record {float}
    (self : @TorsionMonitor float) (w w1 : world) (d : list (json * nat))
    (i : nat) (j : list (string * json)) (k : json) (ids : list json)
    (before after : list (@TDRecord float)) (r : @TDRecord float) :
  td_jobs w !! i = Some j -> dict_get "id" j = Some k -> tracked (td_jobs w) i ->
  get_update_ledger self w = (Ok d, w1) ->
  query_job_ids d (td_jobs w1) = Ok ids ->
  query_procedures (client self) ids = Ok (before ++ r :: after)%list ->
  Forall (fun r' => is_Some (id_dict_get (rec_id r') d)) (before ++ r :: after)%list ->
  key_eqb (rec_id r) k = true ->
  (forall r', r' ∈ after -> key_eqb (rec_id r') k = false) ->
  rec_status r <> "INCOMPLETE" ->
  (forall ids proj recs rd pid,
      query_services (client self) ids proj = Ok recs -> rd ∈ recs ->
      subscript rd "procedure_id" = Ok pid -> key_eqb pid k = true ->
      exists q, q ∈ ids /\ key_eqb q k = true) ->
  (forall ids, match query_services (client self) ids td_projection with
               | Ok _ => True
               | Raise e => exists msg, e = IOError msg
               end) ->
  exists w' j',
    get_update self w = (Ok tt, w') /\
    td_jobs w' !! i = Some j' /\
    dict_get "status" j' = Some (JStr (rec_status r)) /\
    dict_get "progress" j' = Some (JInt (Z.of_nat (length (optimization_history r)))).
Proof.
  intros Hj Hk Htracked Hl Hids Hq Hknown Hr Hafter Hst Hservs Hanswers.
  destruct (procedure_pass_returns self d w1 ids _ Hids Hq Hknown) as [w2 Hproc].
  assert (get_update_prefix self w = (Ok d, w2)) as Hpre.
  { rewrite get_update_prefix_ledger_split, Hl. unfold bind. by rewrite Hproc. }
  destruct (get_update_returns_after_prefix self w w2 d Hpre (fun ids' _ => Hanswers ids'))
    as [w' Hok].
  destruct (last_procedure_record_stays self w w1 w' d i j k ids before after r
              Hj Hk Htracked Hl Hids Hq Hr Hafter Hst Hservs Hok) as (j' & H1 & H2 & H3).
  by exists w', j'.
Qed.

(** The server holds job 8 as complete after 24 steps. *)
Lemma get_update_takes_the_last_procedure_record_witness :
  let c := {| query_procedures := fun ids =>
                Ok (if existsb (key_eqb (JStr "8")) ids
                    then [sample_record (JStr "8") "RUNNING" 3;
                          sample_record (JStr "8") "COMPLETE" 24] else []);
              query_services := fun _ _ => Ok [] |} in
  let self := sample_monitor c in
  let j := sample_job "ethane_b" "submitted" (JStr "8") in
  let w := sample_world [j] None in
  exists w' j',
    get_update self w = (Ok tt, w') /\
    td_jobs w' !! 0%nat = Some j' /\
    dict_get "status" j' = Some (JStr "COMPLETE") /\
    dict_get "progress" j' = Some (JInt 24).
Proof.
  intros c self j w.
  apply (get_update_takes_the_last_procedure_record self w (get_update_ledger self w).2
           [(JStr "8", 0%nat)] 0 j (JStr "8") [JStr "8"]
           [sample_record (JStr "8") "RUNNING" 3] []
           (sample_record (JStr "8") "COMPLETE" 24)).
  - reflexivity.
  - reflexivity.
  - exists j, (JStr "8"). split_and!; [reflexivity..|].
    intros q j' v' Hq Hj'. destruct q; [lia | done].
  - reflexivity.
  - reflexivity.
  - reflexivity.
  - repeat constructor; by eexists.
  - reflexivity.
  - by intros r' ?%elem_of_nil.
  - discriminate.
  - intros ids proj recs rd pid [= <-] Hin. by apply elem_of_nil in Hin.
  - intros ids. exact I.
Defined.

(** ** The ledger *)

Lemma ledger_entry_well_formed (d : list (json * nat)) (e kid pr : json) (w : world) :
  subscript e "id" = Ok kid -> hashable kid = true -> subscript e "progress" = Ok pr ->
  exists w', ledger_entry d e w = (Ok tt, w').
Proof.
  intros Hid Hh Hpr. unfold ledger_entry, bind, lift. rewrite Hid, Hh.
  destruct (id_dict_get kid d); [|by eexists]. simpl. rewrite Hpr. by eexists.
Qed.

(** The ledger is trusted to hold a [progress] in every entry.  At the first
    entry of a known job that has none, [get_update] raises [KeyError], after
    it has set the status of that job to DOWNLOADED (line 83 comes before line
    85); no request has been sent. *)
Theorem get_update_stops_at_ledger_entry_without_progress {float}
    (self : @TorsionMonitor float) (w : world) (d : list (json * nat))
    (before after : list json) (fields : list (string * json)) (kid : json) (p : nat) :
  build_d_id_jobs 0 (td_jobs w) [] = Ok d ->
  files w !! downloaded_json_fn self
  = Some (JsonFile (JList (before ++ JObj fields :: after))) ->
  Forall (fun e => exists kid pr, subscript e "id" = Ok kid /\ hashable kid = true /\
                                  subscript e "progress" = Ok pr) before ->
  dict_get "id" fields = Some kid -> id_dict_get kid d = Some p ->
  dict_get "progress" fields = None ->
  exists w',
    get_update self w = (Raise (KeyError (JStr "progress")), w') /\
    dict_get "status" (td_jobs w' !!! p) = Some (JStr "DOWNLOADED") /\
    requests w' = requests w.
Proof.
  intros Hd Hfile Hbefore Hid Hp Hprog.
  assert (p < length (td_jobs w))%nat as Hlt.
  { apply (d_id_jobs_get _ _ _ _ Hd) in Hp.
    apply find_tracked_Some in Hp as (j & v & Hj & _). by eapply lookup_lt_Some. }
  rewrite get_update_unfold, Hd.
  erewrite bind_run; [|reflexivity].
  match goal with
  | |- context [bind (ledger_pass self d) _ ?w0] =>
      assert (exists w', ledger_pass self d w0 = (Raise (KeyError (JStr "progress")), w') /\
                         dict_get "status" (td_jobs w' !!! p) = Some (JStr "DOWNLOADED"))
        as (w' & Hrun & Hst);
      [|pose proof (ledger_pass_same_requests self d w0) as Hreq]
  end.
  { unfold ledger_pass, bind, path_exists, json_load, lift. simpl.
    rewrite Hfile. rewrite bool_decide_eq_true_2 by eauto. simpl.
    rewrite ?Hfile. simpl. rewrite for_each_app.
    match goal with
    | |- context [for_each before _ ?w0] =>
        destruct (for_each_Ok before (ledger_entry d)) with (w := w0) as [wa Hwa];
        [|pose proof (ledger_entries_grow d before w0) as Hg]
    end.
    { intros e w0 He. rewrite Forall_forall in Hbefore.
      destruct (Hbefore e He) as (kid' & pr & H1 & H2 & H3).
      by eapply ledger_entry_well_formed. }
    rewrite Hwa in Hg |- *. simpl in Hg. destruct Hg as [Hlen _]. simpl in Hlen.
    simpl. unfold bind at 1.
    unfold ledger_entry, bind, lift, job_set. simpl. rewrite Hid.
    rewrite (id_dict_get_hashable d kid p Hp), Hp, Hprog. simpl.
    eexists. split; [done|]. simpl.
    rewrite list_lookup_total_alter, decide_True by (split; [done | lia]).
    apply dict_get_set_eq. }
  erewrite bind_run_raise; [|exact Hrun].
  rewrite Hrun in Hreq. exists w'. split_and!; done.
Qed.

(** The ledger names job 7 without a progress. *)
Lemma get_update_stops_at_ledger_entry_without_progress_witness :
  let j := sample_job "ethane_a" "COMPLETE" (JStr "7") in
  let ledger := JList [JObj [("id", JStr "7"); ("status", JStr "DOWNLOADED")]] in
  let w := sample_world [j] (Some ledger) in
  exists w',
    get_update (sample_monitor honest_client) w
    = (Raise (KeyError (JStr "progress")), w') /\
    dict_get "status" (td_jobs w' !!! 0%nat) = Some (JStr "DOWNLOADED") /\
    requests w' = requests w.
Proof.
  intros j ledger w.
  apply (get_update_stops_at_ledger_entry_without_progress (sample_monitor honest_client)
           w [(JStr "7", 0%nat)] [] []
           [("id", JStr "7"); ("status", JStr "DOWNLOADED")] (JStr "7") 0).
  - reflexivity.
  - reflexivity.
  - constructor.
  - reflexivity.
  - reflexivity.
  - reflexivity.
Defined.

(** * The reporter *)

(** ** log_error *)

Lemma jobs_with_status_filter (s : string) (jobs : list (list (string * json))) :
  Forall (fun j => is_Some (dict_get "status" j)) jobs ->
  jobs_with_status s jobs = Ok (filter (fun j => has_status s j = true) jobs).
Proof.
  unfold jobs_with_status.
  assert (Forall (fun j => is_Some (dict_get "status" j)) jobs ->
          omap (fun j => st <-? job_get j "status" ;; Ok (eq_str st s, j)) jobs
          = Ok (map (fun j => (has_status s j, j)) jobs)) as Homap.
  { induction 1 as [|j l [st Hst] _ IH]; simpl; [done|].
    unfold job_get at 1, has_status at 1. rewrite Hst. simpl. by rewrite IH. }
  intros H. rewrite (Homap H). simpl. f_equal. clear.
  induction jobs as [|j l IH]; [done|]. simpl.
  rewrite !filter_cons. simpl. destruct (has_status s j).
  - rewrite !decide_True by done. simpl. by rewrite IH.
  - rewrite !decide_False by done. done.
Qed.

(** When every job has a [status], [log_error] returns normally.  With no
    ERROR job it does nothing at all: no file is written, nothing is printed.
    Otherwise the file [monitor_error_jobs.json] of the working directory is
    replaced by the list of the jobs whose status is ERROR, in the order of
    the job list and with all their fields, and one line tells how many they
    are.  The job list is never changed. *)
Theorem log_error_records_error_jobs (w : world) :
  Forall (fun j => is_Some (dict_get "status" j)) (td_jobs w) ->
  log_error w
  = (Ok tt,
     match filter (fun j => has_status "ERROR" j = true) (td_jobs w) with
     | [] => w
     | error_jobs =>
         {| td_jobs := td_jobs w;
            files := <["monitor_error_jobs.json" := JsonFile (JList (map JObj error_jobs))]>
                       (files w);
            dirs := dirs w;
            stdout := stdout w ++ [Line ("Errors of " +:+ pretty (length error_jobs)
                                         +:+ " jobs are recorded in monitor_error_jobs.json")];
            requests := requests w |}
     end).
Proof.
  intros H. unfold log_error, bind, get_jobs, lift.
  rewrite (jobs_with_status_filter "ERROR" _ H).
  by destruct (filter _ (td_jobs w)).
Qed.

(** Three jobs, the first and the last in error. *)
Lemma log_error_records_error_jobs_witness :
  let a := sample_job "ethane_a" "ERROR" (JStr "7") in
  let b := sample_job "ethane_b" "COMPLETE" (JStr "8") in
  let c := sample_job "ethane_c" "ERROR" JNull in
  log_error (sample_world [a; b; c] None)
  = (Ok tt,
     {| td_jobs := [a; b; c];
        files := {[ "monitor_error_jobs.json" := JsonFile (JList [JObj a; JObj c]) ]};
        dirs := ∅;
        stdout := [Line "Errors of 2 jobs are recorded in monitor_error_jobs.json"];
        requests := [] |}).
Proof.
  intros a b c.
  apply (log_error_records_error_jobs (sample_world [a; b; c] None)).
  repeat constructor; by eexists.
Defined.

(** ** print_status *)

(** A loop whose body only prints. *)
Lemma for_each_print {A} (l : list A) (body : A -> M unit) (f : A -> output) :
  (forall x w, x ∈ l -> body x w = print (f x) w) ->
  forall w, for_each l body w
            = (Ok tt, {| td_jobs := td_jobs w; files := files w; dirs := dirs w;
                         stdout := stdout w ++ map f l; requests := requests w |}).
Proof.
  induction l as [|x l IH]; intros H w; simpl.
  - rewrite app_nil_r. by destruct w.
  - unfold bind. rewrite H by left. simpl. rewrite IH.
    + simpl. by rewrite <- app_assoc.
    + intros y w0 Hy. apply H. by right.
Qed.

Lemma tally_ext (keys : list string) (f g : string -> Z) :
  (forall s, s ∈ keys -> f s = g s) -> tally keys f = tally keys g.
Proof.
  intros H. unfold tally. induction keys as [|k keys IH]; [done|]. simpl.
  rewrite (H k) by left. f_equal. apply IH. intros s Hs. apply H. by right.
Qed.

Lemma counter_add_tally (x : string) (keys : list string) (cnt : string -> Z) :
  NoDup keys ->
  counter_add (JStr x) (tally keys cnt)
  = if decide (x ∈ keys)
    then tally keys (fun s => if decide (s = x) then cnt s + 1 else cnt s)
    else tally (keys ++ [x]) (fun s => if decide (s = x) then 1 else cnt s).
Proof.
  induction 1 as [|k keys Hk Hnd IH].
  - rewrite (decide_False (P := x ∈ [])) by (by intros ?%elem_of_nil). simpl.
    by rewrite decide_True.
  - simpl. destruct (String.eqb x k) eqn:E.
    + apply String.eqb_eq in E as ->.
      rewrite (decide_True (P := k ∈ k :: keys)) by left. simpl.
      rewrite decide_True by done. f_equal. apply tally_ext.
      intros s Hs. rewrite decide_False; [done|]. by intros ->.
    + apply String.eqb_neq in E. rewrite IH.
      destruct (decide (x ∈ keys)) as [Hin|Hin].
      * rewrite (decide_True (P := x ∈ k :: keys)) by (by right). simpl.
        by rewrite (decide_False (P := k = x)).
      * rewrite (decide_False (P := x ∈ k :: keys))
          by (intros [->|?]%elem_of_cons; done).
        simpl. by rewrite (decide_False (P := k = x)).
Qed.

Lemma Counter_tally (ss keys : list string) (cnt : string -> Z) :
  NoDup keys ->
  exists keys' cnt',
    fold_left (fun acc k => c <-? acc ;;
                            if hashable k then Ok (counter_add k c)
                            else Raise (TypeError "unhashable type"))
              (map JStr ss) (Ok (tally keys cnt))
    = Ok (tally keys' cnt') /\
    NoDup keys' /\ (forall s, s ∈ keys' <-> s ∈ keys \/ s ∈ ss) /\
    forall s, s ∈ keys' ->
              cnt' s = (if decide (s ∈ keys) then cnt s else 0) + occurrences s ss.
Proof.
  revert keys cnt. induction ss as [|x ss IH]; intros keys cnt Hnd.
  - exists keys, cnt. split_and!; [done|done| |].
    + intros s. rewrite elem_of_nil. tauto.
    + intros s Hs. rewrite decide_True by done. unfold occurrences. simpl. lia.
  - simpl. rewrite counter_add_tally by done.
    destruct (decide (x ∈ keys)) as [Hin|Hin].
    + destruct (IH keys (fun s => if decide (s = x) then cnt s + 1 else cnt s) Hnd)
        as (keys' & cnt' & -> & Hnd' & Hmem & Hcnt).
      exists keys', cnt'. split_and!; [done|done| |].
      * intros s. rewrite Hmem, elem_of_cons.
        split; [tauto|]. intros [?|[->|?]]; tauto.
      * intros s Hs. rewrite (Hcnt s Hs). unfold occurrences. rewrite filter_cons.
        destruct (decide (s ∈ keys)) as [Hs'|Hs'].
        -- destruct (decide (s = x)) as [->|Hne].
           ++ rewrite decide_True by done. simpl. lia.
           ++ rewrite decide_False by done. done.
        -- rewrite decide_False; [done|]. by intros ->.
    + destruct (IH (keys ++ [x])%list (fun s => if decide (s = x) then 1 else cnt s))
        as (keys' & cnt' & -> & Hnd' & Hmem & Hcnt).
      { apply NoDup_app. split_and!; [done| |apply NoDup_singleton].
        intros s Hs ->%list_elem_of_singleton. done. }
      exists keys', cnt'. split_and!; [done|done| |].
      * intros s. rewrite Hmem, elem_of_app, list_elem_of_singleton, elem_of_cons. tauto.
      * intros s Hs. rewrite (Hcnt s Hs). unfold occurrences. rewrite filter_cons.
        destruct (decide (s = x)) as [->|Hne].
        -- rewrite decide_True by (apply elem_of_app; right; by left).
           rewrite decide_False by done. rewrite decide_True by done. simpl. lia.
        -- rewrite (decide_False (P := x = s)) by done.
           destruct (decide (s ∈ keys)) as [Hs'|Hs'].
           ++ rewrite decide_True; [done|]. apply elem_of_app. by left.
           ++ rewrite decide_False; [done|].
              intros [?|?%list_elem_of_singleton]%elem_of_app; done.
Qed.

Lemma statuses_of_jobs (jobs : list (list (string * json))) :
  Forall (fun j => exists s, dict_get "status" j = Some (JStr s)) jobs ->
  exists ss, omap (fun j => job_get j "status") jobs = Ok (map JStr ss) /\
             (forall s, s ∈ ss <-> exists j, j ∈ jobs /\ dict_get "status" j = Some (JStr s)) /\
             forall s, occurrences s ss = status_count s jobs.
Proof.
  induction 1 as [|j jobs [t Ht] _ (ss & Homap & Hmem & Hcnt)].
  - exists []. split_and!; [done| |done].
    intros s. split; [by intros ?%elem_of_nil|]. by intros (j & ?%elem_of_nil & _).
  - exists (t :: ss). split_and!.
    + simpl. unfold job_get at 1. rewrite Ht. simpl. by rewrite Homap.
    + intros s. rewrite elem_of_cons, Hmem. split.
      * intros [->|(j' & Hj' & Hs)]; [exists j; split; [left|done]|].
        exists j'. split; [by right | done].
      * intros (j' & [->|Hj']%elem_of_cons & Hs); [left; congruence|]. right. eauto.
    + intros s. specialize (Hcnt s). unfold occurrences, status_count in *.
      rewrite !filter_cons.
      assert (has_status s j = String.eqb t s) as Hjs.
      { unfold has_status. by rewrite Ht. }
      destruct (decide (t = s)) as [->|Hne].
      * rewrite decide_True by (by rewrite Hjs, String.eqb_refl). simpl. lia.
      * rewrite decide_False; [done|]. rewrite Hjs. by intros ?%String.eqb_eq.
Qed.

(** When the [status] of every job is a string, [print_status] returns
    normally and prints the heading, a bar, one cell per distinct status and
    an empty line end.  No status has two cells, the count of a cell is the
    number of jobs with that status, and nothing but the console changes. *)
Theorem print_status_counts_jobs (w : world) :
  Forall (fun j => exists s, dict_get "status" j = Some (JStr s)) (td_jobs w) ->
  exists statuses,
    NoDup statuses /\
    (forall s, s ∈ statuses <->
               exists j, j ∈ td_jobs w /\ dict_get "status" j = Some (JStr s)) /\
    print_status w
    = (Ok tt,
       {| td_jobs := td_jobs w; files := files w; dirs := dirs w;
          stdout := stdout w
                    ++ [Line "< Current Status >"; Text "|"]
                    ++ map (fun s => Text (rjust 15 s +:+ ": "
                                           +:+ ljust 5 (pretty (status_count s (td_jobs w)))
                                           +:+ "|")) statuses
                    ++ [Line ""];
          requests := requests w |}).
Proof.
  intros H. destruct (statuses_of_jobs _ H) as (ss & Homap & Hmem & Hcnt).
  destruct (Counter_tally ss [] (fun _ => 0) NoDup_nil_2)
    as (keys & cnt & HC & Hnd & Hkeys & Hkcnt).
  change (tally [] (fun _ : string => 0)) with (@nil (json * Z)) in HC.
  exists keys. split_and!; [done| |].
  { intros s. rewrite Hkeys, <- Hmem. rewrite elem_of_nil. tauto. }
  unfold print_status.
  erewrite bind_run; [|reflexivity]. erewrite bind_run; [|reflexivity].
  erewrite bind_run; [|reflexivity].
  erewrite bind_run; [|unfold lift; simpl; rewrite Homap; reflexivity].
  erewrite bind_run; [|unfold lift, Counter; rewrite HC; reflexivity].
  rewrite (tally_ext keys cnt (fun s => status_count s (td_jobs w))).
  2:{ intros s Hs. rewrite (Hkcnt s Hs), <- Hcnt.
      rewrite decide_False by (by intros ?%elem_of_nil). lia. }
  unfold tally.
  erewrite bind_run.
  2:{ apply (for_each_print _ _
               (fun sn => match fst sn with
                          | JStr status =>
                              Text (rjust 15 status +:+ ": " +:+ ljust 5 (pretty (snd sn))
                                    +:+ "|")
                          | _ => Line ""
                          end)).
      intros [k n] w0 (s & [= -> ->] & _)%list_elem_of_fmap. done. }
  unfold print. simpl. rewrite map_map. simpl.
  rewrite <- !app_assoc. done.
Qed.

(** Two complete jobs around a job in error. *)
Lemma print_status_counts_jobs_witness :
  let jobs := [sample_job "ethane_a" "COMPLETE" (JStr "7");
               sample_job "ethane_b" "ERROR" (JStr "8");
               sample_job "ethane_c" "COMPLETE" JNull] in
  let w := sample_world jobs None in
  exists statuses,
    NoDup statuses /\
    (forall s, s ∈ statuses <->
               exists j, j ∈ td_jobs w /\ dict_get "status" j = Some (JStr s)) /\
    print_status w
    = (Ok tt,
       {| td_jobs := td_jobs w; files := files w; dirs := dirs w;
          stdout := stdout w
                    ++ [Line "< Current Status >"; Text "|"]
                    ++ map (fun s => Text (rjust 15 s +:+ ": "
                                           +:+ ljust 5 (pretty (status_count s (td_jobs w)))
                                           +:+ "|")) statuses
                    ++ [Line ""];
          requests := requests w |}).
Proof.
  intros jobs w. apply (print_status_counts_jobs w).
  repeat constructor; by eexists.
Defined.

(** ** print_progress *)

(** With no job at all, [print_progress] prints its heading and raises
    [ValueError]: the maximum of an empty array is not defined. *)
Theorem print_progress_without_jobs (fmt_percent : Z -> Z -> string) (w : world) :
  td_jobs w = [] ->
  exists msg,
    print_progress fmt_percent w
    = (Raise (ValueError msg),
       {| td_jobs := []; files := files w; dirs := dirs w;
          stdout := stdout w ++ [Line "< Progress of Total 0 Jobs >"];
          requests := requests w |}).
Proof.
  intros H. unfold print_progress, bind, get_jobs, print, lift. rewrite H. simpl.
  by eexists.
Qed.

(** A monitor whose checkpoint held no dihedral. *)
Lemma print_progress_without_jobs_witness :
  exists msg,
    print_progress (fun a b => pretty (a * 100 / b)) (sample_world [] None)
    = (Raise (ValueError msg),
       {| td_jobs := []; files := ∅; dirs := ∅;
          stdout := [] ++ [Line "< Progress of Total 0 Jobs >"];
          requests := [] |}).
Proof.
  apply (print_progress_without_jobs (fun a b => pretty (a * 100 / b))
           (sample_world [] None)).
  reflexivity.
Defined.

Lemma omap_stops {A B} (f : A -> outcome B) (l1 l2 : list A) (x : A) (e : exn) :
  (forall a, a ∈ l1 -> exists b, f a = Ok b) -> f x = Raise e ->
  omap f (l1 ++ x :: l2) = Raise e.
Proof.
  intros H Hx. induction l1 as [|a l1 IH]; simpl.
  - by rewrite Hx.
  - destruct (H a) as [b ->]; [left|]. simpl. rewrite IH; [done|].
    intros a' Ha'. apply H. by right.
Qed.

(** [print_progress] reads the [progress] of every job, and no method sets
    it but [get_update], for the jobs a record came back for.  At the first
    job without a [progress], the jobs before it having an integer one,
    [print_progress] prints its heading and raises [KeyError]. *)
Theorem print_progress_needs_progress_of_every_job (fmt_percent : Z -> Z -> string)
    (w : world) (before after : list (list (string * json))) (j : list (string * json)) :
  td_jobs w = (before ++ j :: after)%list ->
  Forall (fun j => exists n, dict_get "progress" j = Some (JInt n)) before ->
  dict_get "progress" j = None ->
  print_progress fmt_percent w
  = (Raise (KeyError (JStr "progress")),
     {| td_jobs := td_jobs w; files := files w; dirs := dirs w;
        stdout := stdout w ++ [Line ("< Progress of Total "
                                     +:+ pretty (Z.of_nat (length (td_jobs w)))
                                     +:+ " Jobs >")];
        requests := requests w |}).
Proof.
  intros Hjobs Hbefore Hj. unfold print_progress.
  erewrite bind_run; [|reflexivity]. erewrite bind_run; [|reflexivity].
  erewrite bind_run_raise; [reflexivity|]. unfold lift. rewrite Hjobs at 1.
  rewrite (omap_stops progress_of before after j (KeyError (JStr "progress"))); [done| |].
  - intros a Ha. rewrite Forall_forall in Hbefore. destruct (Hbefore a Ha) as [n Hn].
    exists n. unfold progress_of, job_get. by rewrite Hn.
  - unfold progress_of, job_get. by rewrite Hj.
Qed.

(** A job that [get_update] has updated and a job without an id, which it
    never touches. *)
Lemma print_progress_needs_progress_of_every_job_witness :
  let a := dict_set "progress" (JInt 24) (sample_job "ethane_a" "COMPLETE" (JStr "7")) in
  let b := sample_job "ethane_b" "submitted" JNull in
  let w := sample_world [a; b] None in
  print_progress (fun a b => pretty (a * 100 / b)) w
  = (Raise (KeyError (JStr "progress")),
     {| td_jobs := td_jobs w; files := files w; dirs := dirs w;
        stdout := stdout w ++ [Line ("< Progress of Total "
                                     +:+ pretty (Z.of_nat (length (td_jobs w)))
                                     +:+ " Jobs >")];
        requests := requests w |}).
Proof.
  intros a b w.
  apply (print_progress_needs_progress_of_every_job _ w [a] [] b).
  - reflexivity.
  - repeat constructor. by eexists.
  - reflexivity.
Defined.














(** * The materializer, job after job *)

#[export] Instance files_grow_preorder : PreOrder files_grow.
Proof.
  split.
  - intros w. by repeat split.
  - intros a b c (R1 & D1 & F1) (R2 & D2 & F2).
    split_and!; [congruence|set_solver|auto].
Qed.


Lemma job_set_files_grow p k v : keeps files_grow (job_set p k v).
Proof. intros w. by repeat split. Qed.

Lemma mkdir_files_grow p : keeps files_grow (mkdir p).
Proof. intros w. split_and!; simpl; [done|set_solver|done]. Qed.






Section MarkDownloaded.

Context {float : Type}.
Variable num : @Numerics float.
Variable self : @TorsionMonitor float.




End MarkDownloaded.

#[export] Instance same_file_preorder p : PreOrder (same_file p).
Proof. split; [done|]. intros a b c. unfold same_file. congruence. Qed.

Lemma write_file_same_file (p q : string) (f : file) :
  q <> p -> keeps (same_file p) (write_file q f).
Proof. intros Hne w. unfold same_file. simpl. by rewrite lookup_insert_ne. Qed.

Lemma file_write_same_file (p q s : string) :
  q <> p -> keeps (same_file p) (file_write q s).
Proof. intros Hne w. unfold file_write. by apply write_file_same_file. Qed.











Section DownloadLoop.

Context {float : Type}.
Variable num : @Numerics float.
Variable self : @TorsionMonitor float.
Variable d : list (json * nat).
Variable n : nat.




End DownloadLoop.



(** ** Line 148: which jobs are asked for *)

Lemma build_d_complete_get (jobs : list (list (string * json))) :
  forall s d0 d k,
    build_d_complete s jobs d0 = Ok d ->
    id_dict_get k d = match find_complete k jobs with
                      | Some p => Some (s + p)%nat
                      | None => id_dict_get k d0
                      end.
Proof.
  induction jobs as [|j jobs IH]; intros s d0 d k; simpl.
  - by intros [= ->].
  - unfold job_get, has_status. destruct (dict_get "status" j) as [st|]; [|done]. simpl.
    destruct (eq_str st "COMPLETE"); simpl.
    + destruct (dict_get "id" j) as [v|]; [|done]. simpl.
      destruct (hashable v); [|done]. intros H. rewrite (IH _ _ _ k H).
      destruct (find_complete k jobs) as [p|]; [f_equal; lia|].
      rewrite id_dict_get_set. destruct (key_eqb k v); [f_equal; lia | done].
    + intros H. rewrite (IH _ _ _ k H).
      destruct (find_complete k jobs) as [p|]; [f_equal; lia|].
      by destruct (dict_get "id" j).
Qed.

Lemma build_d_complete_nodup (jobs : list (list (string * json))) :
  forall s d0 d,
    build_d_complete s jobs d0 = Ok d -> id_dict_nodup d0 -> id_dict_nodup d.
Proof.
  induction jobs as [|j jobs IH]; intros s d0 d; simpl.
  - by intros [= ->].
  - unfold job_get. destruct (dict_get "status" j) as [st|]; [|done]. simpl.
    destruct (eq_str st "COMPLETE"); [|by apply IH].
    destruct (dict_get "id" j) as [v|]; [|done]. simpl.
    destruct (hashable v) eqn:Hv; [|done].
    intros H Hd0. eapply IH; [exact H|]. by apply id_dict_set_nodup.
Qed.

Lemma find_complete_spec (k : json) (jobs : list (list (string * json))) (p : nat) :
  find_complete k jobs = Some p <->
  exists j v, jobs !! p = Some j /\ has_status "COMPLETE" j = true /\
              dict_get "id" j = Some v /\ key_eqb k v = true /\
              forall q j' v', (p < q)%nat -> jobs !! q = Some j' ->
                              has_status "COMPLETE" j' = true ->
                              dict_get "id" j' = Some v' -> key_eqb k v' = false.
Proof.
  revert p. induction jobs as [|j jobs IH]; intros p; simpl.
  - split; [done|]. by intros (j & v & ? & _).
  - destruct (find_complete k jobs) as [p'|] eqn:Hf.
    + split.
      * intros [= <-]. destruct (proj1 (IH p') eq_refl) as (j0 & v & Hj0 & Hc & Hv & Hk & Hlast).
        exists j0, v. split_and!; try done.
        intros [|q] j' v' Hq; [lia|]. simpl. apply Hlast. lia.
      * intros (j0 & v & Hj0 & Hc & Hv & Hk & Hlast). destruct p as [|p].
        -- destruct (proj1 (IH p') eq_refl) as (j1 & v1 & Hj1 & Hc1 & Hv1 & Hk1 & _).
           rewrite (Hlast (S p') j1 v1) in Hk1; [done|lia|done..].
        -- f_equal. assert (Some p' = Some p) as [= ->]; [|done].
           apply IH. exists j0, v. split_and!; try done.
           intros q j' v' Hq. apply (Hlast (S q)). lia.
    + split.
      * destruct (dict_get "id" j) as [v|] eqn:Hv; [|done].
        destruct (has_status "COMPLETE" j) eqn:Hc; [|done]. simpl.
        destruct (key_eqb k v) eqn:Hk; [|done]. intros [= <-].
        exists j, v. split_and!; try done.
        intros [|q] j' v' Hq Hj' Hc' Hv'; [lia|]. simpl in Hj'.
        destruct (key_eqb k v') eqn:Hk'; [|done].
        assert (is_Some (find_complete k jobs)) as [? Hs]; [|by rewrite Hf in Hs].
        clear -Hj' Hc' Hv' Hk'. revert q Hj'.
        induction jobs as [|j0 jobs IHj]; intros q Hq; [done|]. simpl.
        destruct q as [|q]; simpl in Hq.
        -- injection Hq as ->. destruct (find_complete k jobs); [eauto|].
           rewrite Hv', Hc', Hk'. simpl. eauto.
        -- destruct (IHj q Hq) as [x ->]. eauto.
      * intros (j0 & v & Hj0 & Hc & Hv & Hk & Hlast). destruct p as [|p].
        -- simpl in Hj0. injection Hj0 as ->. by rewrite Hv, Hc, Hk.
        -- simpl in Hj0. assert (None = Some p) as Hp; [|done].
           apply IH. exists j0, v. split_and!; try done.
           intros q j' v' Hq. apply (Hlast (S q)). lia.
Qed.

Lemma download_record_same_requests {float} (num : @Numerics float)
    (self : @TorsionMonitor float) (d : list (json * nat)) (n : nat)
    (ir : nat * @TDRecord float) (energy : option float) :
  keeps same_requests (download_record num self d n ir energy).
Proof.
  unfold download_record. keeps_by keeps_bind_lift. intros j _.
  keeps_by keeps_bind; [keeps_by keeps_job_at|]. intros name.
  keeps_by keeps_bind; [apply print_same_requests|]. intros _.
  keeps_by keeps_bind; [keeps_by keeps_job_at|]. intros mol.
  keeps_by keeps_bind_lift. intros mol_name _.
  keeps_by keeps_bind; [keeps_by keeps_path_exists|]. intros present.
  keeps_by keeps_bind; [by destruct present|]. intros _.
  keeps_by keeps_bind; [keeps_by keeps_job_at|]. intros name'.
  keeps_by keeps_bind_lift. intros name'' _.
  keeps_by keeps_bind; [done|]. intros _.
  keeps_by keeps_bind.
  { keeps_by keeps_for_fold. intros g s _. keeps_by keeps_bind_lift. intros b _.
    keeps_by keeps_bind; [done|]. intros _. keeps_by keeps_ret. }
  intros energy'. keeps_by keeps_bind.
  { unfold plot_1d_energies. destruct (get_final_energies _); [apply print_same_requests|].
    keeps_by keeps_bind_lift. intros x _. keeps_by keeps_bind_lift. intros y _. done. }
  intros _. keeps_by keeps_bind; [done|]. intros _.
  keeps_by keeps_bind.
  { keeps_by keeps_for_each. intros g _. keeps_by keeps_bind_lift. intros b _. done. }
  intros _. keeps_by keeps_bind; [apply job_set_same_requests|]. intros _.
  keeps_by keeps_bind; [apply job_set_same_requests|]. intros _.
  keeps_by keeps_ret.
Qed.

Lemma download_complete_start_requests {float} (self : @TorsionMonitor float)
    (w : world) (d : list (json * nat)) :
  build_d_complete 0 (td_jobs w) [] = Ok d ->
  requests (download_complete_start self w).2
  = (requests w ++ [ReqProcedures (map fst d)])%list.
Proof.
  intros Hd. unfold download_complete_start, bind, path_exists, get_jobs, lift.
  destruct (_ || _); simpl; rewrite Hd; simpl;
    by destruct (query_procedures (client self) (map fst d)).
Qed.

(** [download_complete] asks the server once, for the ids of the jobs whose
    [status] is COMPLETE, whether it then returns or raises.  The ids are the
    keys of [d_complete_id_jobs]: no two of them are equal, a key is there for
    every COMPLETE job, whatever its [id] is ([None] as well: line 148 does
    not look at the truth value, as line 73 does), and under a key stands the
    last COMPLETE job with that [id]. *)
Theorem download_complete_asks_for_complete_jobs {float} (num : @Numerics float)
    (self : @TorsionMonitor float) (w : world) (d : list (json * nat)) :
  build_d_complete 0 (td_jobs w) [] = Ok d ->
  requests (download_complete num self w).2
  = (requests w ++ [ReqProcedures (map fst d)])%list /\
  id_dict_nodup d /\
  (forall v, v ∈ map fst d -> is_Some (id_dict_get v d)) /\
  forall k p,
    id_dict_get k d = Some p <->
    exists j v, td_jobs w !! p = Some j /\ has_status "COMPLETE" j = true /\
                dict_get "id" j = Some v /\ key_eqb k v = true /\
                forall q j' v', (p < q)%nat -> td_jobs w !! q = Some j' ->
                                has_status "COMPLETE" j' = true ->
                                dict_get "id" j' = Some v' -> key_eqb k v' = false.
Proof.
  intros Hd.
  assert (id_dict_nodup d) as Hnd by (by eapply build_d_complete_nodup).
  split_and!; [|done| |].
  - pose proof (download_complete_start_requests self w d Hd) as Hreq.
    rewrite download_complete_split.
    destruct (download_complete_start self w) as [[[d' records]|e] w0]; [|done].
    simpl in Hreq. rewrite <- Hreq.
    match goal with
    | |- requests (?m w0).2 = _ => assert (keeps same_requests m) as Hk
    end; [|exact (Hk w0)].
    keeps_by keeps_bind.
    { keeps_by keeps_for_fold. intros ir s _. apply download_record_same_requests. }
    intros _. keeps_by keeps_bind; [done|]. intros _.
    keeps_by keeps_bind; [keeps_by keeps_get_jobs|]. intros jobs.
    keeps_by keeps_bind_lift. intros dl _. done.
  - intros v ([v' p] & -> & Hin)%list_elem_of_fmap. simpl.
    rewrite (id_dict_nodup_get d v' p Hnd Hin). eauto.
  - intros k p. rewrite (build_d_complete_get _ _ _ _ k Hd). simpl.
    rewrite <- find_complete_spec.
    destruct (find_complete k (td_jobs w)); [|done].
    split; intros [= ->]; done.
Qed.

(** Two complete jobs, one of them without an id, and a job in error: the
    ids asked for are 7 and [None]. *)
Lemma download_complete_asks_for_complete_jobs_witness :
  let jobs := [sample_job "ethane_a" "COMPLETE" (JStr "7");
               sample_job "ethane_b" "ERROR" (JStr "8");
               sample_job "ethane_c" "COMPLETE" JNull] in
  let w := sample_world jobs None in
  let d := [(JStr "7", 0%nat); (JNull, 2%nat)] in
  requests (download_complete sample_numerics (sample_monitor honest_client) w).2
  = (requests w ++ [ReqProcedures (map fst d)])%list /\
  id_dict_nodup d /\
  (forall v, v ∈ map fst d -> is_Some (id_dict_get v d)) /\
  forall k p,
    id_dict_get k d = Some p <->
    exists j v, td_jobs w !! p = Some j /\ has_status "COMPLETE" j = true /\
                dict_get "id" j = Some v /\ key_eqb k v = true /\
                forall q j' v', (p < q)%nat -> td_jobs w !! q = Some j' ->
                                has_status "COMPLETE" j' = true ->
                                dict_get "id" j' = Some v' -> key_eqb k v' = false.
Proof.
  intros jobs w d.
  apply (download_complete_asks_for_complete_jobs sample_numerics
           (sample_monitor honest_client) w d).
  reflexivity.
Defined.




(** ** A pass that fails *)

Lemma last_char_app (x t : string) (c : ascii) :
  last_char t = Some c -> last_char (x +:+ t) = Some c.
Proof.
  unfold last_char. intros Ht. induction x as [|a x IH]; simpl; [done|].
  rewrite last_cons, IH. done.
Qed.

Lemma path_join_last_char (a b : string) (c : ascii) :
  last_char b = Some c -> last_char (path_join a b) = Some c.
Proof.
  intros Hb. unfold path_join.
  assert (last_char match last (list_ascii_of_string a) with
                    | Some "/"%char | None => a +:+ b
                    | Some _ => a +:+ "/" +:+ b
                    end = Some c) as H.
  { destruct (last (list_ascii_of_string a)) as [x|]; [|by apply last_char_app].
    destruct (Ascii.eqb x "/") eqn:E.
    - apply Ascii.eqb_eq in E as ->. by apply last_char_app.
    - assert (last_char (a +:+ "/" +:+ b) = Some c) as H
        by (by apply last_char_app, last_char_app).
      destruct x as [[] [] [] [] [] [] [] []]; first [exact H | done]. }
  destruct b as [|x b']; [done|].
  destruct (Ascii.eqb x "/") eqn:E.
  - apply Ascii.eqb_eq in E as ->. done.
  - destruct x as [[] [] [] [] [] [] [] []]; first [exact H | done].
Qed.

Lemma output_path_not_json (p folder name ext : string) (c : ascii) :
  last_char p = Some "n"%char -> last_char ext = Some c -> c <> "n"%char ->
  path_join folder (name +:+ ext) <> p.
Proof.
  intros Hp Hext Hc E. rewrite <- E in Hp.
  rewrite (path_join_last_char folder (name +:+ ext) c) in Hp
    by (by apply last_char_app).
  by injection Hp.
Qed.

Lemma download_record_same_file {float} (num : @Numerics float)
    (self : @TorsionMonitor float) (d : list (json * nat)) (n : nat)
    (ir : nat * @TDRecord float) (energy : option float) (p : string) :
  last_char p = Some "n"%char ->
  keeps (same_file p) (download_record num self d n ir energy).
Proof.
  intros Hp. unfold download_record. keeps_by keeps_bind_lift. intros j _.
  keeps_by keeps_bind; [keeps_by keeps_job_at|]. intros name.
  keeps_by keeps_bind; [done|]. intros _.
  keeps_by keeps_bind; [keeps_by keeps_job_at|]. intros mol.
  keeps_by keeps_bind_lift. intros mol_name _.
  keeps_by keeps_bind; [keeps_by keeps_path_exists|]. intros present.
  keeps_by keeps_bind; [by destruct present|]. intros _.
  keeps_by keeps_bind; [keeps_by keeps_job_at|]. intros name'.
  keeps_by keeps_bind_lift. intros name'' _.
  assert (forall ext c, last_char ext = Some c -> c <> "n"%char ->
            path_join (path_join (out_folder self) mol_name) (name'' +:+ ext) <> p)
    as Hout.
  { intros ext c. by apply output_path_not_json. }
  keeps_by keeps_bind.
  { apply write_file_same_file. by apply (Hout ".xyz" "z"%char). }
  intros _. keeps_by keeps_bind.
  { keeps_by keeps_for_fold. intros g s _. keeps_by keeps_bind_lift. intros b _.
    keeps_by keeps_bind; [|intros _; keeps_by keeps_ret].
    apply file_write_same_file. by apply (Hout ".xyz" "z"%char). }
  intros energy'. keeps_by keeps_bind.
  { unfold plot_1d_energies. destruct (get_final_energies _); [done|].
    keeps_by keeps_bind_lift. intros x _. keeps_by keeps_bind_lift. intros y _.
    apply write_file_same_file. by apply (Hout ".pdf" "f"%char). }
  intros _. keeps_by keeps_bind.
  { apply write_file_same_file. by apply (Hout ".gradxyz" "z"%char). }
  intros _. keeps_by keeps_bind.
  { keeps_by keeps_for_each. intros g _. keeps_by keeps_bind_lift. intros b _.
    apply file_write_same_file. by apply (Hout ".gradxyz" "z"%char). }
  intros _. keeps_by keeps_bind; [done|]. intros _.
  keeps_by keeps_bind; [done|]. intros _. keeps_by keeps_ret.
Qed.

Lemma download_record_grows {float} (num : @Numerics float)
    (self : @TorsionMonitor float) (d : list (json * nat)) (n : nat)
    (ir : nat * @TDRecord float) (energy : option float) :
  keeps grows (download_record num self d n ir energy).
Proof.
  assert (forall p f, keeps grows (write_file p f)) as Hw.
  { intros p f w. split; [done|]. by intros q. }
  assert (forall p s, keeps grows (file_write p s)) as Hfw.
  { intros p s w. apply Hw. }
  unfold download_record. keeps_by keeps_bind_lift. intros j _.
  keeps_by keeps_bind; [keeps_by keeps_job_at|]. intros name.
  keeps_by keeps_bind; [apply print_grows|]. intros _.
  keeps_by keeps_bind; [keeps_by keeps_job_at|]. intros mol.
  keeps_by keeps_bind_lift. intros mol_name _.
  keeps_by keeps_bind; [keeps_by keeps_path_exists|]. intros present.
  keeps_by keeps_bind.
  { destruct present; [keeps_by keeps_ret|]. intros w. split; [done|]. by intros q. }
  intros _. keeps_by keeps_bind; [keeps_by keeps_job_at|]. intros name'.
  keeps_by keeps_bind_lift. intros name'' _.
  keeps_by keeps_bind; [apply Hw|]. intros _.
  keeps_by keeps_bind.
  { keeps_by keeps_for_fold. intros g s _. keeps_by keeps_bind_lift. intros b _.
    keeps_by keeps_bind; [apply Hfw|]. intros _. keeps_by keeps_ret. }
  intros energy'. keeps_by keeps_bind.
  { unfold plot_1d_energies. destruct (get_final_energies _); [apply print_grows|].
    keeps_by keeps_bind_lift. intros x _. keeps_by keeps_bind_lift. intros y _.
    apply Hw. }
  intros _. keeps_by keeps_bind; [apply Hw|]. intros _.
  keeps_by keeps_bind.
  { keeps_by keeps_for_each. intros g _. keeps_by keeps_bind_lift. intros b _.
    apply Hfw. }
  intros _. keeps_by keeps_bind; [by apply job_set_grows|]. intros _.
  keeps_by keeps_bind; [by apply job_set_grows|]. intros _. keeps_by keeps_ret.
Qed.

Lemma build_d_complete_status (jobs : list (list (string * json))) :
  forall s d0 d, build_d_complete s jobs d0 = Ok d ->
                 Forall (fun j => is_Some (dict_get "status" j)) jobs.
Proof.
  induction jobs as [|j jobs IH]; intros s d0 d; simpl; [constructor|].
  unfold job_get. destruct (dict_get "status" j) as [st|] eqn:Hst; [|done]. simpl.
  intros H. constructor; [eauto|].
  destruct (eq_str st "COMPLETE"); [|by eapply IH].
  destruct (dict_get "id" j) as [v|]; [|done]. simpl in H.
  destruct (hashable v); [by eapply IH | done].
Qed.

(** The ledger is written last, and only by a pass that has gone through:
    when [download_complete] raises, wherever that happens, the ledger file is
    what it was before the call (the jobs that this pass marked DOWNLOADED in
    memory are not in it).  The ledger is the file downloaded.json of the
    output folder, as the constructor sets it. *)
Theorem download_complete_failure_keeps_the_ledger {float} (num : @Numerics float)
    (self : @TorsionMonitor float) (w : world) (e : exn) :
  downloaded_json_fn self = path_join (out_folder self) "downloaded.json" ->
  (download_complete num self w).1 = Raise e ->
  files (download_complete num self w).2 !! downloaded_json_fn self
  = files w !! downloaded_json_fn self.
Proof.
  intros Hfn Hraise.
  assert (last_char (downloaded_json_fn self) = Some "n"%char) as Hlast.
  { rewrite Hfn. by apply path_join_last_char. }
  rewrite download_complete_split in Hraise |- *.
  assert (files (download_complete_start self w).2 = files w /\
          td_jobs (download_complete_start self w).2 = td_jobs w /\
          forall d records, (download_complete_start self w).1 = Ok (d, records) ->
                            build_d_complete 0 (td_jobs w) [] = Ok d)
    as (Hf0 & Htd0 & Hd0).
  { unfold download_complete_start, bind, path_exists, get_jobs, lift.
    destruct (_ || _); simpl;
      (destruct (build_d_complete 0 (td_jobs w) []) as [d|]; simpl; [|done]);
      (destruct (query_procedures (client self) (map fst d)) as [records|]; simpl;
       [|done]); (split_and!; [done..|]); by intros ? ? [= <- <-]. }
  destruct (download_complete_start self w) as [[[d records]|e0] w0]; simpl in *;
    [|by rewrite Hf0].
  specialize (Hd0 d records eq_refl).
  pose proof (keeps_for_fold (same_file (downloaded_json_fn self))
                (enumerate 1 records) (download_record num self d (length d))
                (fun ir s _ => download_record_same_file num self d _ ir s _ Hlast)
                None w0) as Hsame.
  pose proof (keeps_for_fold grows (enumerate 1 records)
                (download_record num self d (length d))
                (fun ir s _ => download_record_grows num self d _ ir s) None w0) as Hg.
  unfold bind at 1 in Hraise. unfold bind at 1.
  destruct (for_fold (enumerate 1 records) None _ w0) as [[e1|e1] w1];
    simpl in Hsame, Hg.
  - exfalso. revert Hraise.
    unfold open_w, write_file, bind, get_jobs, lift. simpl.
    rewrite (jobs_with_status_filter "DOWNLOADED"); [done|].
    apply build_d_complete_status in Hd0. rewrite <- Htd0 in Hd0.
    apply Forall_lookup. intros p j Hj. destruct Hg as [Hlen Hg].
    destruct (Hg p) as [_ Hst].
    rewrite (list_lookup_total_correct _ _ _ Hj) in Hst. apply Hst.
    destruct (lookup_lt_is_Some_2 (td_jobs w0) p) as [j0 Hj0].
    { rewrite <- Hlen. by eapply lookup_lt_Some. }
    rewrite (list_lookup_total_correct _ _ _ Hj0).
    rewrite Forall_lookup in Hd0. by eapply Hd0.
  - simpl. unfold same_file in Hsame. by rewrite Hsame, Hf0.
Qed.

(** The scan of job 7 has a record of the wrong driver: the pass raises and
    the ledger of the run before stays. *)
Lemma download_complete_failure_keeps_the_ledger_witness :
  let record := sample_scan (sample_result "gradient") (sample_result "energy") in
  let self := sample_monitor (scan_client record) in
  let ledger := JList [ledger_entry_of (JStr "6") 24] in
  let w := sample_world [sample_job "ethane_a" "COMPLETE" (JStr "7")] (Some ledger) in
  files (download_complete sample_numerics self w).2 !! "/td_results/downloaded.json"
  = Some (JsonFile ledger).
Proof.
  intros record self ledger w.
  apply (download_complete_failure_keeps_the_ledger sample_numerics self w
           (AssertionError "Wrong job type energy, should be 'gradient'")).
  - reflexivity.
  - reflexivity.
Defined.

(** * The driver *)

#[export] Instance writes_only_preorder p0 : PreOrder (writes_only p0).
Proof.
  split.
  - intros w. by split.
  - intros a b c [D1 F1] [D2 F2]. split; [congruence|].
    intros p Hp. rewrite F2, F1; done.
Qed.

Lemma print_writes_only p0 o : keeps (writes_only p0) (print o).
Proof. intros w. by split. Qed.

Lemma send_writes_only p0 r : keeps (writes_only p0) (send r).
Proof. intros w. by split. Qed.

Lemma job_set_writes_only p0 p k v : keeps (writes_only p0) (job_set p k v).
Proof. intros w. by split. Qed.

Lemma write_file_writes_only p0 f : keeps (writes_only p0) (write_file p0 f).
Proof.
  intros w. split; [done|]. intros p Hp. simpl. by rewrite lookup_insert_ne.
Qed.

Section ReporterKeeps.

Context (R : relation world) `{!PreOrder R}.
Hypothesis R_print : forall o, keeps R (print o).

Lemma print_status_keeps : keeps R print_status.
Proof.
  unfold print_status.
  keeps_by keeps_bind; [apply R_print|]. intros _.
  keeps_by keeps_bind; [apply R_print|]. intros _.
  keeps_by keeps_bind; [keeps_by keeps_get_jobs|]. intros jobs.
  keeps_by keeps_bind_lift. intros statuses _.
  keeps_by keeps_bind_lift. intros counts _.
  keeps_by keeps_bind; [|intros _; apply R_print].
  keeps_by keeps_for_each. intros [k cnt] _. destruct k; simpl;
    first [apply R_print | keeps_by keeps_raise].
Qed.

Lemma print_progress_keeps (fmt_percent : Z -> Z -> string) :
  keeps R (print_progress fmt_percent).
Proof.
  unfold print_progress.
  keeps_by keeps_bind; [keeps_by keeps_get_jobs|]. intros jobs.
  keeps_by keeps_bind; [apply R_print|]. intros _.
  keeps_by keeps_bind_lift. intros data _.
  keeps_by keeps_bind_lift. intros m _.
  keeps_by keeps_bind_lift. intros bw _.
  keeps_by keeps_bind_lift. intros bins _.
  keeps_by keeps_bind; [apply R_print|]. intros _.
  keeps_by keeps_bind; [apply R_print|]. intros _.
  keeps_by keeps_for_each. intros hb _.
  keeps_by keeps_bind_lift. intros x2 _.
  keeps_by keeps_bind.
  { destruct (snd hb =? x2); [keeps_by keeps_lift | keeps_by keeps_ret]. }
  intros e. keeps_by keeps_bind_lift. intros pct _. apply R_print.
Qed.

Hypothesis R_error_file : forall f, keeps R (write_file "monitor_error_jobs.json" f).

Lemma log_error_keeps : keeps R log_error.
Proof.
  unfold log_error. keeps_by keeps_bind; [keeps_by keeps_get_jobs|]. intros jobs.
  keeps_by keeps_bind_lift. intros errs _.
  destruct errs; [keeps_by keeps_ret|].
  keeps_by keeps_bind; [apply R_error_file|]. intros _. apply R_print.
Qed.

End ReporterKeeps.

Lemma omap_progress_of_raises (jobs : list (list (string * json))) (i : nat)
    (j : list (string * json)) :
  jobs !! i = Some j -> dict_get "progress" j = None ->
  exists e, omap progress_of jobs = Raise e.
Proof.
  revert i. induction jobs as [|j0 jobs IH]; intros i Hi Hj; [done|]. simpl.
  destruct (progress_of j0) as [x|e] eqn:E0; [|by eexists]. simpl.
  destruct i as [|i]; simpl in Hi.
  - injection Hi as ->. unfold progress_of, job_get in E0. by rewrite Hj in E0.
  - destruct (IH i Hi Hj) as [e ->]. by eexists.
Qed.

(** With a job that has no id and no [progress], the sequence of [main]
    raises in [print_progress] at the latest. *)
Lemma main_sequence_stops_without_progress {float} (num : @Numerics float)
    (fmt_percent : Z -> Z -> string) (self : @TorsionMonitor float) (w : world)
    (i : nat) (j : list (string * json)) :
  td_jobs w !! i = Some j ->
  (forall v, dict_get "id" j = Some v -> truthy v = false) ->
  dict_get "progress" j = None ->
  exists e w',
    main_sequence num fmt_percent self w = (Raise e, w') /\
    td_jobs w' !! i = Some j /\
    writes_only "monitor_error_jobs.json" w w'.
Proof.
  intros Hj Hid Hprog. unfold main_sequence.
  (* get_update *)
  assert (same_at i w (get_update self w).2) as Hs1.
  { apply (get_update_keeps (same_at i)); [done|done|].
    intros d Hd kid p k v Hp _. apply job_set_same_at. intros ->.
    apply (d_id_jobs_get _ _ _ _ Hd) in Hp.
    apply find_tracked_Some in Hp as (j' & v' & Hj' & Hv' & Ht & _).
    rewrite Hj in Hj'. injection Hj' as <-. rewrite (Hid v' Hv') in Ht. done. }
  assert (writes_only "monitor_error_jobs.json" w (get_update self w).2) as Hf1.
  { apply (get_update_keeps (writes_only _)); [apply print_writes_only|
      apply send_writes_only|]. intros. apply job_set_writes_only. }
  unfold bind at 1. destruct (get_update self w) as [[[]|e1] w1]; simpl in Hs1, Hf1.
  2:{ exists e1, w1. split_and!; [done| |done]. unfold same_at in Hs1. congruence. }
  (* log_error *)
  pose proof (log_error_keeps (same_at i) (print_same_at i) (fun f w0 => eq_refl) w1)
    as Hs2.
  pose proof (log_error_keeps (writes_only "monitor_error_jobs.json")
                (print_writes_only _) (write_file_writes_only _) w1) as Hf2.
  unfold bind at 1. destruct (log_error w1) as [[[]|e2] w2]; simpl in Hs2, Hf2.
  2:{ exists e2, w2. split_and!; [done| |by etrans].
      unfold same_at in *. congruence. }
  (* print_status *)
  pose proof (print_status_keeps (same_at i) (print_same_at i) w2) as Hs3.
  pose proof (print_status_keeps (writes_only "monitor_error_jobs.json")
                (print_writes_only _) w2) as Hf3.
  unfold bind at 1. destruct (print_status w2) as [[[]|e3] w3]; simpl in Hs3, Hf3.
  2:{ exists e3, w3. split_and!; [done| |by repeat (etrans; [eassumption|])].
      unfold same_at in *. congruence. }
  (* print_progress *)
  pose proof (print_progress_keeps (same_at i) (print_same_at i) fmt_percent w3) as Hs4.
  pose proof (print_progress_keeps (writes_only "monitor_error_jobs.json")
                (print_writes_only _) fmt_percent w3) as Hf4.
  assert (td_jobs w3 !! i = Some j) as Hj3 by (unfold same_at in *; congruence).
  destruct (omap_progress_of_raises (td_jobs w3) i j Hj3 Hprog) as [e4 He4].
  assert (exists w4, print_progress fmt_percent w3 = (Raise e4, w4)) as [w4 Hw4].
  { unfold print_progress. erewrite bind_run; [|reflexivity].
    erewrite bind_run; [|reflexivity].
    erewrite bind_run_raise; [|unfold lift; simpl; rewrite He4; reflexivity].
    by eexists. }
  rewrite Hw4 in Hs4, Hf4. simpl in Hs4, Hf4.
  erewrite bind_run_raise; [|exact Hw4].
  exists e4, w4. split_and!; [done|unfold same_at in *; congruence|].
  etrans; [exact Hf1|]. etrans; [exact Hf2|]. etrans; [exact Hf3|]. exact Hf4.
Qed.

(** * The checkpoint loader, field by field *)

#[export] Instance only_prints_preorder : PreOrder only_prints.
Proof.
  split; [done|]. intros a b c (?&?&?&?) (?&?&?&?). split_and!; congruence.
Qed.

Lemma print_only_prints o : keeps only_prints (print o).
Proof. done. Qed.

Lemma make_job_loaded_from (mol_name : string) (ds : list (string * json)) (d : string)
    (e : json) :
  NoDup (map fst ds) -> (d, e) ∈ ds -> wf_dihedral e = true ->
  exists j, make_job mol_name (JObj ds) (JStr d) = Ok j /\ loaded_from (mol_name, d, e) j.
Proof.
  intros Hnd Hin Hwf. unfold make_job. simpl.
  rewrite (dict_get_NoDup ds d e Hnd Hin). simpl.
  destruct e as [| | | | |fields]; try done. simpl in Hwf. simpl.
  destruct (dict_get "status" fields) as [[| | |s| |]|] eqn:Hst; try done. simpl.
  eexists. split; [done|]. exists fields. unfold dict_update. simpl.
  split_and!; [done|..].
  - rewrite !dict_get_set_ne by done. apply dict_get_set_eq.
  - rewrite !dict_get_set_ne by done. apply dict_get_set_eq.
  - rewrite dict_get_set_ne by done. by rewrite dict_get_set_eq.
  - apply dict_get_set_eq.
  - intros k Hk. unfold loader_fields in Hk.
    rewrite !dict_get_set_ne; [done|intros ->; apply Hk..].
    + do 0 right. left.
    + right. left.
    + right. right. left.
    + right. right. right. left.
Qed.

Lemma jobs_of_key_loaded_from (o : list (string * json)) (k : string) (v : json) :
  NoDup (map fst o) -> (k, v) ∈ o ->
  String.eqb k "scan_conf" || wf_molecule v = true ->
  exists jobs,
    jobs_of_key (JObj o) (JStr k) = Ok jobs /\
    if decide (k = "scan_conf") then jobs = []
    else Forall2 loaded_from
           (map (fun de => (mol_name_of k, fst de, snd de)) (dihedral_fields v)) jobs.
Proof.
  intros Hnd Hin Hwf. unfold jobs_of_key. simpl.
  destruct (decide (k = "scan_conf")) as [->|Hk]; [by exists []|].
  apply String.eqb_neq in Hk. rewrite Hk in *. simpl in Hwf.
  rewrite (dict_get_NoDup o k v Hnd Hin). simpl.
  unfold wf_molecule, dihedral_fields in *.
  destruct (subscript v "dihedrals") as [[| | | | |ds]|]; try done. simpl.
  apply andb_prop in Hwf as [Hnd'%bool_decide_eq_true Hall].
  rewrite forallb_forall in Hall.
  destruct (omap_Forall2 (fun kv => JStr (fst kv))
              (make_job (splitext_root (basename k)) (JObj ds))
              (fun de j => loaded_from (mol_name_of k, fst de, snd de) j) ds)
    as (jobs & -> & Hjobs).
  { intros [d e] Hde. simpl. apply (make_job_loaded_from _ ds d e); [done..|].
    apply (Hall (d, e)). by apply list_elem_of_In. }
  exists jobs. split; [done|]. by apply Forall2_fmap_l.
Qed.

Lemma checkpoint_jobs_loaded_from (state : json) :
  wf_checkpoint state = true ->
  exists jobs, checkpoint_jobs state = Ok jobs /\
               Forall2 loaded_from (dihedral_entries state) jobs.
Proof.
  destruct state as [| | | | |o]; try done. simpl.
  intros [Hnd%bool_decide_eq_true Hall]%andb_prop. rewrite forallb_forall in Hall.
  unfold checkpoint_jobs, dihedral_entries, molecule_entries. simpl.
  destruct (omap_Forall2 (fun kv => JStr (fst kv)) (jobs_of_key (JObj o))
              (fun kv jobs =>
                 if decide (fst kv = "scan_conf") then jobs = []
                 else Forall2 loaded_from
                        (map (fun de => (mol_name_of (fst kv), fst de, snd de))
                             (dihedral_fields (snd kv))) jobs) o)
    as (per_key & -> & Hper).
  { intros [k v] Hkv. simpl. apply jobs_of_key_loaded_from; [done..|].
    apply (Hall (k, v)). by apply list_elem_of_In. }
  simpl. eexists. split; [done|]. clear -Hper.
  induction Hper as [|kv jobs o per_key Hkv _ IH]; simpl; [constructor|].
  rewrite filter_cons. destruct (decide (fst kv = "scan_conf")) as [E|E].
  - subst jobs. rewrite decide_False by (intros H; by apply H). done.
  - rewrite decide_True by done. simpl. by apply Forall2_app.
Qed.

(** For a well-formed checkpoint file, the jobs that [load_checkpoint]
    leaves are the dihedral entries in the order of the file, each with the
    four fields of line 31 set: the name and the molecule name, the status of
    the entry, and as [id] the [jobid] of the entry, or [None] when it has
    none.  Every other field of the entry is in the job as it was in the file,
    the [jobid] too, and no [progress] is made up. *)
Theorem load_checkpoint_copies_the_dihedrals (filename : string) (verbose : bool)
    (w : world) (state : json) :
  files w !! filename = Some (JsonFile state) ->
  wf_checkpoint state = true ->
  exists w', load_checkpoint filename verbose w = (Ok tt, w') /\
             Forall2 loaded_from (dihedral_entries state) (td_jobs w') /\
             files w' = files w /\ dirs w' = dirs w /\ requests w' = requests w.
Proof.
  intros Hfile Hwf.
  destruct (checkpoint_jobs_loaded state Hwf) as (jobs & Hjobs & _ & _ & Hst).
  destruct (checkpoint_jobs_loaded_from state Hwf) as (jobs' & Hjobs' & Hfrom).
  rewrite Hjobs in Hjobs'. injection Hjobs' as <-.
  unfold load_checkpoint.
  erewrite bind_run; [|unfold json_load; rewrite Hfile; reflexivity].
  erewrite bind_run; [|unfold lift; rewrite Hjobs; reflexivity].
  erewrite bind_run; [|reflexivity].
  destruct verbose; [|by eexists].
  erewrite bind_run; [|reflexivity].
  match goal with
  | |- context [print_status ?w0] =>
      destruct (print_status_Ok w0 Hst) as [w' Hw'];
      pose proof (print_status_keeps only_prints print_only_prints w0) as Hk
  end.
  rewrite Hw' in Hk. destruct Hk as (Htd & Hf & Hd & Hr). simpl in *.
  exists w'. rewrite Htd. done.
Qed.

(** The sample checkpoint: three dihedrals of two molecules. *)
Lemma load_checkpoint_copies_the_dihedrals_witness :
  let w := {| td_jobs := [];
              files := {[ "torsion_submit_checkpoint.json" := JsonFile sample_checkpoint ]};
              dirs := ∅; stdout := []; requests := [] |} in
  exists w', load_checkpoint "torsion_submit_checkpoint.json" true w = (Ok tt, w') /\
             Forall2 loaded_from (dihedral_entries sample_checkpoint) (td_jobs w') /\
             files w' = files w /\ dirs w' = dirs w /\ requests w' = requests w.
Proof.
  intros w.
  exact (load_checkpoint_copies_the_dihedrals "torsion_submit_checkpoint.json" true w
           sample_checkpoint eq_refl eq_refl).
Defined.

(** * A whole run *)

(** The whole run needs a [progress] in every job.  The loader makes up
    none, [get_update] gives one to the jobs that a record comes back for, and
    it never touches a job without an id.  So when the checkpoint holds a
    dihedral without a [jobid] and without a [progress] (one that was never
    submitted), [main] does not return normally: it raises in
    [print_progress] at the latest, before [download_complete] is reached.
    No directory is made and no file is written but, possibly, the error
    log. *)
Theorem main_needs_progress_of_every_dihedral {float} (num : @Numerics float)
    (fmt_percent : Z -> Z -> string)
    (from_file : string -> outcome (@FractalClient float)) (realpath : string -> string)
    (checkpoint client_config : string) (w : world) (state : json)
    (mol_name d : string) (fields : list (string * json)) :
  files w !! checkpoint = Some (JsonFile state) ->
  wf_checkpoint state = true ->
  (mol_name, d, JObj fields) ∈ dihedral_entries state ->
  (forall v, dict_get "jobid" fields = Some v -> truthy v = false) ->
  dict_get "progress" fields = None ->
  exists e w',
    main num fmt_percent from_file realpath checkpoint client_config w = (Raise e, w') /\
    writes_only "monitor_error_jobs.json" w w'.
Proof.
  intros Hfile Hwf Hin Hid Hprog.
  destruct (checkpoint_jobs_loaded state Hwf) as (jobs & Hjobs & _ & _ & Hst).
  destruct (checkpoint_jobs_loaded_from state Hwf) as (jobs' & Hjobs' & Hfrom).
  rewrite Hjobs in Hjobs'. injection Hjobs' as <-.
  apply list_elem_of_lookup_1 in Hin as [i Hi].
  destruct (Forall2_lookup_l _ _ _ _ _ Hfrom Hi) as (j & Hj & Hload).
  destruct Hload as (fields' & [= <-] & _ & _ & _ & Hjid & Hother).
  assert (dict_get "progress" j = None) as Hjprog.
  { rewrite Hother; [done|]. unfold loader_fields.
    intros H. repeat (apply elem_of_cons in H as [H|H]; [done|]).
    by apply elem_of_nil in H. }
  assert (forall v, dict_get "id" j = Some v -> truthy v = false) as Hjfalsy.
  { intros v. rewrite Hjid. intros [= <-].
    destruct (dict_get "jobid" fields) as [v|]; [by apply Hid | done]. }
  assert (exists w0, load_checkpoint checkpoint true w = (Ok tt, w0) /\
                     td_jobs w0 = jobs /\ files w0 = files w /\ dirs w0 = dirs w)
    as (w0 & Hw0 & Htd0 & Hf0 & Hd0).
  { unfold load_checkpoint.
    erewrite bind_run; [|unfold json_load; rewrite Hfile; reflexivity].
    erewrite bind_run; [|unfold lift; rewrite Hjobs; reflexivity].
    erewrite bind_run; [|reflexivity]. erewrite bind_run; [|reflexivity].
    match goal with
    | |- context [print_status ?w1] =>
        destruct (print_status_Ok w1 Hst) as [w0 Hw0];
        pose proof (print_status_keeps only_prints print_only_prints w1) as Hk
    end.
    rewrite Hw0 in Hk. destruct Hk as (Htd & Hf & Hd & _). simpl in *.
    exists w0. done. }
  unfold main. erewrite bind_run; [|exact Hw0].
  assert (writes_only "monitor_error_jobs.json" w w0) as Hw.
  { split; [done|]. intros p _. by rewrite Hf0. }
  unfold bind at 1, lift. destruct (from_file client_config) as [client|e].
  - match goal with
    | |- context [main_sequence num fmt_percent ?self w0] =>
        destruct (main_sequence_stops_without_progress num fmt_percent self w0 i j)
          as (e & w' & Hrun & _ & Hw'); [by rewrite Htd0|done|done|]
    end.
    exists e, w'. split; [done | by etrans].
  - by exists e, w0.
Qed.

(** The sample checkpoint: its second dihedral has a status and nothing
    else. *)
Lemma main_needs_progress_of_every_dihedral_witness :
  let w := {| td_jobs := [];
              files := {[ "torsion_submit_checkpoint.json" := JsonFile sample_checkpoint ]};
              dirs := ∅; stdout := []; requests := [] |} in
  exists e w',
    main sample_numerics (fun x y => pretty (x * 100 / y)) (fun _ => Ok honest_client)
      (fun p => "/" +:+ p) "torsion_submit_checkpoint.json" "client_config.yaml" w
    = (Raise e, w') /\
    writes_only "monitor_error_jobs.json" w w'.
Proof.
  intros w.
  apply (main_needs_progress_of_every_dihedral sample_numerics _ _ _
           "torsion_submit_checkpoint.json" "client_config.yaml" w sample_checkpoint
           "ethane" "1-2-3-4" [("status", JStr "submitted")]).
  - reflexivity.
  - reflexivity.
  - right. left.
  - intros v [=].
  - reflexivity.
Defined.

(** * sync_from_dataset *)

Lemma sync_job_run (data_dict : list (json * option DatasetRecord)) (i : nat) (w : world) :
  syncable data_dict (td_jobs w !!! i) ->
  sync_job data_dict i w
  = (Ok tt, {| td_jobs := alter (synced data_dict) i (td_jobs w); files := files w;
               dirs := dirs w; stdout := stdout w; requests := requests w |}).
Proof.
  intros Hok. unfold sync_job, bind, get_jobs.
  assert (forall f : list (string * json) -> list (string * json),
            f (td_jobs w !!! i) = td_jobs w !!! i ->
            (Ok tt, w) = (Ok tt, {| td_jobs := alter f i (td_jobs w); files := files w;
                                    dirs := dirs w; stdout := stdout w;
                                    requests := requests w |})) as Hsame.
  { intros f Hf. f_equal. destruct w as [l ? ? ? ?]. simpl in *. f_equal.
    apply list_eq. intros p. rewrite list_lookup_alter.
    destruct (decide (i = p)) as [->|]; [|done].
    destruct (l !! p) as [x|] eqn:Hx; [|done]. simpl.
    rewrite (list_lookup_total_correct _ _ _ Hx) in Hf. by rewrite Hf. }
  unfold syncable in Hok. unfold synced at 1.
  destruct (dict_get "canonical_torsion_label" (td_jobs w !!! i)) as [label|] eqn:Hl.
  - destruct (Hok label eq_refl) as [-> Hcell].
    destruct (label_get label data_dict) as [[record|]|] eqn:Hc; [|done|].
    + unfold job_set, ret. simpl. f_equal. f_equal.
      rewrite list_alter_alter_eq. apply list_alter_ext; [|done].
      intros x Hx. apply list_lookup_total_correct in Hx. rewrite Hx in Hl.
      unfold synced. simpl. by rewrite Hl, Hc.
    + apply Hsame. unfold synced. by rewrite Hl, Hc.
  - apply Hsame. unfold synced. by rewrite Hl.
Qed.

Lemma sync_loop (data_dict : list (json * option DatasetRecord)) (n : nat) :
  forall (k : nat) (w : world),
  (forall p, (k <= p < k + n)%nat -> syncable data_dict (td_jobs w !!! p)) ->
  exists l',
    for_each (seq k n) (sync_job data_dict) w
    = (Ok tt, {| td_jobs := l'; files := files w; dirs := dirs w; stdout := stdout w;
                 requests := requests w |}) /\
    forall p, l' !! p = (if decide (k <= p < k + n)%nat then synced data_dict else id)
                          <$> td_jobs w !! p.
Proof.
  induction n as [|n IH]; intros k w Hok; simpl.
  - exists (td_jobs w). split; [by destruct w|]. intros p.
    rewrite decide_False by lia. by destruct (td_jobs w !! p).
  - erewrite bind_run; [|apply sync_job_run, Hok; lia].
    match goal with
    | |- context [for_each _ _ ?w1] => destruct (IH (S k) w1) as (l' & Hrun & Hl')
    end.
    { intros p Hp. simpl. rewrite list_lookup_total_alter.
      rewrite decide_False by lia. apply Hok. lia. }
    exists l'. split; [exact Hrun|]. intros p. rewrite Hl'. simpl.
    rewrite list_lookup_alter. destruct (decide (k = p)) as [->|Hne].
    + rewrite decide_False by lia. rewrite decide_True by lia.
      apply option_fmap_id.
    + repeat case_decide; done || lia.
Qed.

(** [sync_from_dataset] reads the column [default] of the collection
    "OpenFF Group1 Torsions", whatever [dataset] and [spec] it is called
    with: these two are only printed.  Every job with a
    [canonical_torsion_label] that has a record in that column gets the [id]
    and the [status] of the record; every other job, and every other field,
    is what it was.  No [progress] is set. *)
Theorem sync_from_dataset_updates_labelled_jobs
    (get_collection : string -> string -> outcome TorsionDriveDataset)
    (dataset spec : string) (w : world) (ds : TorsionDriveDataset) (status : string)
    (data_dict : list (json * option DatasetRecord)) :
  get_collection "TorsionDriveDataset" "OpenFF Group1 Torsions" = Ok ds ->
  ds_status ds [spec] = Ok status ->
  column_get "default" (df_to_dict ds) = Some data_dict ->
  Forall (syncable data_dict) (td_jobs w) ->
  sync_from_dataset get_collection dataset spec w
  = (Ok tt,
     {| td_jobs := map (synced data_dict) (td_jobs w);
        files := files w; dirs := dirs w;
        stdout := stdout w
                  ++ [Line ("Loading job status from dataset " +:+ dataset +:+ " ["
                            +:+ spec +:+ "] on server");
                      Line ("Dataset status:" +:+ nl +:+ status)];
        requests := requests w |}).
Proof.
  intros Hds Hst Hcol Hok. unfold sync_from_dataset.
  erewrite bind_run; [|reflexivity].
  erewrite bind_run; [|unfold lift; rewrite Hds; reflexivity].
  erewrite bind_run; [|unfold lift; rewrite Hst; reflexivity].
  erewrite bind_run; [|reflexivity].
  erewrite bind_run; [|unfold lift; rewrite Hcol; reflexivity].
  erewrite bind_run; [|reflexivity]. simpl.
  match goal with
  | |- for_each _ _ ?w1 = _ =>
      destruct (sync_loop data_dict (length (td_jobs w)) 0 w1) as (l' & -> & Hl')
  end.
  { intros p Hp. simpl. rewrite Forall_lookup in Hok.
    destruct (lookup_lt_is_Some_2 (td_jobs w) p) as [j Hj]; [lia|].
    rewrite (list_lookup_total_correct _ _ _ Hj). by eapply Hok. }
  simpl. f_equal. f_equal; [|by rewrite <- app_assoc].
  apply list_eq. intros p. rewrite Hl', list_lookup_fmap. simpl.
  destruct (td_jobs w !! p) as [j|] eqn:Hj; [|done]. simpl.
  rewrite decide_True; [done|]. apply lookup_lt_Some in Hj. lia.
Qed.

(** A labelled job with a record, a labelled job without one and a job
    without a label, synced from a dataset of another name. *)
Lemma sync_from_dataset_updates_labelled_jobs_witness :
  let data := [(JStr "t1", Some {| ds_rec_id := JStr "42"; ds_rec_status := "COMPLETE" |})] in
  let ds := {| ds_status := fun _ => Ok "1 COMPLETE";
               df_to_dict := [("default", data)] |} in
  let a := [("status", JStr "submitted"); ("id", JNull);
            ("canonical_torsion_label", JStr "t1")] in
  let b := [("status", JStr "submitted"); ("id", JNull);
            ("canonical_torsion_label", JStr "t2")] in
  let c := sample_job "ethane_c" "submitted" JNull in
  sync_from_dataset (fun _ _ => Ok ds) "My Dataset" "b3lyp" (sample_world [a; b; c] None)
  = (Ok tt,
     {| td_jobs := map (synced data) [a; b; c];
        files := ∅; dirs := ∅;
        stdout := [] ++ [Line "Loading job status from dataset My Dataset [b3lyp] on server";
                         Line ("Dataset status:" +:+ nl +:+ "1 COMPLETE")];
        requests := [] |}).
Proof.
  intros data ds a b c.
  apply (sync_from_dataset_updates_labelled_jobs (fun _ _ => Ok ds) "My Dataset" "b3lyp"
           (sample_world [a; b; c] None) ds "1 COMPLETE" data).
  - reflexivity.
  - reflexivity.
  - reflexivity.
  - constructor; [|constructor; [|constructor; [|constructor]]].
    + intros label [= <-]. split; done.
    + intros label [= <-]. split; done.
    + intros label [=].
Defined.
